(** * ios-bot: the MCP protocol client and the XCUITest script engine

    A shallow embedding of [ios-bot/mcp_client.py] and [ios-bot/xcuitest.py]
    and the properties of the protocol client, the element model and the
    script engine.
    - [Py]: the fragment of Python's dynamic values the two files compute
      with (decoded JSON, truthiness, [dict.get], [==] against an int,
      [float()], [str.lower], the [in] operator on strings);
    - [Xcuitest]: [_normalize_frame], [_parse_elements], the scan of
      [find_element], and [run_script];
    - [McpClient]: [_read_loop], [_send], [_call], and an interleaving
      semantics of two [_call]s sharing the response queue.
    - [PyFacts]: facts about the [in] operator on strs and [str.lower];
    - [Client]: [_mcp_env], [connect], [get_client], [list_tools],
      [call_tool] and [disconnect], and what a call leaves on the queue;
    - [Screen]: [_is_idb_error], [describe_screen], the primitives
      ([tap_xy], [tap_element], [swipe], [type_text], [wait],
      [capture_step_screenshot]) and [navigate_to].

    Each module gives its definitions first and its facts after them. *)

From Stdlib Require Import ZArith List String Ascii Bool Lia Permutation.
From Stdlib Require Import Floats.SpecFloat DecimalString.
Import ListNotations.

Set Warnings "-register-all".

(** ** Results of computations that may raise *)

Inductive result (E A : Type) : Type :=
| Ok (a : A)
| Raise (e : E).

Arguments Ok {E A} a.
Arguments Raise {E A} e.

Definition bind {E A B : Type} (c : result E A) (k : A -> result E B) : result E B :=
  match c with
  | Ok a => k a
  | Raise e => Raise e
  end.

Declare Scope result_scope.
Delimit Scope result_scope with result.
Notation "x <- c ;; k" := (bind c (fun x => k))
  (at level 61, c at next level, right associativity) : result_scope.

(** ** Python values *)

Module Py.

Open Scope string_scope.

(** What [json.loads] produces.  A Python [float] is an IEEE binary64
    number ([spec_float] at precision 53, [emax] 1024); an [int] is
    unbounded; a [dict] is kept as its list of bindings, looked up from the
    front. *)
Inductive json : Type :=
| JNull
| JBool (b : bool)
| JInt (n : Z)
| JFloat (f : spec_float)
| JStr (s : string)
| JArr (items : list json)
| JObj (fields : list (string * json)).

Definition pydict (V : Type) : Type := list (string * V).

Section JsonInduction.
Variable P : json -> Prop.
Hypothesis Hnull : P JNull.
Hypothesis Hbool : forall b, P (JBool b).
Hypothesis Hint : forall n, P (JInt n).
Hypothesis Hfloat : forall f, P (JFloat f).
Hypothesis Hstr : forall s, P (JStr s).
Hypothesis Harr : forall items, Forall P items -> P (JArr items).
Hypothesis Hobj :
  forall fields, Forall (fun kv => P (snd kv)) fields -> P (JObj fields).

Fixpoint json_nested_ind (j : json) : P j :=
  match j with
  | JNull => Hnull
  | JBool b => Hbool b
  | JInt n => Hint n
  | JFloat f => Hfloat f
  | JStr s => Hstr s
  | JArr items =>
      Harr items ((fix all (l : list json) : Forall P l :=
               match l with
               | [] => Forall_nil P
               | x :: r => Forall_cons x (json_nested_ind x) (all r)
               end) items)
  | JObj fields =>
      Hobj fields ((fix all (l : list (string * json))
               : Forall (fun kv => P (snd kv)) l :=
               match l with
               | [] => Forall_nil _
               | kv :: r =>
                   @Forall_cons _ (fun kv => P (snd kv)) kv r
                     (json_nested_ind (snd kv)) (all r)
               end) fields)
  end.

End JsonInduction.

(** [d.get(key)] as an option, [key in d], [d.get(key, default)]. *)
Fixpoint lookup {V : Type} (d : pydict V) (key : string) : option V :=
  match d with
  | [] => None
  | (k, v) :: rest => if String.eqb k key then Some v else lookup rest key
  end.

Definition has_key {V : Type} (d : pydict V) (key : string) : bool :=
  match lookup d key with Some _ => true | None => false end.

Definition get_default {V : Type} (d : pydict V) (key : string) (default : V) : V :=
  match lookup d key with Some v => v | None => default end.

(** [d.get(key)]: [None] when the key is absent. *)
Definition get (d : pydict json) (key : string) : json :=
  get_default d key JNull.

Definition float_is_zero (f : spec_float) : bool :=
  match f with S754_zero _ => true | _ => false end.

(** Truth value of an object, as tested by [if x:] and [x or y]. *)
Definition truthy (v : json) : bool :=
  match v with
  | JNull => false
  | JBool b => b
  | JInt n => negb (n =? 0)%Z
  | JFloat f => negb (float_is_zero f)
  | JStr s => negb (String.eqb s "")
  | JArr items => match items with [] => false | _ => true end
  | JObj fields => match fields with [] => false | _ => true end
  end.

(** [a or b] *)
Definition or_else (a b : json) : json := if truthy a then a else b.

(** The exact value of a finite binary64 number compared with an integer:
    [m * 2^e = n].  Python compares a float and an int by value, without
    converting the int. *)
Definition finite_eq_Z (sign : bool) (m : positive) (e : Z) (n : Z) : bool :=
  let magnitude := if sign then Z.opp n else n in
  if (0 <=? e)%Z
  then (Z.pos m * 2 ^ e =? magnitude)%Z
  else (Z.pos m =? magnitude * 2 ^ (- e))%Z.

Definition float_eq_Z (f : spec_float) (n : Z) : bool :=
  match f with
  | S754_zero _ => (n =? 0)%Z
  | S754_finite sign m e => finite_eq_Z sign m e n
  | S754_infinity _ | S754_nan => false
  end.

(** [v == n] for a decoded JSON value [v] and an int [n].  [True == 1] and
    [1.0 == 1] hold in Python; a string, [None], a list or a dict never
    equals an int. *)
Definition eq_int (v : json) (n : Z) : bool :=
  match v with
  | JInt k => (k =? n)%Z
  | JBool b => ((if b then 1 else 0) =? n)%Z
  | JFloat f => float_eq_Z f n
  | JNull | JStr _ | JArr _ | JObj _ => false
  end.

(** [v == s] for a decoded JSON value [v] and a str [s]: only a str can
    equal a str. *)
Definition eq_str (v : json) (s : string) : bool :=
  match v with
  | JStr t => String.eqb t s
  | _ => false
  end.

(** [str.lower] on ASCII letters; every other character is left as it is. *)
Definition lower_ascii (c : ascii) : ascii :=
  let n := nat_of_ascii c in
  if ((65 <=? n) && (n <=? 90))%nat then ascii_of_nat (n + 32) else c.

Fixpoint lower (s : string) : string :=
  match s with
  | EmptyString => EmptyString
  | String c rest => String (lower_ascii c) (lower rest)
  end.

(** [needle in hay] on two strs: substring containment. *)
Fixpoint contains (hay needle : string) : bool :=
  String.prefix needle hay
  || match hay with
     | EmptyString => false
     | String _ rest => contains rest needle
     end.

(** The exceptions of the builtins used below, by class. *)
Inductive error : Type :=
| TypeError
| AttributeError
| ValueError
| OverflowError
| KeyError.

(** [v.lower()]: only a str has the method. *)
Definition lower_of (v : json) : result error string :=
  match v with
  | JStr s => Ok (lower s)
  | _ => Raise AttributeError
  end.

Definition binary64_of_Z (n : Z) : spec_float :=
  binary_normalize 53 1024 n 0 false.

(** [float(n)] for an int: rounds to nearest-even and raises
    [OverflowError] when the result is not finite. *)
Definition float_of_int (n : Z) : result error spec_float :=
  match binary64_of_Z n with
  | S754_infinity _ => Raise OverflowError
  | f => Ok f
  end.

(** [str(n)] for an int: its decimal numeral. *)
Definition str_of_Z (n : Z) : string :=
  NilZero.string_of_int (Z.to_int n).

(** [type(v).__name__] *)
Definition type_name (v : json) : string :=
  match v with
  | JNull => "NoneType"
  | JBool _ => "bool"
  | JInt _ => "int"
  | JFloat _ => "float"
  | JStr _ => "str"
  | JArr _ => "list"
  | JObj _ => "dict"
  end.

End Py.

(** ** xcuitest.py *)

Module Xcuitest.
Import Py.
Open Scope string_scope.
Open Scope list_scope.
Open Scope result_scope.

(** *** The element model *)

(** [UIElement].  The dataclass declares [label], [identifier] and
    [element_type] as [str], but [_parse_elements] stores whatever the
    accessibility tree holds, so the fields are decoded JSON values here;
    [frame] is the dict built by [_normalize_frame] and [value] the result
    of [str(value)]. *)
Record UIElement : Type := {
  label : json;
  identifier : json;
  element_type : json;
  frame : pydict spec_float;
  value : string
}.

(** [float(s)] for a str ([None]: [ValueError]) and [str(v)] for a value
    that is not a str: builtins, taken as they are. *)
Class Builtins : Type := {
  float_of_str : string -> option spec_float;
  str_of_other : json -> string
}.

Section ElementModel.

Context `{py : Builtins}.

(** [float(v)] *)
Definition py_float (v : json) : result error spec_float :=
  match v with
  | JInt n => float_of_int n
  | JFloat f => Ok f
  | JBool b => Ok (binary64_of_Z (if b then 1 else 0))
  | JStr s =>
      match float_of_str s with
      | Some f => Ok f
      | None => Raise ValueError
      end
  | JNull | JArr _ | JObj _ => Raise TypeError
  end.

(** [str(v)] *)
Definition py_str (v : json) : string :=
  match v with
  | JStr s => s
  | _ => str_of_other v
  end.

(** ["x" in frame]: key membership for a dict, substring for a str,
    element membership for a list, [TypeError] otherwise. *)
Definition contains_x (frame : json) : result error bool :=
  match frame with
  | JObj d => Ok (has_key d "x")
  | JStr s => Ok (contains s "x")
  | JArr items => Ok (existsb (fun v => eq_str v "x") items)
  | JNull | JBool _ | JInt _ | JFloat _ => Raise TypeError
  end.

(** The receiver of a [.get(...)] call: only a dict has the method. *)
Definition as_dict (v : json) : result error (pydict json) :=
  match v with
  | JObj d => Ok d
  | _ => Raise AttributeError
  end.

(** [float(d.get(key, 0))] where [d] is the receiver [v]. *)
Definition float_field (v : json) (key : string) : result error spec_float :=
  d <- as_dict v ;;
  py_float (get_default d key (JInt 0)).

Definition _normalize_frame (frame : json) : result error (pydict spec_float) :=
  has_x <- contains_x frame ;;
  if has_x then
    x <- float_field frame "x" ;;
    y <- float_field frame "y" ;;
    width <- float_field frame "width" ;;
    height <- float_field frame "height" ;;
    Ok [("x", x); ("y", y); ("width", width); ("height", height)]
  else
    fd <- as_dict frame ;;
    let origin := get_default fd "origin" (JObj []) in
    let size := get_default fd "size" (JObj []) in
    x <- float_field origin "x" ;;
    y <- float_field origin "y" ;;
    width <- float_field size "width" ;;
    height <- float_field size "height" ;;
    Ok [("x", x); ("y", y); ("width", width); ("height", height)].

(** The dict branch of [_parse_elements] up to the recursion: the element
    of the node itself, appended to [elements] when the node has a frame
    and a label or an identifier. *)
Definition node_frame (d : pydict json) : json :=
  or_else (get d "frame") (get d "rect").

Definition node_label (d : pydict json) : json :=
  or_else (or_else (get d "label") (get d "accessibilityLabel")) (JStr "").

Definition node_identifier (d : pydict json) : json :=
  or_else (or_else (get d "identifier") (get d "accessibilityIdentifier"))
          (JStr "").

Definition node_type (d : pydict json) : json :=
  or_else (or_else (get d "elementType") (get d "type")) (JStr "Unknown").

Definition node_value (d : pydict json) : json :=
  or_else (get d "value") (JStr "").

Definition append_own (d : pydict json) (elements : list UIElement)
  : result error (list UIElement) :=
  let frame := node_frame d in
  if truthy frame then
    let label := node_label d in
    let identifier := node_identifier d in
    let element_type := node_type d in
    let value := node_value d in
    if truthy (or_else label identifier) then
      normalized <- _normalize_frame frame ;;
      Ok (elements ++ [ {| label := label;
                           identifier := identifier;
                           element_type := element_type;
                           frame := normalized;
                           value := py_str value |} ])%list
    else Ok elements
  else Ok elements.

(** [_parse_elements(data, elements)].  The Python function appends to
    one shared list; the list is threaded through here.  The two inner
    loops are [for item in data] and, for each of the three child keys,
    [if key in data: _parse_elements(data[key], elements)]. *)
Fixpoint _parse_elements (data : json) (elements : list UIElement) {struct data}
  : result error (list UIElement) :=
  match data with
  | JArr items =>
      (fix each (l : list json) (acc : list UIElement) {struct l} :=
         match l with
         | [] => Ok acc
         | item :: rest =>
             acc' <- _parse_elements item acc ;; each rest acc'
         end) items elements
  | JObj d =>
      let under (key : string) :=
        fix visit (l : pydict json) (acc : list UIElement) {struct l} :=
          match l with
          | [] => Ok acc
          | (k, v) :: rest =>
              if String.eqb k key then _parse_elements v acc
              else visit rest acc
          end in
      acc0 <- append_own d elements ;;
      acc1 <- under "children" d acc0 ;;
      acc2 <- under "elements" d acc1 ;;
      under "subtree" d acc2
  | JNull | JBool _ | JInt _ | JFloat _ | JStr _ => Ok elements
  end.

(** [_parse_elements(data)]: the list starts empty. *)
Definition parse (data : json) : result error (list UIElement) :=
  _parse_elements data [].

(** The traversal the parser performs, stated on the tree. *)

(** The dict nodes of a tree in depth-first order: a node comes before
    the nodes below it, the items of a list are taken left to right, and
    below a node the values under "children", "elements" and "subtree"
    are taken in that order. *)
Fixpoint nodes (data : json) : list (pydict json) :=
  match data with
  | JArr items => flat_map nodes items
  | JObj d =>
      let below (key : string) :=
        fix visit (l : pydict json) {struct l} : list (pydict json) :=
          match l with
          | [] => []
          | (k, v) :: rest =>
              if String.eqb k key then nodes v else visit rest
          end in
      (d :: below "children" d ++ below "elements" d ++ below "subtree" d)%list
  | JNull | JBool _ | JInt _ | JFloat _ | JStr _ => []
  end.

(** A node is kept when it has a frame and a label or an identifier. *)
Definition included (d : pydict json) : bool :=
  truthy (node_frame d) && truthy (or_else (node_label d) (node_identifier d)).

(** The two frame shapes and their normal form: [frame_shape fr f] says
    that [fr] is a flat x/y/width/height frame or a nested origin/size
    frame whose fields [float()] accepts, and that [f] holds the four
    converted numbers (a missing field counts as 0). *)
Inductive frame_shape : json -> pydict spec_float -> Prop :=
| FlatFrame (fd : pydict json) (x y w h : spec_float) :
    has_key fd "x" = true ->
    py_float (get_default fd "x" (JInt 0)) = Ok x ->
    py_float (get_default fd "y" (JInt 0)) = Ok y ->
    py_float (get_default fd "width" (JInt 0)) = Ok w ->
    py_float (get_default fd "height" (JInt 0)) = Ok h ->
    frame_shape (JObj fd) [("x", x); ("y", y); ("width", w); ("height", h)]
| NestedFrame (fd od sd : pydict json) (x y w h : spec_float) :
    has_key fd "x" = false ->
    get_default fd "origin" (JObj []) = JObj od ->
    get_default fd "size" (JObj []) = JObj sd ->
    py_float (get_default od "x" (JInt 0)) = Ok x ->
    py_float (get_default od "y" (JInt 0)) = Ok y ->
    py_float (get_default sd "width" (JInt 0)) = Ok w ->
    py_float (get_default sd "height" (JInt 0)) = Ok h ->
    frame_shape (JObj fd) [("x", x); ("y", y); ("width", w); ("height", h)].

(** What [_parse_elements] stores for a node. *)
Definition describes (d : pydict json) (e : UIElement) : Prop :=
  label e = node_label d
  /\ identifier e = node_identifier d
  /\ element_type e = node_type d
  /\ value e = py_str (node_value d)
  /\ frame_shape (node_frame d) (frame e)
  /\ map fst (frame e) = ["x"; "y"; "width"; "height"].

(** Every kept node of the tree has a frame of one of the two shapes. *)
Definition frames_well_formed (data : json) : Prop :=
  Forall (fun d => exists f, frame_shape (node_frame d) f)
         (filter included (nodes data)).

(** The nodes in order, each appending its own element. *)
Fixpoint collect (ds : list (pydict json)) (elements : list UIElement)
  : result error (list UIElement) :=
  match ds with
  | [] => Ok elements
  | d :: rest => acc <- append_own d elements ;; collect rest acc
  end.

Definition descend (child : option json) (elements : list UIElement)
  : result error (list UIElement) :=
  match child with
  | Some v => _parse_elements v elements
  | None => Ok elements
  end.

Definition below (child : option json) : list (pydict json) :=
  match child with
  | Some v => nodes v
  | None => []
  end.

(** What a node has, read off its entries and not through the parser: the
    value of a group of keys is the first value that is truthy, in the
    order of the keys. *)
Fixpoint first_truthy (d : pydict json) (keys : list string) : option json :=
  match keys with
  | [] => None
  | key :: rest =>
      match lookup d key with
      | Some v => if truthy v then Some v else first_truthy d rest
      | None => first_truthy d rest
      end
  end.

Definition frame_keys : list string := ["frame"; "rect"].
Definition label_keys : list string := ["label"; "accessibilityLabel"].
Definition identifier_keys : list string := ["identifier"; "accessibilityIdentifier"].
Definition type_keys : list string := ["elementType"; "type"].
Definition value_keys : list string := ["value"].

Definition present (d : pydict json) (keys : list string) : bool :=
  match first_truthy d keys with Some _ => true | None => false end.

Definition value_of (d : pydict json) (keys : list string) (default : json) : json :=
  match first_truthy d keys with Some v => v | None => default end.

(** A node that has a frame and at least one of a label and an identifier. *)
Definition kept (d : pydict json) : bool :=
  present d frame_keys && (present d label_keys || present d identifier_keys).

(** The element of a kept node: its label, identifier, type and value, an
    absent one being "", "", "Unknown" and "", and its frame in the normal
    form of its shape. *)
Definition shown_as (d : pydict json) (e : UIElement) : Prop :=
  label e = value_of d label_keys (JStr "")
  /\ identifier e = value_of d identifier_keys (JStr "")
  /\ element_type e = value_of d type_keys (JStr "Unknown")
  /\ value e = py_str (value_of d value_keys (JStr ""))
  /\ (exists fr, first_truthy d frame_keys = Some fr /\ frame_shape fr (frame e))
  /\ map fst (frame e) = ["x"; "y"; "width"; "height"].

(** Every kept node of the tree has a frame of one of the two shapes. *)
Definition kept_frames_well_formed (data : json) : Prop :=
  Forall (fun d => exists fr f,
                     first_truthy d frame_keys = Some fr /\ frame_shape fr f)
         (filter kept (nodes data)).

End ElementModel.

(** *** The scan of [find_element]

    [find_element] first fetches the elements with [describe_screen(udid)];
    [elements] stands for that list. *)

(** [label], [identifier] and [element_type] are [Optional[str]]; [if
    label:] skips a criterion that is [None] or the empty string. *)
Definition given (criterion : option string) : option string :=
  match criterion with
  | Some s => if String.eqb s "" then None else Some s
  | None => None
  end.

Definition label_passes (el : UIElement) (wanted : option string) (fuzzy : bool)
  : result error bool :=
  match given wanted with
  | Some w =>
      if fuzzy then
        let needle := lower w in
        have <- lower_of (label el) ;;
        Ok (contains have needle)
      else Ok (eq_str (label el) w)
  | None => Ok true
  end.

Definition identifier_passes (el : UIElement) (wanted : option string) : bool :=
  match given wanted with
  | Some w => eq_str (identifier el) w
  | None => true
  end.

Definition type_passes (el : UIElement) (wanted : option string) : result error bool :=
  match given wanted with
  | Some w =>
      have <- lower_of (element_type el) ;;
      Ok (String.eqb have (lower w))
  | None => Ok true
  end.

Fixpoint find_element (elements : list UIElement)
    (label identifier element_type : option string) (fuzzy : bool)
  : result error (option UIElement) :=
  match elements with
  | [] => Ok None
  | el :: rest =>
      label_ok <- label_passes el label fuzzy ;;
      if negb label_ok then find_element rest label identifier element_type fuzzy
      else if negb (identifier_passes el identifier)
      then find_element rest label identifier element_type fuzzy
      else
        type_ok <- type_passes el element_type ;;
        if negb type_ok then find_element rest label identifier element_type fuzzy
        else Ok (Some el)
  end.

(** The three predicates on an element whose fields are strs. *)
Definition label_matches (wanted : option string) (fuzzy : bool) (el : UIElement) : bool :=
  match given wanted, label el with
  | None, _ => true
  | Some w, JStr have =>
      if fuzzy then contains (lower have) (lower w) else String.eqb have w
  | Some _, _ => false
  end.

Definition identifier_matches (wanted : option string) (el : UIElement) : bool :=
  match given wanted, identifier el with
  | None, _ => true
  | Some w, JStr have => String.eqb have w
  | Some _, _ => false
  end.

(** Element types are compared after lowering both sides. *)
Definition type_matches (wanted : option string) (el : UIElement) : bool :=
  match given wanted, element_type el with
  | None, _ => true
  | Some w, JStr have => String.eqb (lower have) (lower w)
  | Some _, _ => false
  end.

(** The reading in which an element type must be equal as it is written. *)
Definition type_matches_exactly (wanted : option string) (el : UIElement) : bool :=
  match given wanted, element_type el with
  | None, _ => true
  | Some w, JStr have => String.eqb have w
  | Some _, _ => false
  end.

Definition satisfies (label identifier element_type : option string) (fuzzy : bool)
    (el : UIElement) : bool :=
  label_matches label fuzzy el
  && identifier_matches identifier el
  && type_matches element_type el.

Definition satisfies_with_exact_type
    (label identifier element_type : option string) (fuzzy : bool)
    (el : UIElement) : bool :=
  label_matches label fuzzy el
  && identifier_matches identifier el
  && type_matches_exactly element_type el.

(** The fields the dataclass declares as [str] hold strs. *)
Definition is_str (v : json) : bool :=
  match v with JStr _ => true | _ => false end.

(** [.lower()] is called on the label and on the element type. *)
Definition str_fields (el : UIElement) : bool :=
  is_str (label el) && is_str (element_type el).

(** *** A tree and two elements *)

(** Builtins that refuse every str and print nothing. *)
Definition no_builtins : Builtins :=
  {| float_of_str := fun _ => None; str_of_other := fun _ => "" |}.

Definition num (n : Z) : json := JInt n.

(** A screen with a nested origin/size frame at the top and a flat frame one
    level down, and a node without a name in between. *)
Definition mixed_tree : json :=
  JArr [ JObj [ ("label", JStr "Settings");
                ("elementType", JStr "Button");
                ("frame", JObj [ ("origin", JObj [("x", num 1); ("y", num 2)]);
                                 ("size", JObj [("width", num 30); ("height", num 4)]) ]);
                ("children",
                  JArr [ JObj [ ("frame", JObj [("x", num 0); ("y", num 0)]);
                                ("children",
                                  JArr [ JObj [ ("identifier", JStr "wifi");
                                                ("rect", JObj [ ("x", num 5); ("y", num 6);
                                                                ("width", num 7); ("height", num 8) ]) ] ]) ] ]) ] ].

(** The two elements of that screen: the button, with its frame read from
    origin and size, and the cell two levels down, with its flat frame; the
    node between them has no name and gives no element. *)
Definition parsed_settings : UIElement :=
  {| label := JStr "Settings"; identifier := JStr ""; element_type := JStr "Button";
     frame := [ ("x", S754_finite false 4503599627370496 (-52));
                ("y", S754_finite false 4503599627370496 (-51));
                ("width", S754_finite false 8444249301319680 (-48));
                ("height", S754_finite false 4503599627370496 (-50)) ];
     value := "" |}.

Definition parsed_wifi : UIElement :=
  {| label := JStr ""; identifier := JStr "wifi"; element_type := JStr "Unknown";
     frame := [ ("x", S754_finite false 5629499534213120 (-50));
                ("y", S754_finite false 6755399441055744 (-50));
                ("width", S754_finite false 7881299347898368 (-50));
                ("height", S754_finite false 4503599627370496 (-49)) ];
     value := "" |}.

Definition settings_button : UIElement :=
  {| label := JStr "Settings"; identifier := JStr ""; element_type := JStr "Button";
     frame := []; value := "" |}.

Definition wifi_cell : UIElement :=
  {| label := JStr "Wi-Fi"; identifier := JStr "wifi"; element_type := JStr "Cell";
     frame := []; value := "On" |}.

(** *** The script engine *)

(** An exception caught by [except Exception]: its class and [str(exc)]. *)
Record exn : Type := {
  class_name : string;
  message : string
}.

Definition KeyError_of (key : string) : exn :=
  {| class_name := "KeyError"; message := "'" ++ key ++ "'" |}.

Definition AttributeError_lower (v : json) : exn :=
  {| class_name := "AttributeError";
     message := "'" ++ type_name v ++ "' object has no attribute 'lower'" |}.

(** [simulator.SimulatorDevice] *)
Record SimulatorDevice : Type := {
  name : string;
  udid : string;
  state : string;
  runtime : string;
  is_available : bool
}.

Record StepResult : Type := {
  action : string;
  success : bool;
  screenshot_path : option string;
  error : option string;
  detail : string
}.

Record ScriptResult : Type := {
  script_name : string;
  steps : list StepResult
}.

Definition passed (r : ScriptResult) : bool := forallb success (steps r).

Definition failed_steps (r : ScriptResult) : list StepResult :=
  filter (fun s => negb (success s)) (steps r).

(** Assignments to the fields of a [StepResult]. *)
Definition set_detail (text : string) (r : StepResult) : StepResult :=
  {| action := action r; success := success r;
     screenshot_path := screenshot_path r; error := error r; detail := text |}.

Definition set_screenshot_path (path : string) (r : StepResult) : StepResult :=
  {| action := action r; success := success r;
     screenshot_path := Some path; error := error r; detail := detail r |}.

Definition set_success (flag : bool) (r : StepResult) : StepResult :=
  {| action := action r; success := flag;
     screenshot_path := screenshot_path r; error := error r; detail := detail r |}.

Definition set_error (text : string) (r : StepResult) : StepResult :=
  {| action := action r; success := success r;
     screenshot_path := screenshot_path r; error := Some text; detail := detail r |}.

Definition two_point_zero : spec_float := binary64_of_Z 2.

(** [0.5], [1.0] and [300.0] *)
Definition half : json := JFloat (S754_finite false 4503599627370496 (-53)).
Definition one_point_zero : json := JFloat (binary64_of_Z 1).
Definition three_hundred_point_zero : json := JFloat (binary64_of_Z 300).

(** A computation that reads and changes the world (the simulator and
    everything else outside the engine) and returns or raises. *)
Definition action_on (World A : Type) : Type := World -> result exn A * World.

Definition ret {World A : Type} (a : A) : action_on World A := fun w => (Ok a, w).

Definition raise {World A : Type} (e : exn) : action_on World A :=
  fun w => (Raise e, w).

Definition and_then {World A B : Type} (m : action_on World A)
    (k : A -> action_on World B) : action_on World B :=
  fun w =>
    match m w with
    | (Ok a, w') => k a w'
    | (Raise e, w') => (Raise e, w')
    end.

Definition pure {World A : Type} (r : result exn A) : action_on World A :=
  fun w => (r, w).

Notation "x <~ m ;; k" := (and_then m (fun x => k))
  (at level 61, m at next level, right associativity).

(** The functions [run_script] calls, with the arguments it passes them,
    and the builtins behind its f-strings.  Each function may do anything to
    the world and may raise an [Exception].
    - [get_booted()] of simulator.py;
    - [tap_element(label, identifier, udid, fuzzy)],
      [tap_xy(x, y, udid)],
      [swipe(direction, distance, udid, duration, start_x, start_y)],
      [type_text(text, udid)], [wait(seconds)],
      [capture_step_screenshot(step_name, output_dir, udid)] and
      [describe_screen(udid)] of xcuitest.py;
    - [repr(v)] and [format(v, ".0f")] on a decoded JSON value, and
      [format(f, ".0f")] on a float. *)
Class Callees (World : Type) : Type := {
  builtins :: Builtins;
  get_booted : action_on World (option SimulatorDevice);
  tap_element :
    option json -> option json -> option string -> json -> action_on World UIElement;
  tap_xy : json -> json -> option string -> action_on World unit;
  swipe :
    json -> json -> option string -> json -> json -> json -> action_on World unit;
  type_text : json -> option string -> action_on World unit;
  wait : json -> action_on World unit;
  capture_step_screenshot :
    json -> string -> option string -> action_on World string;
  describe_screen : option string -> action_on World (list UIElement);
  repr : json -> string;
  format_0f : json -> result exn string;
  format_0f_float : spec_float -> string
}.

(** A simulator that shows no element and records what is asked of it: the
    world is the list of the calls made so far. *)
Definition logged {A : Type} (entry : string) (a : A) : action_on (list string) A :=
  fun log => (Ok a, log ++ [entry]).

Definition element_not_found : exn :=
  {| class_name := "ValueError"; message := "Element not found: 'Settings'" |}.

Definition simctl_failed : exn :=
  {| class_name := "RuntimeError"; message := "simctl screenshot failed: no device" |}.

Definition booted_device : SimulatorDevice :=
  {| name := "iPhone 17 Pro Max"; udid := "B00TED"; state := "Booted";
     runtime := "iOS 26 1"; is_available := true |}.

Definition empty_screen (screenshot : action_on (list string) string)
  : Callees (list string) :=
  {| builtins := {| float_of_str := fun _ => None; str_of_other := fun _ => "?" |};
     get_booted := logged "get_booted" (Some booted_device);
     tap_element := fun _ _ _ _ log => (Raise element_not_found, log ++ ["tap_element"]);
     tap_xy := fun _ _ _ => logged "tap_xy" tt;
     swipe := fun _ _ _ _ _ _ => logged "swipe" tt;
     type_text := fun _ _ => logged "type_text" tt;
     wait := fun _ => logged "wait" tt;
     capture_step_screenshot := fun _ _ _ => screenshot;
     describe_screen := fun _ => logged "describe_screen" [];
     repr := fun _ => "'?'";
     format_0f := fun _ => Ok "0";
     format_0f_float := fun _ => "0" |}.

(** The screenshot works, or fails as well. *)
Definition screen_with_camera : Callees (list string) :=
  empty_screen (logged "screenshot" "/tmp/ios_bot_steps/shot.png").

Definition screen_without_camera : Callees (list string) :=
  empty_screen (fun log => (Raise simctl_failed, log ++ ["screenshot"])).



(** [0.1] *)
Definition tenth : json := JFloat (S754_finite false 7205759403792794 (-56)).

Definition wait_step : pydict json :=
  [("action", JStr "wait"); ("seconds", tenth)].
Definition tap_settings_step : pydict json :=
  [("action", JStr "tap_label"); ("label", JStr "Settings")].
Definition screenshot_step : pydict json :=
  [("action", JStr "screenshot"); ("name", JStr "home")].

Section ScriptEngine.

Context {World : Type} `{env : Callees World}.

(** [str(v)] *)
Definition str (v : json) : string := py_str v.

(** [d[key]] *)
Definition item {V : Type} (d : pydict V) (key : string) : action_on World V :=
  match lookup d key with
  | Some v => ret v
  | None => raise (KeyError_of key)
  end.

(** [el.center_x] and [el.center_y] *)
Definition center (el : UIElement) (origin extent : string) : action_on World spec_float :=
  o <~ item (frame el) origin ;;
  e <~ item (frame el) extent ;;
  ret (SFadd 53 1024 o (SFdiv 53 1024 e two_point_zero)).

Definition center_x (el : UIElement) : action_on World spec_float := center el "x" "width".
Definition center_y (el : UIElement) : action_on World spec_float := center el "y" "height".

(** [f"({el.center_x:.0f}, {el.center_y:.0f})"] *)
Definition at_center (el : UIElement) : action_on World string :=
  cx <~ center_x el ;;
  cy <~ center_y el ;;
  ret ("(" ++ format_0f_float cx ++ ", " ++ format_0f_float cy ++ ")")%string.

(** [v.lower()] *)
Definition lowered (v : json) : action_on World string :=
  match v with
  | JStr s => ret (lower s)
  | _ => raise (AttributeError_lower v)
  end.

(** [[f(x) for x in xs]] *)
Fixpoint for_each {A B : Type} (f : A -> action_on World B) (xs : list A)
  : action_on World (list B) :=
  match xs with
  | [] => ret []
  | x :: rest => y <~ f x ;; ys <~ for_each f rest ;; ret (y :: ys)
  end.

(** [any(expected.lower() in t for t in texts)]: [expected.lower()] is
    evaluated once per text, until a text contains it. *)
Fixpoint any_contains (expected : json) (texts : list string) : action_on World bool :=
  match texts with
  | [] => ret false
  | t :: rest =>
      needle <~ lowered expected ;;
      if contains t needle then ret true else any_contains expected rest
  end.

(** [udid or (booted.udid if booted else None)] *)
Definition effective (given_udid : option string) (booted : option SimulatorDevice)
  : option string :=
  match given_udid with
  | Some u =>
      if String.eqb u "" then option_map udid booted else Some u
  | None => option_map udid booted
  end.

(** The statements of the [try] before [step_result.success = True], for
    the step [step] whose action is [act]. *)
Definition dispatch (act step_label : json) (step : pydict json)
    (output_dir : string) (effective_udid : option string) (r : StepResult)
  : action_on World StepResult :=
  if eq_str act "tap_label" then
    label <~ item step "label" ;;
    el <~ tap_element (Some label) None effective_udid
            (get_default step "fuzzy" (JBool true)) ;;
    where_ <~ at_center el ;;
    ret (set_detail ("Tapped '" ++ str (Xcuitest.label el) ++ "' at " ++ where_)%string r)
  else if eq_str act "tap_id" then
    ident <~ item step "identifier" ;;
    el <~ tap_element None (Some ident) effective_udid (JBool true) ;;
    where_ <~ at_center el ;;
    ret (set_detail ("Tapped id='" ++ str (identifier el) ++ "' at " ++ where_)%string r)
  else if eq_str act "tap_xy" then
    x <~ item step "x" ;;
    y <~ item step "y" ;;
    _ <~ tap_xy x y effective_udid ;;
    x' <~ item step "x" ;;
    y' <~ item step "y" ;;
    ret (set_detail ("Tapped (" ++ str x' ++ ", " ++ str y' ++ ")")%string r)
  else if eq_str act "swipe" then
    direction <~ item step "direction" ;;
    _ <~ swipe direction
           (get_default step "distance" three_hundred_point_zero)
           effective_udid
           (get_default step "duration" half)
           (get step "start_x") (get step "start_y") ;;
    direction' <~ item step "direction" ;;
    distance <~ pure (format_0f (get_default step "distance" (JInt 300))) ;;
    ret (set_detail ("Swiped " ++ str direction' ++ " " ++ distance ++ "pt")%string r)
  else if eq_str act "type" then
    text <~ item step "text" ;;
    _ <~ type_text text effective_udid ;;
    text' <~ item step "text" ;;
    ret (set_detail ("Typed: " ++ repr text')%string r)
  else if eq_str act "wait" then
    let secs := get_default step "seconds" one_point_zero in
    _ <~ wait secs ;;
    ret (set_detail ("Waited " ++ str secs ++ "s")%string r)
  else if eq_str act "screenshot" then
    let snap_name := get_default step "name" step_label in
    path <~ capture_step_screenshot snap_name output_dir effective_udid ;;
    ret (set_detail ("Screenshot: " ++ path)%string (set_screenshot_path path r))
  else if eq_str act "assert_text" then
    expected <~ item step "text" ;;
    elements <~ describe_screen effective_udid ;;
    labels <~ for_each (fun el => lowered (Xcuitest.label el)) elements ;;
    let values := map (fun el => lower (value el)) elements in
    found <~ any_contains expected (labels ++ values) ;;
    if negb found then
      raise {| class_name := "AssertionError";
               message := ("Text not found on screen: " ++ repr expected)%string |}
    else ret (set_detail ("Found text: " ++ repr expected)%string r)
  else
    raise {| class_name := "ValueError";
             message := ("Unknown action: " ++ repr act)%string |}.

(** [try: path = capture_step_screenshot(step_name, ...);
    step_result.screenshot_path = path / except Exception: pass] *)
Definition with_screenshot (step_name : json) (output_dir : string)
    (effective_udid : option string) (r : StepResult)
  : World -> StepResult * World :=
  fun w =>
    match capture_step_screenshot step_name output_dir effective_udid w with
    | (Ok path, w') => (set_screenshot_path path r, w')
    | (Raise _, w') => (r, w')
    end.

(** What the loop computes from [i] and [step] before the [try]. *)
Definition action_of (step : pydict json) : json :=
  get_default step "action" (JStr "unknown").

Definition number_of (i : nat) : string := str_of_Z (Z.of_nat i + 1).

Definition label_of (i : nat) (step : pydict json) : json :=
  or_else (get step "name")
          (JStr ("step_" ++ number_of i ++ "_" ++ str (action_of step))).

Definition fresh (i : nat) (step : pydict json) : StepResult :=
  {| action := (number_of i ++ ". " ++ str (action_of step))%string;
     success := false; screenshot_path := None; error := None; detail := "" |}.

(** The [try] body: the dispatch, [step_result.success = True], and the
    optional screenshot after a step that is not a screenshot itself. *)
Definition try_body (i : nat) (step : pydict json) (output_dir : string)
    (effective_udid : option string) (screenshot_every_step : bool)
  : action_on World StepResult :=
  r <~ dispatch (action_of step) (label_of i step) step output_dir effective_udid
         (fresh i step) ;;
  let r := set_success true r in
  if screenshot_every_step && negb (eq_str (action_of step) "screenshot") then
    fun w =>
      let (r', w') :=
        with_screenshot (label_of i step) output_dir effective_udid r w in
      (Ok r', w')
  else ret r.

(** The [except Exception as exc] clause.  No field of [step_result] has
    been assigned when an exception leaves the [try] body, so the clause
    starts from the fresh record. *)
Definition on_failure (exc : exn) (i : nat) (step : pydict json)
    (output_dir : string) (effective_udid : option string)
  : World -> StepResult * World :=
  with_screenshot (JStr ("FAIL_" ++ str (label_of i step))) output_dir effective_udid
    (set_error (message exc) (set_success false (fresh i step))).

(** One turn of the [for i, step in enumerate(steps)] loop, up to the
    [append]: the [StepResult] of the step. *)
Definition run_step (i : nat) (step : pydict json) (output_dir : string)
    (effective_udid : option string) (screenshot_every_step : bool)
  : World -> StepResult * World :=
  fun w =>
    match try_body i step output_dir effective_udid screenshot_every_step w with
    | (Ok r, w') => (r, w')
    | (Raise exc, w') => on_failure exc i step output_dir effective_udid w'
    end.

(** The loop: append the step's result, stop after a failed one. *)
Fixpoint run_steps (i : nat) (todo : list (pydict json)) (output_dir : string)
    (effective_udid : option string) (screenshot_every_step : bool)
    (done : list StepResult) (w : World) : list StepResult * World :=
  match todo with
  | [] => (done, w)
  | step :: rest =>
      let (r, w') :=
        run_step i step output_dir effective_udid screenshot_every_step w in
      let done' := done ++ [r] in
      if negb (success r) then (done', w')
      else run_steps (S i) rest output_dir effective_udid screenshot_every_step
             done' w'
  end.

Definition run_script (name : string) (todo : list (pydict json))
    (output_dir : string) (given_udid : option string)
    (screenshot_every_step : bool) : action_on World ScriptResult :=
  booted <~ get_booted ;;
  let effective_udid := effective given_udid booted in
  fun w =>
    let (done, w') :=
      run_steps 0 todo output_dir effective_udid screenshot_every_step [] w in
    (Ok {| script_name := name; steps := done |}, w').

(** Every exception a computation raises has a non-empty [str(exc)]. *)
Definition says_why {A : Type} (m : action_on World A) : Prop :=
  forall w e w', m w = (Raise e, w') -> message e <> "".

(** The callees never raise an exception whose message is empty. *)
Record callees_say_why : Prop := {
  tap_element_says_why :
    forall label identifier u fuzzy, says_why (tap_element label identifier u fuzzy);
  tap_xy_says_why : forall x y u, says_why (tap_xy x y u);
  swipe_says_why :
    forall direction distance u duration sx sy,
      says_why (swipe direction distance u duration sx sy);
  type_text_says_why : forall text u, says_why (type_text text u);
  wait_says_why : forall seconds, says_why (wait seconds);
  capture_says_why :
    forall step_name output_dir u,
      says_why (capture_step_screenshot step_name output_dir u);
  describe_screen_says_why : forall u, says_why (describe_screen u);
  format_0f_says_why : forall v e, format_0f v = Raise e -> message e <> ""
}.

(** The entries after the first failed one: there are none. *)
Definition stops_at_first_failure (trace : list StepResult) : Prop :=
  forall before entry after,
    trace = before ++ entry :: after -> success entry = false -> after = [].

End ScriptEngine.

(** *** Facts about the element model *)

Section ElementFacts.

Context `{py : Builtins}.

Lemma _parse_elements_obj (d : pydict json) (elements : list UIElement) :
  _parse_elements (JObj d) elements =
  (acc0 <- append_own d elements ;;
   acc1 <- descend (lookup d "children") acc0 ;;
   acc2 <- descend (lookup d "elements") acc1 ;;
   descend (lookup d "subtree") acc2).
Proof.
  assert (visit_lookup : forall key l acc,
    (fix visit (l : pydict json) (acc : list UIElement) {struct l} :=
       match l with
       | [] => Ok acc
       | (k, v) :: rest =>
           if String.eqb k key then _parse_elements v acc else visit rest acc
       end) l acc = descend (lookup l key) acc).
  { intros key l. induction l as [|[k v] rest IH]; intros acc; cbn [lookup].
    - reflexivity.
    - destruct (String.eqb k key); [reflexivity | apply IH]. }
  cbn [_parse_elements].
  destruct (append_own d elements) as [acc0|e]; cbn [bind]; [|reflexivity].
  rewrite visit_lookup.
  destruct (descend (lookup d "children") acc0) as [acc1|e]; cbn [bind]; [|reflexivity].
  rewrite visit_lookup.
  destruct (descend (lookup d "elements") acc1) as [acc2|e]; cbn [bind]; [|reflexivity].
  apply visit_lookup.
Qed.

Lemma _parse_elements_arr (items : list json) (elements : list UIElement) :
  _parse_elements (JArr items) elements =
  fold_left (fun acc item => a <- acc ;; _parse_elements item a) items (Ok elements).
Proof.
  cbn [_parse_elements]. revert elements.
  induction items as [|item rest IH]; intros elements; cbn [fold_left].
  - reflexivity.
  - cbn [bind]. destruct (_parse_elements item elements) as [acc|e]; cbn [bind].
    + apply IH.
    + clear IH. induction rest as [|x r IHr]; [reflexivity | exact IHr].
Qed.

Lemma nodes_obj (d : pydict json) :
  nodes (JObj d) =
  (d :: below (lookup d "children") ++ below (lookup d "elements")
     ++ below (lookup d "subtree"))%list.
Proof.
  assert (visit_lookup : forall key l,
    (fix visit (l : pydict json) {struct l} : list (pydict json) :=
       match l with
       | [] => []
       | (k, v) :: rest => if String.eqb k key then nodes v else visit rest
       end) l = below (lookup l key)).
  { intros key l. induction l as [|[k v] rest IH]; cbn [lookup].
    - reflexivity.
    - destruct (String.eqb k key); [reflexivity | apply IH]. }
  cbn [nodes]. now rewrite !visit_lookup.
Qed.

Lemma collect_app (ds1 ds2 : list (pydict json)) (elements : list UIElement) :
  collect (ds1 ++ ds2) elements = (acc <- collect ds1 elements ;; collect ds2 acc).
Proof.
  revert elements. induction ds1 as [|d rest IH]; intros elements; cbn [collect app bind].
  - reflexivity.
  - destruct (append_own d elements) as [acc|e]; cbn [bind]; [apply IH | reflexivity].
Qed.

(** The parser visits the dict nodes in depth-first order and does at each
    what [append_own] does, whether or not a frame makes it raise. *)
Lemma _parse_elements_collect (data : json) :
  forall elements, _parse_elements data elements = collect (nodes data) elements.
Proof.
  induction data as [| | | | |items IH|fields IH] using json_nested_ind;
    intros elements; try reflexivity.
  - rewrite _parse_elements_arr. cbn [nodes]. revert elements.
    induction IH as [|item rest Hitem _ IHrest]; intros elements;
      cbn [fold_left flat_map bind].
    + reflexivity.
    + rewrite collect_app, Hitem.
      destruct (collect (nodes item) elements) as [acc|e]; cbn [bind].
      * apply IHrest.
      * clear. induction rest as [|x r IHr]; [reflexivity | exact IHr].
  - rewrite _parse_elements_obj, nodes_obj.
    assert (descend_collect : forall key acc,
      descend (lookup fields key) acc = collect (below (lookup fields key)) acc).
    { intros key acc. induction IH as [|[k v] rest Hv _ IHrest]; cbn [lookup].
      - reflexivity.
      - destruct (String.eqb k key); [apply Hv | apply IHrest]. }
    cbn [collect].
    destruct (append_own fields elements) as [acc0|e]; cbn [bind]; [|reflexivity].
    rewrite collect_app, descend_collect.
    destruct (collect (below (lookup fields "children")) acc0) as [acc1|e];
      cbn [bind]; [|reflexivity].
    rewrite collect_app, descend_collect.
    destruct (collect (below (lookup fields "elements")) acc1) as [acc2|e];
      cbn [bind]; [|reflexivity].
    apply descend_collect.
Qed.

Lemma _normalize_frame_shape (fr : json) (f : pydict spec_float) :
  _normalize_frame fr = Ok f <-> frame_shape fr f.
Proof.
  split.
  - unfold _normalize_frame, float_field.
    destruct fr as [| | | | s | items | fd]; cbn [contains_x as_dict bind];
      try discriminate.
    + destruct (contains s "x"); discriminate.
    + destruct (existsb _ items); discriminate.
    + destruct (has_key fd "x") eqn:Hx.
      * destruct (py_float (get_default fd "x" (JInt 0))) as [x|] eqn:Ex;
          cbn [bind]; [|discriminate].
        destruct (py_float (get_default fd "y" (JInt 0))) as [y|] eqn:Ey;
          cbn [bind]; [|discriminate].
        destruct (py_float (get_default fd "width" (JInt 0))) as [w|] eqn:Ew;
          cbn [bind]; [|discriminate].
        destruct (py_float (get_default fd "height" (JInt 0))) as [h|] eqn:Eh;
          cbn [bind]; [|discriminate].
        intros [= <-]. now apply FlatFrame.
      * destruct (get_default fd "origin" (JObj [])) as [| | | | | |od] eqn:Eo;
          cbn [as_dict bind]; try discriminate.
        destruct (py_float (get_default od "x" (JInt 0))) as [x|] eqn:Ex;
          cbn [bind]; [|discriminate].
        destruct (py_float (get_default od "y" (JInt 0))) as [y|] eqn:Ey;
          cbn [bind]; [|discriminate].
        destruct (get_default fd "size" (JObj [])) as [| | | | | |sd] eqn:Es;
          cbn [as_dict bind]; try discriminate.
        destruct (py_float (get_default sd "width" (JInt 0))) as [w|] eqn:Ew;
          cbn [bind]; [|discriminate].
        destruct (py_float (get_default sd "height" (JInt 0))) as [h|] eqn:Eh;
          cbn [bind]; [|discriminate].
        intros [= <-]. now apply NestedFrame with (od := od) (sd := sd).
  - intros Hshape. unfold _normalize_frame, float_field.
    destruct Hshape as [fd x y w h Hx Ex Ey Ew Eh
                       |fd od sd x y w h Hx Eo Es Ex Ey Ew Eh];
      cbn [contains_x as_dict bind]; rewrite Hx.
    + now rewrite Ex, Ey, Ew, Eh.
    + rewrite Eo, Es. cbn [as_dict bind]. now rewrite Ex, Ey, Ew, Eh.
Qed.

Lemma frame_shape_keys (fr : json) (f : pydict spec_float) :
  frame_shape fr f -> map fst f = ["x"; "y"; "width"; "height"].
Proof. now destruct 1. Qed.

Lemma append_own_skipped (d : pydict json) (elements : list UIElement) :
  included d = false -> append_own d elements = Ok elements.
Proof.
  unfold included, append_own. intros Hskip.
  destruct (truthy (node_frame d)); [|reflexivity].
  cbn [andb] in Hskip. now rewrite Hskip.
Qed.

Lemma append_own_included (d : pydict json) (elements : list UIElement)
    (f : pydict spec_float) :
  included d = true -> frame_shape (node_frame d) f ->
  exists e, append_own d elements = Ok (elements ++ [e])%list /\ describes d e.
Proof.
  unfold included, append_own. intros Hkept Hshape.
  apply andb_true_iff in Hkept as [Hframe Hname]. rewrite Hframe, Hname.
  pose proof (frame_shape_keys _ _ Hshape) as Hkeys.
  apply _normalize_frame_shape in Hshape as Hnorm. rewrite Hnorm. cbn [bind].
  eexists. split; [reflexivity|]. now repeat split.
Qed.

Lemma collect_well_formed (ds : list (pydict json)) :
  Forall (fun d => exists f, frame_shape (node_frame d) f) (filter included ds) ->
  forall elements, exists found,
    collect ds elements = Ok (elements ++ found)%list
    /\ Forall2 describes (filter included ds) found.
Proof.
  induction ds as [|d rest IH]; intros Hwf elements; cbn [collect filter] in *.
  - exists []. split; [now rewrite app_nil_r | constructor].
  - destruct (included d) eqn:Hkept.
    + inversion Hwf as [|? ? [f Hshape] Hrest]; subst.
      destruct (append_own_included d elements f Hkept Hshape) as (e & -> & Hdesc).
      cbn [bind].
      destruct (IH Hrest (elements ++ [e])%list) as (found & -> & Hall).
      exists (e :: found). split; [now rewrite <- app_assoc | now constructor].
    + rewrite (append_own_skipped d elements Hkept). cbn [bind]. now apply IH.
Qed.

Lemma first_truthy_get (d : pydict json) (key : string) (rest : list string) :
  first_truthy d (key :: rest)
  = if truthy (get d key) then Some (get d key) else first_truthy d rest.
Proof.
  cbn [first_truthy]. unfold get, get_default.
  now destruct (lookup d key).
Qed.

Lemma truthy_or_else (a b : json) : truthy (or_else a b) = truthy a || truthy b.
Proof. unfold or_else. destruct (truthy a) eqn:Ha; [exact Ha | reflexivity]. Qed.

Lemma value_of_or_else (d : pydict json) (first second : string) (default : json) :
  value_of d [first; second] default
  = or_else (or_else (get d first) (get d second)) default.
Proof.
  unfold value_of, or_else. rewrite !first_truthy_get. cbn [first_truthy].
  destruct (truthy (get d first)) eqn:Hfirst;
    [repeat first [progress cbv beta iota | rewrite Hfirst]; reflexivity|].
  destruct (truthy (get d second)) eqn:Hsecond;
    repeat first [progress cbv beta iota | rewrite Hsecond]; reflexivity.
Qed.

Lemma present_or_else (d : pydict json) (first second : string) :
  present d [first; second]
  = truthy (or_else (or_else (get d first) (get d second)) (JStr "")).
Proof.
  unfold present, or_else. rewrite !first_truthy_get. cbn [first_truthy].
  destruct (truthy (get d first)) eqn:Hfirst;
    [repeat first [progress cbv beta iota | rewrite Hfirst]; reflexivity|].
  destruct (truthy (get d second)) eqn:Hsecond;
    repeat first [progress cbv beta iota | rewrite Hsecond]; reflexivity.
Qed.

Lemma node_frame_first (d : pydict json) :
  first_truthy d frame_keys
  = if truthy (node_frame d) then Some (node_frame d) else None.
Proof.
  unfold frame_keys, node_frame, or_else. rewrite !first_truthy_get.
  cbn [first_truthy].
  destruct (truthy (get d "frame")) eqn:Hframe; cbv beta iota; rewrite ?Hframe;
    [reflexivity|].
  now destruct (truthy (get d "rect")).
Qed.

Lemma node_value_first (d : pydict json) :
  node_value d = value_of d value_keys (JStr "").
Proof.
  unfold node_value, value_of, value_keys, or_else. rewrite first_truthy_get.
  cbn [first_truthy]. now destruct (truthy (get d "value")).
Qed.

Lemma included_kept (d : pydict json) : included d = kept d.
Proof.
  unfold included, kept, present at 1. rewrite node_frame_first.
  destruct (truthy (node_frame d)); [|reflexivity]. cbn [andb].
  rewrite truthy_or_else. unfold node_label, node_identifier.
  unfold label_keys, identifier_keys. now rewrite !present_or_else.
Qed.

Lemma describes_shown_as (d : pydict json) (e : UIElement) :
  included d = true -> describes d e -> shown_as d e.
Proof.
  intros Hkept (Hlabel & Hid & Htype & Hvalue & Hshape & Hkeys).
  unfold included in Hkept. apply andb_true_iff in Hkept as [Hframe _].
  unfold shown_as, label_keys, identifier_keys, type_keys.
  rewrite !value_of_or_else.
  rewrite <- node_value_first, node_frame_first, Hframe.
  repeat split; try assumption. now exists (node_frame d).
Qed.

Lemma filter_included_kept (ds : list (pydict json)) :
  filter included ds = filter kept ds.
Proof. apply filter_ext. intros d. apply included_kept. Qed.

Lemma kept_frames_included (data : json) :
  kept_frames_well_formed data -> frames_well_formed data.
Proof.
  unfold kept_frames_well_formed, frames_well_formed.
  rewrite filter_included_kept. apply Forall_impl.
  intros d (fr & f & Hfirst & Hshape). exists f.
  rewrite node_frame_first in Hfirst.
  destruct (truthy (node_frame d)); [|discriminate].
  now injection Hfirst as ->.
Qed.

(** C6: [parse] returns one element for each dict node that has a frame
    (a truthy value under "frame" or "rect") and a label or an identifier (a
    truthy value under "label", "accessibilityLabel", "identifier" or
    "accessibilityIdentifier"), in the depth-first order of the nodes, and
    no other element.  Each element holds the node's label, identifier,
    type and value, and the node's frame normalized to the four keys x, y,
    width, height, whether the frame is flat or nested origin/size.  This
    is for trees whose kept nodes carry a frame of one of the two shapes. *)
Theorem parse_depth_first_normalized (data : json) :
  kept_frames_well_formed data ->
  exists found,
    parse data = Ok found
    /\ Forall2 shown_as (filter kept (nodes data)) found.
Proof.
  intros Hwf. apply kept_frames_included in Hwf.
  unfold parse. rewrite _parse_elements_collect.
  destruct (collect_well_formed (nodes data) Hwf []) as (found & Hrun & Hall).
  exists found. split; [exact Hrun|].
  rewrite <- filter_included_kept.
  assert (Hkept : Forall (fun d => included d = true) (filter included (nodes data))).
  { apply Forall_forall. intros d Hin. now apply filter_In in Hin. }
  clear Hrun Hwf. revert Hkept.
  induction Hall as [|d e ds es Hde _ IH]; intros Hkept; constructor.
  - inversion Hkept; subst. now apply describes_shown_as.
  - inversion Hkept; subst. now apply IH.
Qed.

End ElementFacts.

Example parse_mixed_tree :
  option_map (map (fun e => (label e, identifier e, map fst (frame e))))
    (match parse (py := no_builtins) mixed_tree with
     | Ok found => Some found
     | Raise _ => None
     end)
  = Some [ (JStr "Settings", JStr "", ["x"; "y"; "width"; "height"]);
           (JStr "", JStr "wifi", ["x"; "y"; "width"; "height"]) ].
Proof. vm_compute. reflexivity. Qed.

Lemma parse_depth_first_normalized_witness :
  kept_frames_well_formed (py := no_builtins) mixed_tree
  /\ parse (py := no_builtins) mixed_tree = Ok [parsed_settings; parsed_wifi]
  /\ exists found,
       parse (py := no_builtins) mixed_tree = Ok found
       /\ Forall2 (shown_as (py := no_builtins))
                  (filter kept (nodes mixed_tree)) found.
Proof.
  assert (Hwf : kept_frames_well_formed (py := no_builtins) mixed_tree).
  { unfold kept_frames_well_formed. cbn.
    repeat constructor; do 2 eexists;
      (split; [reflexivity | apply _normalize_frame_shape; reflexivity]). }
  split; [exact Hwf|]. split; [reflexivity|].
  exact (parse_depth_first_normalized (py := no_builtins) mixed_tree Hwf).
Defined.

(** *** Facts about the scan *)

Lemma label_passes_matches (el : UIElement) (wanted : option string) (fuzzy : bool) :
  is_str (label el) = true ->
  label_passes el wanted fuzzy = Ok (label_matches wanted fuzzy el).
Proof.
  unfold label_passes, label_matches. intros Hstr.
  destruct (label el); try discriminate.
  destruct (given wanted); [|reflexivity].
  now destruct fuzzy.
Qed.

Lemma identifier_passes_matches (el : UIElement) (wanted : option string) :
  identifier_passes el wanted = identifier_matches wanted el.
Proof.
  unfold identifier_passes, identifier_matches.
  destruct (given wanted); [|reflexivity]. now destruct (identifier el).
Qed.

Lemma type_passes_matches (el : UIElement) (wanted : option string) :
  is_str (element_type el) = true ->
  type_passes el wanted = Ok (type_matches wanted el).
Proof.
  unfold type_passes, type_matches. intros Hstr.
  destruct (element_type el); try discriminate.
  now destruct (given wanted).
Qed.

(** C5: on elements whose label and type are strs, the scan
    returns the first element that passes every criterion given as a
    non-empty string, and [None] when there is none.  A label passes by
    case-insensitive containment when [fuzzy] holds and by equality
    otherwise, an identifier by equality, and an element type by equality
    after lowering both sides. *)
Theorem find_element_first_satisfying (elements : list UIElement)
    (label identifier element_type : option string) (fuzzy : bool) :
  forallb str_fields elements = true ->
  find_element elements label identifier element_type fuzzy =
  Ok (find (satisfies label identifier element_type fuzzy) elements).
Proof.
  induction elements as [|el rest IH]; intros Hstr; cbn [find_element find].
  - reflexivity.
  - cbn [forallb] in Hstr. apply andb_true_iff in Hstr as [Hel Hrest].
    apply andb_true_iff in Hel as [Hlabel Htype].
    rewrite (label_passes_matches el label fuzzy Hlabel). cbn [bind].
    rewrite identifier_passes_matches.
    rewrite (type_passes_matches el element_type Htype).
    unfold satisfies.
    destruct (label_matches label fuzzy el); cbn [negb andb]; [|now apply IH].
    destruct (identifier_matches identifier el); cbn [negb andb bind];
      [|now apply IH].
    destruct (type_matches element_type el); cbn [negb]; [reflexivity|now apply IH].
Qed.

Lemma find_element_first_satisfying_witness :
  forallb str_fields [wifi_cell; settings_button] = true
  /\ find_element [wifi_cell; settings_button] (Some "set") None None true
     = Ok (find (satisfies (Some "set") None None true) [wifi_cell; settings_button]).
Proof.
  split; [reflexivity|].
  apply (find_element_first_satisfying [wifi_cell; settings_button]
           (Some "set") None None true).
  reflexivity.
Defined.

Example find_fuzzy_set_matches_settings :
  find_element [wifi_cell; settings_button] (Some "set") None None true
  = Ok (Some settings_button)
  /\ find_element [wifi_cell; settings_button] (Some "set") None None false
     = Ok None.
Proof. split; reflexivity. Qed.

(** C5: the element type is not compared exactly.  An element whose type
    is written "Button" is found by the criterion "button"; a scan with
    exact type equality would return [None]. *)
Lemma find_element_type_ignores_case :
  find_element [settings_button] None None (Some "button") true
  = Ok (Some settings_button)
  /\ find_element [settings_button] None None (Some "button") true
     <> Ok (find (satisfies_with_exact_type None None (Some "button") true)
                 [settings_button]).
Proof. split; [reflexivity | discriminate]. Qed.

(** C9: with no label, no identifier and no type, the scan of a non-empty
    list returns its first element. *)
Theorem find_element_no_criteria (el : UIElement) (rest : list UIElement)
    (fuzzy : bool) :
  find_element (el :: rest) None None None fuzzy = Ok (Some el).
Proof. reflexivity. Qed.

(** *** Facts about the script engine *)

Section ScriptFacts.

Context {World : Type} `{env : Callees World}.

Lemma with_screenshot_keeps (step_name : json) (output_dir : string)
    (u : option string) (r : StepResult) (w : World) :
  let r' := fst (with_screenshot step_name output_dir u r w) in
  success r' = success r /\ error r' = error r
  /\ action r' = action r /\ detail r' = detail r.
Proof.
  unfold with_screenshot.
  destruct (capture_step_screenshot step_name output_dir u w) as [[path|e] w'];
    cbn; auto.
Qed.

Lemma try_body_success (i : nat) (step : pydict json) (output_dir : string)
    (u : option string) (every : bool) (w w' : World) (r : StepResult) :
  try_body i step output_dir u every w = (Ok r, w') -> success r = true.
Proof.
  unfold try_body, and_then.
  destruct (dispatch _ _ step output_dir u (fresh i step) w) as [[r1|e] w1];
    [|discriminate].
  destruct (every && negb (eq_str (action_of step) "screenshot")).
  - pose proof (with_screenshot_keeps (label_of i step) output_dir u
                  (set_success true r1) w1) as Hkeep.
    destruct (with_screenshot _ output_dir u (set_success true r1) w1) as [r' w2].
    cbn in Hkeep. intros [= <- <-]. now destruct Hkeep as [-> _].
  - now intros [= <- <-].
Qed.

Lemma run_step_returned (i : nat) (step : pydict json) (output_dir : string)
    (u : option string) (every : bool) (w w' : World) (r : StepResult) :
  try_body i step output_dir u every w = (Ok r, w') ->
  run_step i step output_dir u every w = (r, w') /\ success r = true.
Proof.
  intros Hbody. split; [|exact (try_body_success _ _ _ _ _ _ _ _ Hbody)].
  unfold run_step. now rewrite Hbody.
Qed.

Lemma run_step_raised (i : nat) (step : pydict json) (output_dir : string)
    (u : option string) (every : bool) (w w' : World) (exc : exn) :
  try_body i step output_dir u every w = (Raise exc, w') ->
  run_step i step output_dir u every w = on_failure exc i step output_dir u w'
  /\ success (fst (on_failure exc i step output_dir u w')) = false
  /\ error (fst (on_failure exc i step output_dir u w')) = Some (message exc).
Proof.
  intros Hbody. unfold run_step. rewrite Hbody. split; [reflexivity|].
  unfold on_failure.
  pose proof (with_screenshot_keeps (JStr ("FAIL_" ++ str (label_of i step)))
                output_dir u
                (set_error (message exc) (set_success false (fresh i step))) w')
    as (Hsuccess & Herror & _).
  now rewrite Hsuccess, Herror.
Qed.

Lemma run_steps_trace (todo : list (pydict json)) (output_dir : string)
    (u : option string) (every : bool) :
  forall i done w,
    exists new,
      fst (run_steps i todo output_dir u every done w) = done ++ new
      /\ List.length new <= List.length todo
      /\ stops_at_first_failure new.
Proof.
  induction todo as [|step rest IH]; intros i done w; cbn [run_steps].
  - exists []. rewrite app_nil_r. repeat split; [apply Nat.le_refl|].
    intros [|? ?] entry after; discriminate.
  - destruct (run_step i step output_dir u every w) as [r w'].
    destruct (success r) eqn:Hr; cbn [negb].
    + destruct (IH (S i) (done ++ [r]) w') as (new & Hrun & Hlen & Hstop).
      exists (r :: new). rewrite Hrun, <- app_assoc. cbn [app List.length].
      repeat split; [apply le_n_S; exact Hlen|].
      intros [|first before] entry after; cbn [app].
      * intros [= <- _] Hfailed. congruence.
      * intros [= _ Hnew]. now apply (Hstop before).
    + exists [r]. cbn [fst List.length]. repeat split; [apply le_n_S, Nat.le_0_l|].
      intros [|first [|second before]] entry after; cbn [app]; try discriminate.
      now intros [= _ <-].
Qed.












(** C3: [run_script] either raises what [get_booted] raised, before any
    step, or returns a trace that has at most as many entries as there are
    steps and in which nothing comes after an entry whose success flag is
    false. *)
Theorem run_script_trace_bounded (name : string) (todo : list (pydict json))
    (output_dir : string) (given_udid : option string) (every : bool) (w : World) :
  match run_script name todo output_dir given_udid every w with
  | (Ok r, _) =>
      List.length (steps r) <= List.length todo
      /\ stops_at_first_failure (steps r)
  | (Raise e, w') => get_booted w = (Raise e, w')
  end.
Proof.
  unfold run_script, and_then.
  destruct (get_booted w) as [[booted|e] w0]; [|reflexivity].
  destruct (run_steps_trace todo output_dir (effective given_udid booted) every
              0 [] w0) as (new & Hrun & Hlen & Hstop).
  destruct (run_steps 0 todo output_dir _ every [] w0) as [done w1].
  cbn [fst app] in Hrun. subst new. now split.
Qed.


(** C8: when the execution of a step raises, the step's entry has
    [success = False] and the message of that exception as its error,
    whether the diagnostic screenshot is captured or raises in turn; the
    screenshot decides the entry's screenshot path only, and the script
    stops with this entry. *)
Theorem failure_screenshot_never_masks (i : nat) (step : pydict json)
    (rest : list (pydict json)) (output_dir : string) (u : option string)
    (every : bool) (done : list StepResult) (w w1 : World) (exc : exn) :
  try_body i step output_dir u every w = (Raise exc, w1) ->
  let shot :=
    capture_step_screenshot (JStr ("FAIL_" ++ str (label_of i step)))
      output_dir u w1 in
  exists entry,
    run_step i step output_dir u every w = (entry, snd shot)
    /\ success entry = false
    /\ error entry = Some (message exc)
    /\ screenshot_path entry
       = match fst shot with
         | Ok path => Some path
         | Raise _ => None
         end
    /\ run_steps i (step :: rest) output_dir u every done w
       = (done ++ [entry], snd shot).
Proof.
  intros Hraise shot.
  destruct (run_step_raised _ _ _ _ _ _ _ _ Hraise) as (Hstep & _ & _).
  cbn [run_steps]. rewrite Hstep. unfold on_failure, with_screenshot.
  fold shot. destruct shot as [[path|e] w2]; cbn [fst snd];
    eexists; repeat split.
Qed.

End ScriptFacts.

(** A script on an empty screen. *)

Lemma empty_screen_says_why (screenshot : action_on (list string) string) :
  says_why screenshot -> callees_say_why (env := empty_screen screenshot).
Proof.
  intros Hshot. constructor; cbn; intros; try discriminate; try exact Hshot.
  intros log e log'. intros [= <- _]. discriminate.
Qed.

(** [[wait 0.1s; tap "Settings"; screenshot]] on a screen without a
    "Settings" element: two entries, the first a success, the second a
    failure, and the third step is not run. *)
Example settings_script_stops_at_tap :
  option_map (fun r => map (fun e => (action e, success e, error e)) (steps r))
    (match run_script (env := screen_with_camera) "open settings"
             [wait_step; tap_settings_step; screenshot_step]
             "/tmp/ios_bot_steps" None false [] with
     | (Ok r, _) => Some r
     | (Raise _, _) => None
     end)
  = Some [ ("1. wait", true, None);
           ("2. tap_label", false, Some "Element not found: 'Settings'") ].
Proof. vm_compute. reflexivity. Qed.



Lemma failure_screenshot_never_masks_witness :
  exists entry log,
    run_steps (env := screen_without_camera) 1 [tap_settings_step; screenshot_step]
      "/tmp/ios_bot_steps" (Some "B00TED") false [] ["get_booted"; "wait"]
    = ([entry], log)
    /\ success entry = false
    /\ error entry = Some "Element not found: 'Settings'"
    /\ screenshot_path entry = None.
Proof.
  destruct (failure_screenshot_never_masks (env := screen_without_camera) 1
              tap_settings_step [screenshot_step] "/tmp/ios_bot_steps"
              (Some "B00TED") false [] ["get_booted"; "wait"]
              ["get_booted"; "wait"; "tap_element"] element_not_found eq_refl)
    as (entry & _ & Hfailed & Herror & Hpath & Hrun).
  exists entry. eexists. split; [exact Hrun|]. now repeat split.
Defined.

End Xcuitest.

(** ** mcp_client.py: the protocol client *)

Module McpClient.
Import Py.
Open Scope string_scope.
Open Scope list_scope.
Open Scope Z_scope.

(** The child process: [poll()] is [None] while it runs; what has been
    written to its stdin is kept as the list of request objects, one per
    line. *)
Record Popen : Type := {
  poll : option Z;
  stdin : list json
}.

(** What [_call] raises.
    - [ServerNotRunning]: [RuntimeError("MCP server is not running")], from
      [_send];
    - [MCPError details]: [RuntimeError(f"MCP error: {msg['error']}")];
    - [NoResponse method req_id timeout]:
      [TimeoutError(f"No response for {method} (id={req_id}) within {timeout}s")];
    - [NoGetAttribute msg]: the [AttributeError] of [msg.get] on a decoded
      value that is not a dict. *)
Inductive call_error : Type :=
| ServerNotRunning
| MCPError (details : json)
| NoResponse (method : string) (req_id : Z) (timeout : Z)
| NoGetAttribute (msg : json).

(** The client together with what surrounds one call.  Time is counted in
    milliseconds; [now] is [time.monotonic()].  [arrivals] lists the messages
    the reader thread will put on the queue, in the order it reads them, each
    with the time of its [put]; a message is not put before the ones listed
    ahead of it.  Only waiting in [Queue.get] takes time. *)
Record MCPClient : Type := {
  _proc : option Popen;
  _response_queue : list json;
  _next_id : Z;
  now : Z;
  arrivals : list (Z * json)
}.

Definition one_second : Z := 1000.

(** *** The reader thread *)

Inductive loads_error : Type :=
| JSONDecodeError
| OtherLoadsError.

Section Reader.

(** [str.strip] and [json.loads], taken as they are.  [json.loads] returns a
    value, raises [json.JSONDecodeError], or raises something else (a
    [RecursionError] on a deeply nested text). *)
Variable strip : string -> string.
Variable json_loads : string -> result loads_error json.

(** One turn of the [for line in self._proc.stdout] loop. *)
Definition read_line (line : string) (queue : list json)
  : result loads_error (list json) :=
  let line := strip line in
  if String.eqb line "" then Ok queue
  else
    match json_loads line with
    | Ok msg => Ok (queue ++ [msg])
    | Raise JSONDecodeError => Ok queue
    | Raise e => Raise e
    end.

Fixpoint _read_loop (stdout : list string) (queue : list json)
  : result loads_error (list json) :=
  match stdout with
  | [] => Ok queue
  | line :: rest =>
      match read_line line queue with
      | Ok queue' => _read_loop rest queue'
      | Raise e => Raise e
      end
  end.


End Reader.

(** *** [_send] *)

Definition _send (msg : json) (c : MCPClient) : result call_error MCPClient :=
  match _proc c with
  | Some p =>
      match poll p with
      | None =>
          Ok {| _proc := Some {| poll := None; stdin := stdin p ++ [msg] |};
                _response_queue := _response_queue c;
                _next_id := _next_id c;
                now := now c;
                arrivals := arrivals c |}
      | Some _ => Raise ServerNotRunning
      end
  | None => Raise ServerNotRunning
  end.

(** *** The response queue *)

(** The messages already put by time [t] are at the front of [arrivals]. *)
Fixpoint arrived (t : Z) (pending_puts : list (Z * json)) : list json :=
  match pending_puts with
  | (at_time, msg) :: rest =>
      if at_time <=? t then msg :: arrived t rest else []
  | [] => []
  end.

Fixpoint not_arrived (t : Z) (pending_puts : list (Z * json)) : list (Z * json) :=
  match pending_puts with
  | (at_time, msg) :: rest =>
      if at_time <=? t then not_arrived t rest else pending_puts
  | [] => []
  end.

(** Move the clock to [t] and let the reader's puts up to [t] happen. *)
Definition at_time (t : Z) (c : MCPClient) : MCPClient :=
  {| _proc := _proc c;
     _response_queue := _response_queue c ++ arrived t (arrivals c);
     _next_id := _next_id c;
     now := t;
     arrivals := not_arrived t (arrivals c) |}.

Definition with_queue (queue : list json) (c : MCPClient) : MCPClient :=
  {| _proc := _proc c;
     _response_queue := queue;
     _next_id := _next_id c;
     now := now c;
     arrivals := arrivals c |}.

(** [self._response_queue.put(m)] *)
Definition put (m : json) (c : MCPClient) : MCPClient :=
  with_queue (_response_queue c ++ [m]) c.

(** [for m in pending: self._response_queue.put(m)] *)
Definition put_all (pending : list json) (c : MCPClient) : MCPClient :=
  fold_left (fun c m => put m c) pending c.

(** [self._response_queue.get(timeout=timeout)] for a positive timeout:
    the head of the queue at once; otherwise the next message the reader
    puts, if it does so before the timeout runs out; otherwise [None], for
    [queue.Empty], once the timeout has run out. *)
Definition queue_get (timeout : Z) (c : MCPClient) : option json * MCPClient :=
  let c := at_time (now c) c in
  match _response_queue c with
  | msg :: rest => (Some msg, with_queue rest c)
  | [] =>
      match arrivals c with
      | (t, msg) :: _ =>
          if t <? now c + timeout then
            let c' := at_time t c in
            (Some msg, with_queue (tl (_response_queue c')) c')
          else (None, at_time (now c + timeout) c)
      | [] => (None, at_time (now c + timeout) c)
      end
  end.

(** *** [_call] *)

(** The body of the [try] once [get] has returned [msg], for the call that
    waits for [req_id] and has set [pending] aside. *)
Inductive handled : Type :=
| Finished (put_back : list json) (outcome : result call_error json)
| StillWaiting (pending : list json)
| Crashed (e : call_error).

Definition handle (req_id : Z) (pending : list json) (msg : json) : handled :=
  match msg with
  | JObj d =>
      if eq_int (get d "id") req_id then
        Finished pending
          (match lookup d "error" with
           | Some details => Raise (MCPError details)
           | None => Ok (get_default d "result" (JObj []))
           end)
      else StillWaiting (pending ++ [msg])
  | _ => Crashed (NoGetAttribute msg)
  end.

(** The [while time.monotonic() < deadline] loop; [fuel] bounds the number
    of turns. *)
Fixpoint wait_loop (fuel : nat) (method : string) (req_id timeout deadline : Z)
    (pending : list json) (c : MCPClient)
  : option (result call_error json * MCPClient) :=
  if now c <? deadline then
    match fuel with
    | O => None
    | S fuel' =>
        let remaining := deadline - now c in
        match queue_get (Z.min remaining one_second) c with
        | (Some msg, c') =>
            match handle req_id pending msg with
            | Finished put_back outcome => Some (outcome, put_all put_back c')
            | StillWaiting pending' =>
                wait_loop fuel' method req_id timeout deadline pending' c'
            | Crashed e => Some (Raise e, c')
            end
        | (None, c') =>
            wait_loop fuel' method req_id timeout deadline pending c'
        end
    end
  else Some (Raise (NoResponse method req_id timeout), put_all pending c).

Definition request (req_id : Z) (method : string) (params : json) : json :=
  JObj [ ("jsonrpc", JStr "2.0"); ("id", JInt req_id);
         ("method", JStr method); ("params", params) ].

Definition with_next_id (n : Z) (c : MCPClient) : MCPClient :=
  {| _proc := _proc c;
     _response_queue := _response_queue c;
     _next_id := n;
     now := now c;
     arrivals := arrivals c |}.

(** Turns that are enough for the loop: one per message and one per second
    of the timeout, and one more. *)
Definition turns (timeout : Z) (c : MCPClient) : nat :=
  (List.length (_response_queue c) + List.length (arrivals c)
   + Z.to_nat (timeout / one_second) + 2)%nat.

Definition _call (method : string) (params : json) (timeout : Z) (c : MCPClient)
  : option (result call_error json * MCPClient) :=
  let req_id := _next_id c in
  let c := with_next_id (_next_id c + 1) c in
  match _send (request req_id method params) c with
  | Raise e => Some (Raise e, c)
  | Ok c =>
      let deadline := now c + timeout in
      wait_loop (turns timeout c) method req_id timeout deadline [] c
  end.

(** *** What a call sees and how it ends *)

(** [self._proc] is set and [poll()] is [None]. *)
Definition running (c : MCPClient) : bool :=
  match _proc c with
  | Some p => match poll p with None => true | Some _ => false end
  | None => false
  end.

Definition is_object (msg : json) : bool :=
  match msg with JObj _ => true | _ => false end.

(** A response bearing the correlation id [req_id]. *)
Definition bears (req_id : Z) (msg : json) : bool :=
  match msg with
  | JObj d => eq_int (get d "id") req_id
  | _ => false
  end.

(** A message at which the loop stops: one that is not a dict, or one that
    bears the id. *)
Definition decisive (req_id : Z) (msg : json) : bool :=
  negb (is_object msg) || bears req_id msg.

(** An object that answers some other call. *)
Definition for_other_call (req_id : Z) (msg : json) : bool :=
  is_object msg && negb (bears req_id msg).

(** The messages a call with the given deadline can take off the queue, in
    order: what is queued when it starts waiting and what the reader puts
    before the deadline.  Nothing, when the deadline has passed already. *)
Definition visible (deadline : Z) (c : MCPClient) : list json :=
  if now c <? deadline
  then _response_queue c ++ arrived (deadline - 1) (arrivals c)
  else [].

(** What the matching response gives the caller. *)
Definition reply (msg : json) : result call_error json :=
  match msg with
  | JObj d =>
      match lookup d "error" with
      | Some details => Raise (MCPError details)
      | None => Ok (get_default d "result" (JObj []))
      end
  | _ => Raise (NoGetAttribute msg)
  end.

(** [handle] along a list of messages. *)
Fixpoint settle (req_id : Z) (pending : list json) (msgs : list json) : handled :=
  match msgs with
  | [] => StillWaiting pending
  | msg :: rest =>
      match handle req_id pending msg with
      | StillWaiting pending' => settle req_id pending' rest
      | done => done
      end
  end.

Definition verdict (method : string) (req_id timeout : Z) (h : handled)
  : result call_error json :=
  match h with
  | Finished _ outcome => outcome
  | StillWaiting _ => Raise (NoResponse method req_id timeout)
  | Crashed e => Raise e
  end.

(** The measure that decreases at every turn of the loop. *)
Definition seconds_left (deadline : Z) (c : MCPClient) : nat :=
  Z.to_nat ((deadline - now c + 999) / one_second).

Definition messages_left (c : MCPClient) : nat :=
  (List.length (_response_queue c) + List.length (arrivals c))%nat.

(** *** Two calls waiting on one queue *)

Record caller : Type := {
  method_of : string;
  id_of : Z;
  timeout_of : Z
}.

(** Where a call stands: in the loop with what it has set aside, or past
    the loop, putting back what it had set aside before it returns or
    raises [outcome].  The call is over when nothing is left to put back. *)
Inductive status : Type :=
| Waiting (pending : list json)
| Leaving (back : list json) (outcome : result call_error json).

Inductive who : Type := First | Second.

Record shared : Type := {
  to_arrive : list json;
  queue : list json;
  first_call : caller;
  first : status;
  second_call : caller;
  second : status
}.

Definition call_of (w : who) (s : shared) : caller :=
  match w with First => first_call s | Second => second_call s end.

Definition status_of (w : who) (s : shared) : status :=
  match w with First => first s | Second => second s end.

Definition update (w : who) (q : list json) (st : status) (s : shared) : shared :=
  match w with
  | First =>
      {| to_arrive := to_arrive s; queue := q;
         first_call := first_call s; first := st;
         second_call := second_call s; second := second s |}
  | Second =>
      {| to_arrive := to_arrive s; queue := q;
         first_call := first_call s; first := first s;
         second_call := second_call s; second := st |}
  end.

(** The atomic actions: the reader thread puts the next decoded message; a
    call gets the head of the queue and runs the body of its [try] on it; a
    call finds its deadline passed; a call puts back one message. *)
Inductive move : Type :=
| ReaderPuts
| Gets (w : who)
| Expires (w : who)
| PutsBack (w : who).

Definition step (m : move) (s : shared) : option shared :=
  match m with
  | ReaderPuts =>
      match to_arrive s with
      | msg :: rest =>
          Some {| to_arrive := rest; queue := queue s ++ [msg];
                  first_call := first_call s; first := first s;
                  second_call := second_call s; second := second s |}
      | [] => None
      end
  | Gets w =>
      match status_of w s, queue s with
      | Waiting pending, msg :: rest =>
          Some (update w rest
                  (match handle (id_of (call_of w s)) pending msg with
                   | Finished back outcome => Leaving back outcome
                   | StillWaiting pending' => Waiting pending'
                   | Crashed e => Leaving [] (Raise e)
                   end) s)
      | _, _ => None
      end
  | Expires w =>
      match status_of w s with
      | Waiting pending =>
          let c := call_of w s in
          Some (update w (queue s)
                  (Leaving pending
                     (Raise (NoResponse (method_of c) (id_of c) (timeout_of c)))) s)
      | Leaving _ _ => None
      end
  | PutsBack w =>
      match status_of w s with
      | Leaving (msg :: back) outcome =>
          Some (update w (queue s ++ [msg]) (Leaving back outcome) s)
      | _ => None
      end
  end.

Fixpoint run (moves : list move) (s : shared) : option shared :=
  match moves with
  | [] => Some s
  | m :: rest =>
      match step m s with
      | Some s' => run rest s'
      | None => None
      end
  end.

Definition is_expiry (m : move) : bool :=
  match m with Expires _ => true | _ => false end.

(** Nothing can happen any more unless a deadline passes. *)
Definition quiescent (s : shared) : Prop :=
  forall m, is_expiry m = false -> step m s = None.

(** The call is over, with this outcome. *)
Definition ended (w : who) (s : shared) (outcome : result call_error json) : Prop :=
  status_of w s = Leaving [] outcome.

Definition start (a b : caller) (responses : list json) : shared :=
  {| to_arrive := responses; queue := [];
     first_call := a; first := Waiting [];
     second_call := b; second := Waiting [] |}.

Definition held (st : status) : list json :=
  match st with
  | Waiting pending => pending
  | Leaving back _ => back
  end.

Definition is_timeout (outcome : result call_error json) : bool :=
  match outcome with
  | Raise (NoResponse _ _ _) => true
  | _ => false
  end.

(** 1 when the call has taken its response off the queue for good. *)
Definition taken (st : status) : nat :=
  match st with
  | Waiting _ => 0
  | Leaving _ outcome => if is_timeout outcome then 0 else 1
  end.

Definition count_for (req_id : Z) (msgs : list json) : nat :=
  List.length (filter (bears req_id) msgs).

Definition time_out (c : caller) : result call_error json :=
  Raise (NoResponse (method_of c) (id_of c) (timeout_of c)).

(** No call has timed out. *)
Definition untimed (s : shared) : Prop :=
  forall w back outcome,
    status_of w s = Leaving back outcome -> is_timeout outcome = false.

(** How much can still happen before a deadline passes: a message yet to
    arrive costs more than a queued one, a queued one more than one set
    aside by a call that still waits, and one to be put back more than a
    queued one; the more calls wait, the more a message costs. *)
Definition waiting (st : status) : nat :=
  match st with Waiting _ => 1 | Leaving _ _ => 0 end.

Definition effort_held (n : nat) (st : status) : nat :=
  match st with
  | Waiting pending => (2 * n - 1) * List.length pending
  | Leaving back _ => (2 * n + 1) * List.length back
  end.

Definition effort (s : shared) : nat :=
  let n := (waiting (first s) + waiting (second s))%nat in
  (5 * List.length (to_arrive s) + 2 * n * List.length (queue s)
   + effort_held n (first s) + effort_held n (second s))%nat.

(** What a call may hold and how it may have ended: it sets aside only the
    other call's response, and it ends with its own response or with its
    time-out. *)
Definition keeps (other own : json) (c : caller) (st : status) : Prop :=
  match st with
  | Waiting pending => Forall (eq other) pending
  | Leaving back outcome =>
      Forall (eq other) back /\ (outcome = reply own \/ outcome = time_out c)
  end.

(** What holds of two calls [a] and [b] and their responses [ra] and [rb]
    along every run. *)
Record invariant (a b : caller) (ra rb : json) (s : shared) : Prop := {
  inv_first_call : first_call s = a;
  inv_second_call : second_call s = b;
  inv_messages : Forall (fun m => m = ra \/ m = rb) (to_arrive s ++ queue s);
  inv_first : keeps rb ra a (first s);
  inv_second : keeps ra rb b (second s);
  inv_count_a :
    (count_for (id_of a) (to_arrive s ++ queue s ++ held (second s))
     + taken (first s) = 1)%nat;
  inv_count_b :
    (count_for (id_of b) (to_arrive s ++ queue s ++ held (first s))
     + taken (second s) = 1)%nat
}.

(** The reading in which both calls always get their responses: whenever
    nothing more can happen and no deadline has passed, both calls are over,
    each with its own response. *)
Definition each_call_gets_its_response (a b : caller) (ra rb : json) : Prop :=
  forall responses moves s,
    responses = [ra; rb] \/ responses = [rb; ra] ->
    forallb (fun m => negb (is_expiry m)) moves = true ->
    run moves (start a b responses) = Some s ->
    quiescent s ->
    ended First s (reply ra) /\ ended Second s (reply rb).

(** *** A client, a reader and two callers *)

Definition reply_to (req_id : Z) (text : string) : json :=
  JObj [("jsonrpc", JStr "2.0"); ("id", JInt req_id); ("result", JStr text)].

Definition error_to (req_id : Z) (text : string) : json :=
  JObj [("jsonrpc", JStr "2.0"); ("id", JInt req_id); ("error", JStr text)].

Definition example_client : MCPClient :=
  {| _proc := Some {| poll := None; stdin := [] |};
     _response_queue := [reply_to 3 "late"];
     _next_id := 7;
     now := 100;
     arrivals := [ (200, reply_to 6 "stray"); (5000, error_to 7 "no such tool");
                   (6000, reply_to 8 "next") ] |}.

Definition toy_strip (s : string) : string := s.
Definition toy_loads (s : string) : result loads_error json :=
  if String.eqb s "5" then Ok (JInt 5)
  else if String.eqb s "{}" then Ok (JObj [])
  else Raise JSONDecodeError.


Definition call_one : caller :=
  {| method_of := "tools/call"; id_of := 1; timeout_of := 30000 |}.
Definition call_two : caller :=
  {| method_of := "tools/list"; id_of := 2; timeout_of := 15000 |}.
Definition response_one : json := reply_to 1 "tapped".
Definition response_two : json := reply_to 2 "tools".

(** The responses arrive in the reverse order of the requests; the first
    call takes the second call's response off the queue and sets it aside,
    then the second call does the same with the first call's response. *)
Definition crossed : list move :=
  [ReaderPuts; Gets First; ReaderPuts; Gets Second].

(** *** Facts about the queue and the loop *)

Lemma arrived_length (t : Z) (l : list (Z * json)) :
  (List.length (arrived t l) + List.length (not_arrived t l) = List.length l)%nat.
Proof.
  induction l as [|[u m] rest IH]; cbn [arrived not_arrived List.length].
  - reflexivity.
  - destruct (u <=? t); cbn [List.length]; lia.
Qed.

Lemma arrived_split (t t' : Z) (l : list (Z * json)) :
  t <= t' -> arrived t' l = arrived t l ++ arrived t' (not_arrived t l).
Proof.
  intros Hle. induction l as [|[u m] rest IH]; cbn [arrived not_arrived].
  - reflexivity.
  - destruct (u <=? t) eqn:Hu.
    + apply Z.leb_le in Hu. assert (Hu' : (u <=? t') = true) by (apply Z.leb_le; lia).
      rewrite Hu'. cbn [app]. now rewrite IH.
    + reflexivity.
Qed.

Lemma not_arrived_head (t u : Z) (m : json) (l rest : list (Z * json)) :
  not_arrived t l = (u, m) :: rest -> t < u.
Proof.
  induction l as [|[v k] l' IH]; cbn [not_arrived]; [discriminate|].
  destruct (v <=? t) eqn:Hv; [exact IH|].
  intros [= -> _ _]. now apply Z.leb_gt in Hv.
Qed.

Lemma messages_left_at_time (t : Z) (c : MCPClient) :
  messages_left (at_time t c) = messages_left c.
Proof.
  unfold messages_left, at_time; cbn. rewrite length_app.
  pose proof (arrived_length t (arrivals c)). lia.
Qed.

Lemma seconds_left_positive (deadline : Z) (c : MCPClient) :
  now c < deadline -> (1 <= seconds_left deadline c)%nat.
Proof.
  unfold seconds_left, one_second. intros Hlt.
  assert (1 <= (deadline - now c + 999) / 1000) by (apply Z.div_le_lower_bound; lia).
  lia.
Qed.

Lemma seconds_left_mono (deadline : Z) (c c' : MCPClient) :
  now c <= now c' -> (seconds_left deadline c' <= seconds_left deadline c)%nat.
Proof.
  unfold seconds_left, one_second. intros Hle.
  assert ((deadline - now c' + 999) / 1000 <= (deadline - now c + 999) / 1000)
    by (apply Z.div_le_mono; lia).
  lia.
Qed.

(** [get] hands over the first visible message and leaves the rest visible. *)
Lemma queue_get_some (deadline : Z) (c c' : MCPClient) (msg : json) :
  now c < deadline ->
  queue_get (Z.min (deadline - now c) one_second) c = (Some msg, c') ->
  visible deadline c = msg :: visible deadline c'
  /\ now c <= now c' < deadline
  /\ S (messages_left c') = messages_left c.
Proof.
  intros Hlt. unfold queue_get, visible.
  assert (Hnow : (now c <? deadline) = true) by now apply Z.ltb_lt.
  rewrite Hnow.
  rewrite (arrived_split (now c) (deadline - 1) (arrivals c)) by lia.
  pose proof (arrived_length (now c) (arrivals c)) as Hcount.
  unfold messages_left. cbn [at_time _response_queue arrivals now].
  destruct (_response_queue c ++ arrived (now c) (arrivals c))
    as [|first rest] eqn:Hqueue.
  - destruct (not_arrived (now c) (arrivals c)) as [|[t m] later] eqn:Hlater;
      [discriminate|].
    pose proof (not_arrived_head _ _ _ _ _ Hlater) as Ht.
    destruct (t <? now c + Z.min (deadline - now c) one_second) eqn:Hin;
      [|discriminate].
    apply Z.ltb_lt in Hin. intros [= <- <-].
    cbn [with_queue at_time _response_queue arrivals now arrived not_arrived app].
    rewrite Z.leb_refl. cbn [tl].
    assert (Hd : (t <? deadline) = true) by (apply Z.ltb_lt; lia). rewrite Hd.
    apply app_eq_nil in Hqueue as [Hq Ha]. rewrite Hq, Ha in *.
    cbn [app List.length] in *.
    rewrite Hlater. cbn [not_arrived]. rewrite Z.leb_refl.
    assert (Hd' : (t <=? deadline - 1) = true) by (apply Z.leb_le; lia).
    rewrite Hd'.
    rewrite (arrived_split t (deadline - 1) later) by lia.
    pose proof (arrived_length t later).
    repeat split; try lia.
  - intros [= <- <-].
    cbn [with_queue at_time _response_queue arrivals now].
    rewrite Hnow.
    apply (f_equal (@List.length _)) in Hqueue as Hlen.
    rewrite length_app in Hlen. cbn [List.length] in Hlen.
    repeat split; try lia.
    rewrite app_assoc, Hqueue. reflexivity.
Qed.

(** [get] raises [queue.Empty] only when it is a second closer to the
    deadline, and loses sight of no message. *)
Lemma queue_get_none (deadline : Z) (c c' : MCPClient) :
  now c < deadline ->
  queue_get (Z.min (deadline - now c) one_second) c = (None, c') ->
  visible deadline c' = visible deadline c
  /\ now c <= now c'
  /\ messages_left c' = messages_left c
  /\ (seconds_left deadline c' < seconds_left deadline c)%nat.
Proof.
  intros Hlt. unfold queue_get.
  assert (Hnow : (now c <? deadline) = true) by now apply Z.ltb_lt.
  set (timeout := Z.min (deadline - now c) one_second).
  assert (Hstep : visible deadline (at_time (now c + timeout) (at_time (now c) c))
                  = (if now c + timeout <? deadline
                     then visible deadline c else [])
                  /\ now c <= now (at_time (now c + timeout) (at_time (now c) c))
                  /\ messages_left (at_time (now c + timeout) (at_time (now c) c))
                     = messages_left c
                  /\ (seconds_left deadline (at_time (now c + timeout) (at_time (now c) c))
                      < seconds_left deadline c)%nat).
  { rewrite !messages_left_at_time. unfold visible, seconds_left.
    cbn [at_time _response_queue arrivals now]. rewrite Hnow.
    unfold timeout, one_second in *.
    repeat split; try lia.
    - destruct (now c + Z.min (deadline - now c) 1000 <? deadline) eqn:Hd;
        [|reflexivity].
      apply Z.ltb_lt in Hd.
      rewrite (arrived_split (now c) (deadline - 1) (arrivals c)) by lia.
      rewrite (arrived_split (now c + Z.min (deadline - now c) 1000) (deadline - 1)
                 (not_arrived (now c) (arrivals c))) by lia.
      now rewrite !app_assoc.
    - assert (Hdiv : (deadline - (now c + Z.min (deadline - now c) 1000) + 999) / 1000
                     < (deadline - now c + 999) / 1000).
      { destruct (Z.le_gt_cases (deadline - now c) 1000) as [Hshort|Hlong].
        - rewrite Z.min_l by lia.
          replace (deadline - (now c + (deadline - now c)) + 999) with 999 by lia.
          change (999 / 1000) with 0.
          apply Z.div_str_pos. lia.
        - rewrite Z.min_r by lia.
          replace (deadline - now c + 999)
            with ((deadline - (now c + 1000) + 999) + 1 * 1000) by lia.
          rewrite Z.div_add by lia. lia. }
      assert (0 <= (deadline - (now c + Z.min (deadline - now c) 1000) + 999) / 1000)
        by (apply Z.div_pos; lia).
      lia. }
  cbn [at_time _response_queue arrivals now] in *.
  destruct (_response_queue c ++ arrived (now c) (arrivals c))
    as [|first rest] eqn:Hqueue; [|discriminate].
  assert (Hvis : forall t m later,
             not_arrived (now c) (arrivals c) = (t, m) :: later ->
             deadline <= t -> visible deadline c = []).
  { intros t m later Hlater Ht. unfold visible. rewrite Hnow.
    rewrite (arrived_split (now c) (deadline - 1) (arrivals c)) by lia.
    rewrite app_assoc, Hqueue, Hlater. cbn [app arrived].
    assert (Hd : (t <=? deadline - 1) = false) by (apply Z.leb_gt; lia).
    now rewrite Hd. }
  assert (Hnone : not_arrived (now c) (arrivals c) = [] ->
                  visible deadline c = []).
  { intros Hlater. unfold visible. rewrite Hnow.
    rewrite (arrived_split (now c) (deadline - 1) (arrivals c)) by lia.
    now rewrite app_assoc, Hqueue, Hlater. }
  destruct Hstep as (Hsame & Hle & Hcount & Hsec).
  destruct (not_arrived (now c) (arrivals c)) as [|[t m] later] eqn:Hlater.
  - intros [= <-]. repeat split; try assumption.
    rewrite Hsame. rewrite (Hnone eq_refl). now destruct (now c + timeout <? deadline).
  - destruct (t <? now c + timeout) eqn:Hin; [discriminate|].
    apply Z.ltb_ge in Hin.
    intros [= <-]. repeat split; try assumption.
    rewrite Hsame. destruct (now c + timeout <? deadline) eqn:Hd; [reflexivity|].
    apply Z.ltb_ge in Hd. symmetry. apply (Hvis t m later eq_refl). lia.
Qed.

Section Call.
Variables (method : string) (req_id timeout deadline : Z).

Lemma wait_loop_settles (fuel : nat) :
  forall (pending : list json) (c : MCPClient),
    (messages_left c + seconds_left deadline c <= fuel)%nat ->
    exists c',
      wait_loop fuel method req_id timeout deadline pending c
      = Some (verdict method req_id timeout
                (settle req_id pending (visible deadline c)), c').
Proof.
  induction fuel as [|fuel IH]; intros pending c Hfuel.
  - destruct (now c <? deadline) eqn:Hnow.
    + apply Z.ltb_lt in Hnow.
      pose proof (seconds_left_positive deadline c Hnow). lia.
    + unfold visible. cbn [wait_loop]. rewrite Hnow. cbn. eauto.
  - cbn [wait_loop].
    destruct (now c <? deadline) eqn:Hnow.
    2:{ unfold visible. rewrite Hnow. cbn. eauto. }
    apply Z.ltb_lt in Hnow.
    destruct (queue_get (Z.min (deadline - now c) one_second) c)
      as [[msg|] c'] eqn:Hget.
    + destruct (queue_get_some deadline c c' msg Hnow Hget) as (-> & Htime & Hcount).
      cbn [settle].
      destruct (handle req_id pending msg) as [back outcome|pending'|e];
        cbn [verdict]; eauto.
      apply IH.
      pose proof (seconds_left_mono deadline c c' (proj1 Htime)). lia.
    + destruct (queue_get_none deadline c c' Hnow Hget)
        as (<- & Htime & Hcount & Hsec).
      apply IH. lia.
Qed.

End Call.

Lemma settle_first_decisive (method : string) (req_id timeout : Z) (msgs : list json) :
  forall pending,
    verdict method req_id timeout (settle req_id pending msgs)
    = match find (decisive req_id) msgs with
      | Some msg => reply msg
      | None => Raise (NoResponse method req_id timeout)
      end.
Proof.
  induction msgs as [|msg rest IH]; intros pending; cbn [settle find].
  - reflexivity.
  - unfold decisive at 1, handle.
    destruct msg as [| | | | | |d]; cbn [is_object negb orb bears verdict reply];
      try reflexivity.
    destruct (eq_int (get d "id") req_id); cbn [verdict]; [reflexivity | apply IH].
Qed.

Lemma find_decisive_objects (req_id : Z) (msgs : list json) :
  Forall (fun m => is_object m = true) msgs ->
  find (decisive req_id) msgs = find (bears req_id) msgs.
Proof.
  induction 1 as [|msg rest Hobj _ IH]; cbn [find]; [reflexivity|].
  unfold decisive at 1. rewrite Hobj. cbn [negb orb]. now rewrite IH.
Qed.


Lemma turns_enough (timeout : Z) (c : MCPClient) :
  (messages_left c + seconds_left (now c + timeout) c <= turns timeout c)%nat.
Proof.
  unfold turns, messages_left, seconds_left, one_second.
  replace (now c + timeout - now c + 999) with (timeout + 999) by lia.
  assert ((timeout + 999) / 1000 <= timeout / 1000 + 1).
  { replace (timeout / 1000 + 1) with ((timeout + 1 * 1000) / 1000)
      by (rewrite Z.div_add by lia; reflexivity).
    apply Z.div_le_mono; lia. }
  lia.
Qed.

Lemma _call_running (method : string) (params : json) (timeout : Z) (c : MCPClient) :
  running c = true ->
  exists c',
    _call method params timeout c
    = Some (verdict method (_next_id c) timeout
              (settle (_next_id c) [] (visible (now c + timeout) c)), c').
Proof.
  unfold running, _call, _send. cbn [with_next_id _proc].
  destruct (_proc c) as [p|]; [|discriminate].
  destruct (poll p); [discriminate|]. intros _.
  cbn [now].
  match goal with
  | |- context [wait_loop _ _ _ _ _ _ ?c1] =>
      destruct (wait_loop_settles method (_next_id c) timeout (now c + timeout)
                  (turns timeout c1) [] c1 (turns_enough timeout c1))
        as (c' & Hrun)
  end.
  exists c'. exact Hrun.
Qed.

Lemma _call_not_running (method : string) (params : json) (timeout : Z)
    (c : MCPClient) :
  running c = false ->
  _call method params timeout c
  = Some (Raise ServerNotRunning, with_next_id (_next_id c + 1) c).
Proof.
  unfold running, _call, _send. cbn [with_next_id _proc].
  destruct (_proc c) as [p|]; [|reflexivity].
  destruct (poll p); [reflexivity|discriminate].
Qed.


(** *** One call *)

(** C1: when the server runs and the messages the call can see are JSON
    objects, the call ends in one of three ways.  If the first response
    bearing its correlation id, among those queued or put before the
    deadline, has an error payload, the call raises the MCP error with that
    payload; if no response bears the id, it raises the time-out with the
    method, the id and the timeout; otherwise it returns the result payload
    (an empty dict when the response has none). *)
Theorem call_outcome (method : string) (params : json) (timeout : Z) (c : MCPClient) :
  let req_id := _next_id c in
  let inbox := visible (now c + timeout) c in
  running c = true ->
  Forall (fun m => is_object m = true) inbox ->
  exists outcome c',
    _call method params timeout c = Some (outcome, c')
    /\ (forall d details,
          find (bears req_id) inbox = Some (JObj d) ->
          lookup d "error" = Some details ->
          outcome = Raise (MCPError details))
    /\ (find (bears req_id) inbox = None ->
        outcome = Raise (NoResponse method req_id timeout))
    /\ (forall d,
          find (bears req_id) inbox = Some (JObj d) ->
          lookup d "error" = None ->
          outcome = Ok (get_default d "result" (JObj []))).
Proof.
  intros req_id inbox Hrun Hobj.
  destruct (_call_running method params timeout c Hrun) as (c' & Hcall).
  rewrite settle_first_decisive, (find_decisive_objects _ _ Hobj) in Hcall.
  fold req_id inbox in Hcall.
  eexists. exists c'. split; [exact Hcall|].
  repeat split.
  - intros d details -> Herr. cbn [reply]. now rewrite Herr.
  - now intros ->.
  - intros d -> Herr. cbn [reply]. now rewrite Herr.
Qed.

Lemma call_outcome_witness :
  (running example_client = true
   /\ Forall (fun m => is_object m = true) (visible (now example_client + 15000) example_client))
  /\ exists outcome c',
       _call "tools/call" (JObj []) 15000 example_client = Some (outcome, c')
       /\ outcome = Raise (MCPError (JStr "no such tool")).
Proof.
  assert (Hobj : Forall (fun m => is_object m = true)
                   (visible (now example_client + 15000) example_client))
    by (vm_compute; repeat constructor).
  split; [split; [reflexivity | exact Hobj]|].
  destruct (call_outcome "tools/call" (JObj []) 15000 example_client eq_refl Hobj)
    as (outcome & c' & Hcall & Herror & _ & _).
  exists outcome, c'. split; [exact Hcall|].
  now apply (Herror [("jsonrpc", JStr "2.0"); ("id", JInt 7);
                     ("error", JStr "no such tool")] (JStr "no such tool")).
Defined.

(** *** The reader and a call *)

Section ReaderFacts.
Variable strip : string -> string.
Variable json_loads : string -> result loads_error json.




End ReaderFacts.




(** *** Two calls *)

Lemma finite_eq_Z_unique (sign : bool) (m : positive) (e a b : Z) :
  finite_eq_Z sign m e a = true -> finite_eq_Z sign m e b = true -> a = b.
Proof.
  unfold finite_eq_Z. destruct (0 <=? e) eqn:He.
  - intros Ha Hb. apply Z.eqb_eq in Ha, Hb. destruct sign; lia.
  - apply Z.leb_gt in He. intros Ha Hb. apply Z.eqb_eq in Ha, Hb.
    assert (Hpow : 0 < 2 ^ (- e)) by (apply Z.pow_pos_nonneg; lia).
    rewrite Ha in Hb. apply Z.mul_cancel_r in Hb; [|lia].
    destruct sign; lia.
Qed.

Lemma eq_int_unique (v : json) (a b : Z) :
  eq_int v a = true -> eq_int v b = true -> a = b.
Proof.
  destruct v as [|flag|k|f| | |]; cbn [eq_int]; try discriminate.
  - intros Ha Hb. apply Z.eqb_eq in Ha, Hb. lia.
  - intros Ha Hb. apply Z.eqb_eq in Ha, Hb. lia.
  - destruct f as [z| | |sign m e]; cbn [float_eq_Z]; try discriminate.
    + intros Ha Hb. apply Z.eqb_eq in Ha, Hb. lia.
    + apply finite_eq_Z_unique.
Qed.

Lemma bears_unique (msg : json) (a b : Z) :
  bears a msg = true -> a <> b -> bears b msg = false.
Proof.
  intros Ha Hne. destruct (bears b msg) eqn:Hb; [|reflexivity].
  destruct msg; try discriminate. cbn [bears] in *.
  now pose proof (eq_int_unique _ _ _ Ha Hb).
Qed.

Lemma handle_own (req_id : Z) (pending : list json) (msg : json) :
  bears req_id msg = true ->
  handle req_id pending msg = Finished pending (reply msg).
Proof.
  destruct msg; try discriminate. cbn [bears handle reply]. now intros ->.
Qed.

Lemma handle_other (req_id : Z) (pending : list json) (msg : json) :
  is_object msg = true -> bears req_id msg = false ->
  handle req_id pending msg = StillWaiting (pending ++ [msg]).
Proof.
  destruct msg; try discriminate. cbn [bears handle]. now intros _ ->.
Qed.

Lemma handle_cases (req_id : Z) (pending : list json) (msg : json) :
  (exists outcome, handle req_id pending msg = Finished pending outcome)
  \/ handle req_id pending msg = StillWaiting (pending ++ [msg])
  \/ (exists e, handle req_id pending msg = Crashed e).
Proof.
  destruct msg; cbn [handle]; eauto.
  destruct (eq_int _ _); eauto.
Qed.

Lemma handle_untimed (req_id : Z) (pending : list json) (msg : json) :
  match handle req_id pending msg with
  | Finished _ outcome => is_timeout outcome = false
  | StillWaiting _ => True
  | Crashed e => is_timeout (Raise e) = false
  end.
Proof.
  destruct msg; cbn [handle is_timeout]; try reflexivity.
  destruct (eq_int _ _); [|exact I]. now destruct (lookup _ _).
Qed.

Lemma is_timeout_reply (msg : json) : is_timeout (reply msg) = false.
Proof.
  destruct msg; try reflexivity. cbn [reply]. now destruct (lookup _ _).
Qed.

Lemma count_for_app (req_id : Z) (l1 l2 : list json) :
  count_for req_id (l1 ++ l2) = (count_for req_id l1 + count_for req_id l2)%nat.
Proof. unfold count_for. now rewrite filter_app, length_app. Qed.

Lemma count_for_cons (req_id : Z) (msg : json) (l : list json) :
  count_for req_id (msg :: l)
  = ((if bears req_id msg then 1 else 0) + count_for req_id l)%nat.
Proof. unfold count_for. cbn [filter]. now destruct (bears req_id msg). Qed.

Lemma count_for_nil (req_id : Z) : count_for req_id [] = 0%nat.
Proof. reflexivity. Qed.

Lemma status_of_update (w w' : who) (q : list json) (st : status) (s : shared) :
  status_of w' (update w q st s)
  = match w, w' with
    | First, First | Second, Second => st
    | _, _ => status_of w' s
    end.
Proof. now destruct w, w'. Qed.

Lemma step_untimed (m : move) (s s' : shared) :
  is_expiry m = false -> untimed s -> step m s = Some s' -> untimed s'.
Proof.
  unfold untimed. intros Hm Hs.
  destruct m as [|w|w|w]; try discriminate; cbn [step].
  - destruct (to_arrive s); [discriminate|]. intros [= <-] w. exact (Hs w).
  - destruct (status_of w s) as [pending|] eqn:Hst; [|discriminate].
    destruct (queue s) as [|msg rest]; [discriminate|].
    pose proof (handle_untimed (id_of (call_of w s)) pending msg) as Hhandle.
    intros [= <-] w' back outcome. rewrite status_of_update.
    destruct (handle (id_of (call_of w s)) pending msg);
      destruct w, w'; try apply Hs; try discriminate; now intros [= <- <-].
  - destruct (status_of w s) as [|[|msg back] outcome] eqn:Hst; try discriminate.
    intros [= <-] w' back' outcome'. rewrite status_of_update.
    destruct w, w'; try apply Hs; intros [= <- <-]; now apply (Hs _ _ _ Hst).
Qed.

Lemma run_untimed (moves : list move) :
  forall s s',
    forallb (fun m => negb (is_expiry m)) moves = true ->
    untimed s -> run moves s = Some s' -> untimed s'.
Proof.
  induction moves as [|m rest IH]; intros s s' Hmoves Hs; cbn [run].
  - now intros [= <-].
  - cbn [forallb] in Hmoves. apply andb_true_iff in Hmoves as [Hm Hrest].
    apply negb_true_iff in Hm.
    destruct (step m s) as [s1|] eqn:Hstep; [|discriminate].
    apply (IH s1 s' Hrest). exact (step_untimed m s s1 Hm Hs Hstep).
Qed.

Ltac weigh :=
  cbn [update to_arrive queue first second waiting effort_held
       Nat.add Nat.mul Nat.sub List.length];
  rewrite ?length_app; cbn [List.length]; lia.

Lemma step_effort (m : move) (s s' : shared) :
  is_expiry m = false -> step m s = Some s' -> (effort s' < effort s)%nat.
Proof.
  intros Hm. destruct m as [|w|w|w]; try discriminate; cbn [step].
  - destruct (to_arrive s) as [|msg rest] eqn:Harr; [discriminate|].
    intros [= <-]. unfold effort. rewrite Harr.
    destruct (first s), (second s); weigh.
  - destruct (status_of w s) as [pending|] eqn:Hst; [|discriminate].
    destruct (queue s) as [|msg rest] eqn:Hqueue; [discriminate|].
    intros [= <-]. unfold effort. rewrite Hqueue.
    destruct (handle_cases (id_of (call_of w s)) pending msg)
      as [[outcome ->] | [-> | [e ->]]];
      destruct w; cbn [status_of] in Hst; rewrite Hst;
      cbn [update first second];
      match goal with
      | |- context [second s] => destruct (second s)
      | |- context [first s] => destruct (first s)
      end; weigh.
  - destruct (status_of w s) as [|[|msg back] outcome] eqn:Hst; try discriminate.
    intros [= <-]. unfold effort.
    destruct w; cbn [status_of] in Hst; rewrite Hst;
      cbn [update first second];
      match goal with
      | |- context [second s] => destruct (second s)
      | |- context [first s] => destruct (first s)
      end; weigh.
Qed.

Lemma run_effort (moves : list move) :
  forall s s',
    forallb (fun m => negb (is_expiry m)) moves = true ->
    run moves s = Some s' ->
    (List.length moves + effort s' <= effort s)%nat.
Proof.
  induction moves as [|m rest IH]; intros s s' Hmoves; cbn [run List.length].
  - intros [= <-]. lia.
  - cbn [forallb] in Hmoves. apply andb_true_iff in Hmoves as [Hm Hrest].
    apply negb_true_iff in Hm.
    destruct (step m s) as [s1|] eqn:Hstep; [|discriminate].
    intros Hrun. pose proof (IH s1 s' Hrest Hrun).
    pose proof (step_effort m s s1 Hm Hstep). lia.
Qed.

Section TwoCalls.
Variables a b : caller.
Variables ra rb : json.
Hypothesis distinct_ids : id_of a <> id_of b.
Hypothesis ra_bears_a : bears (id_of a) ra = true.
Hypothesis rb_bears_b : bears (id_of b) rb = true.

Lemma ra_not_b : bears (id_of b) ra = false.
Proof. now apply (bears_unique ra (id_of a)). Qed.

Lemma rb_not_a : bears (id_of a) rb = false.
Proof. apply (bears_unique rb (id_of b)); [assumption | auto]. Qed.

Lemma ra_object : is_object ra = true.
Proof. destruct ra; try discriminate ra_bears_a. reflexivity. Qed.

Lemma rb_object : is_object rb = true.
Proof. destruct rb; try discriminate rb_bears_b. reflexivity. Qed.

Lemma count_only_other (other : json) (req_id : Z) (l : list json) :
  bears req_id other = false -> Forall (eq other) l -> count_for req_id l = 0%nat.
Proof.
  intros Hother. induction 1 as [|m rest <- _ IH]; [reflexivity|].
  rewrite count_for_cons, Hother. exact IH.
Qed.

Lemma count_only_own (own : json) (req_id : Z) (l : list json) :
  bears req_id own = true -> Forall (eq own) l
  -> count_for req_id l = List.length l.
Proof.
  intros Hown. induction 1 as [|m rest <- _ IH]; [reflexivity|].
  rewrite count_for_cons, Hown. cbn [List.length]. now rewrite IH.
Qed.

Ltac counts :=
  cbn [app] in *;
  repeat rewrite ?count_for_app, ?count_for_cons, ?count_for_nil in *;
  rewrite ?ra_bears_a, ?rb_bears_b, ?ra_not_b, ?rb_not_a in *;
  cbn [taken is_timeout time_out] in *;
  rewrite ?is_timeout_reply in *;
  lia.

Ltac messages :=
  repeat match goal with
         | H : Forall _ (_ ++ _) |- _ => apply Forall_app in H as [? ?]
         | H : Forall _ (_ :: _) |- _ => apply Forall_cons_iff in H as [? ?]
         end;
  repeat (apply Forall_app; split);
  repeat (apply Forall_cons; [solve [auto]|]);
  auto.

Ltac keeping :=
  cbn [keeps] in *;
  repeat match goal with
         | H : _ /\ _ |- _ => destruct H
         end;
  repeat split; try (apply Forall_app; split); auto.

Ltac settled :=
  cbn [update to_arrive queue first second first_call second_call held];
  try (assumption || reflexivity);
  first [ solve [messages] | solve [keeping] | solve [cbn [held] in *; counts] ].

Lemma step_invariant (m : move) (s s' : shared) :
  invariant a b ra rb s -> step m s = Some s' -> invariant a b ra rb s'.
Proof.
  intros [Hfirst Hsecond Hmsgs Hkeep1 Hkeep2 Hcount_a Hcount_b].
  destruct m as [|w|w|w]; cbn [step].
  - destruct (to_arrive s) as [|msg rest] eqn:Harr; [discriminate|].
    intros [= <-]. constructor; settled.
  - destruct w; cbn [status_of call_of].
    + destruct (first s) as [pending|] eqn:Hst; [|discriminate].
      destruct (queue s) as [|msg rest] eqn:Hqueue; [discriminate|].
      intros [= <-]. rewrite Hfirst.
      assert (Hmsg : msg = ra \/ msg = rb).
      { apply Forall_app in Hmsgs as [_ Hq]. now inversion Hq. }
      destruct Hmsg as [-> | ->].
      * rewrite (handle_own _ _ _ ra_bears_a). constructor; settled.
      * rewrite (handle_other _ _ _ rb_object rb_not_a). constructor; settled.
    + destruct (second s) as [pending|] eqn:Hst; [|discriminate].
      destruct (queue s) as [|msg rest] eqn:Hqueue; [discriminate|].
      intros [= <-]. rewrite Hsecond.
      assert (Hmsg : msg = ra \/ msg = rb).
      { apply Forall_app in Hmsgs as [_ Hq]. now inversion Hq. }
      destruct Hmsg as [-> | ->].
      * rewrite (handle_other _ _ _ ra_object ra_not_b). constructor; settled.
      * rewrite (handle_own _ _ _ rb_bears_b). constructor; settled.
  - destruct w; cbn [status_of call_of].
    + destruct (first s) as [pending|] eqn:Hst; [|discriminate].
      intros [= <-]. rewrite Hfirst. constructor; settled.
    + destruct (second s) as [pending|] eqn:Hst; [|discriminate].
      intros [= <-]. rewrite Hsecond. constructor; settled.
  - destruct w; cbn [status_of].
    + destruct (first s) as [|[|msg back] outcome] eqn:Hst; try discriminate.
      intros [= <-]. cbn [keeps] in Hkeep1. destruct Hkeep1 as [Hback Hout].
      apply Forall_cons_iff in Hback as [<- Hback']. constructor; settled.
    + destruct (second s) as [|[|msg back] outcome] eqn:Hst; try discriminate.
      intros [= <-]. cbn [keeps] in Hkeep2. destruct Hkeep2 as [Hback Hout].
      apply Forall_cons_iff in Hback as [<- Hback']. constructor; settled.
Qed.

Lemma run_invariant (moves : list move) :
  forall s s',
    invariant a b ra rb s -> run moves s = Some s' -> invariant a b ra rb s'.
Proof.
  induction moves as [|m rest IH]; intros s s' Hinv; cbn [run].
  - now intros [= <-].
  - destruct (step m s) as [s1|] eqn:Hstep; [|discriminate].
    apply IH. exact (step_invariant m s s1 Hinv Hstep).
Qed.

Lemma start_invariant (responses : list json) :
  responses = [ra; rb] \/ responses = [rb; ra] ->
  invariant a b ra rb (start a b responses).
Proof.
  intros [-> | ->]; constructor; cbn [start to_arrive queue first second
    first_call second_call keeps held];
    first [ reflexivity | solve [repeat constructor; auto] | counts ].
Qed.

Lemma only_one (own : json) (req_id : Z) (l : list json) :
  bears req_id own = true -> Forall (eq own) l -> count_for req_id l = 1%nat ->
  l = [own].
Proof.
  intros Hown Hall Hcount. rewrite (count_only_own own req_id l Hown Hall) in Hcount.
  destruct l as [|m [|m' rest]]; try discriminate.
  inversion Hall as [|? ? <- _]. reflexivity.
Qed.

(** C2: two calls with distinct ids wait on one queue while their
    two responses arrive in either order.  Whatever the interleaving, a call
    that ends otherwise than by its time-out ends with what the response
    bearing its own id gives.  As long as no deadline passes, at most ten
    things can happen, and once nothing more can happen either both calls
    are over, each with its own response, or each call has set the other's
    response aside and both keep waiting. *)
Theorem two_calls_own_response_or_held (responses : list json)
    (moves : list move) (s : shared) :
  responses = [ra; rb] \/ responses = [rb; ra] ->
  run moves (start a b responses) = Some s ->
  (forall back outcome,
     first s = Leaving back outcome -> is_timeout outcome = false ->
     outcome = reply ra)
  /\ (forall back outcome,
        second s = Leaving back outcome -> is_timeout outcome = false ->
        outcome = reply rb)
  /\ (forallb (fun m => negb (is_expiry m)) moves = true ->
      (List.length moves <= 10)%nat
      /\ (quiescent s ->
          (ended First s (reply ra) /\ ended Second s (reply rb))
          \/ (first s = Waiting [rb] /\ second s = Waiting [ra] /\ queue s = []))).
Proof.
  intros Horder Hrun.
  pose proof (run_invariant moves _ _ (start_invariant responses Horder) Hrun)
    as [Hfirst Hsecond Hmsgs Hkeep1 Hkeep2 Hcount_a Hcount_b].
  assert (Hown : forall own c outcome,
             outcome = reply own \/ outcome = time_out c ->
             is_timeout outcome = false -> outcome = reply own).
  { intros own c outcome [Hout | Hout] Hno; [exact Hout|].
    rewrite Hout in Hno. discriminate. }
  split; [|split].
  - intros back outcome Hst. rewrite Hst in Hkeep1.
    exact (Hown ra a outcome (proj2 Hkeep1)).
  - intros back outcome Hst. rewrite Hst in Hkeep2.
    exact (Hown rb b outcome (proj2 Hkeep2)).
  - intros Hmoves. split.
    { pose proof (run_effort moves _ _ Hmoves Hrun) as Hbound.
      destruct Horder as [-> | ->]; cbn in Hbound; lia. }
    intros Hquiet.
    assert (Huntimed : untimed s).
    { apply (run_untimed moves (start a b responses) s Hmoves); [|exact Hrun].
      intros [] back outcome; discriminate. }
    assert (Harrived : to_arrive s = []).
    { pose proof (Hquiet ReaderPuts eq_refl) as Hput. cbn [step] in Hput.
      now destruct (to_arrive s). }
    assert (Hstuck : forall w,
               match status_of w s with
               | Waiting _ => queue s = []
               | Leaving back _ => back = []
               end).
    { intros w. pose proof (Hquiet (Gets w) eq_refl) as Hget.
      pose proof (Hquiet (PutsBack w) eq_refl) as Hback. cbn [step] in Hget, Hback.
      destruct (status_of w s) as [pending|[|msg back] outcome]; try discriminate;
        [now destruct (queue s) | reflexivity]. }
    pose proof (Hstuck First) as Hstuck1. pose proof (Hstuck Second) as Hstuck2.
    pose proof (Huntimed First) as Hno1. pose proof (Huntimed Second) as Hno2.
    cbn [status_of] in Hstuck1, Hstuck2, Hno1, Hno2.
    rewrite Harrived in Hcount_a, Hcount_b. cbn [app] in Hcount_a, Hcount_b.
    unfold ended. cbn [status_of].
    destruct (first s) as [held1|back1 out1] eqn:Hst1;
      destruct (second s) as [held2|back2 out2] eqn:Hst2;
      cbn [keeps held taken] in *.
    + right. rewrite Hstuck1 in Hcount_a, Hcount_b. cbn [app] in Hcount_a, Hcount_b.
      rewrite Nat.add_0_r in Hcount_a, Hcount_b.
      rewrite (only_one ra (id_of a) held2 ra_bears_a Hkeep2 Hcount_a).
      rewrite (only_one rb (id_of b) held1 rb_bears_b Hkeep1 Hcount_b).
      auto.
    + exfalso. subst back2. rewrite Hstuck1 in Hcount_a. cbn in Hcount_a. lia.
    + exfalso. subst back1. rewrite Hstuck2 in Hcount_b. cbn in Hcount_b. lia.
    + left. subst back1 back2.
      rewrite (Hown ra a out1 (proj2 Hkeep1) (Hno1 [] out1 eq_refl)).
      rewrite (Hown rb b out2 (proj2 Hkeep2) (Hno2 [] out2 eq_refl)).
      auto.
Qed.

End TwoCalls.

Lemma two_calls_own_response_or_held_witness :
  (id_of call_one <> id_of call_two
   /\ bears (id_of call_one) response_one = true
   /\ bears (id_of call_two) response_two = true)
  /\ exists s,
       run [ReaderPuts; ReaderPuts; Gets First; Gets First; PutsBack First; Gets Second]
         (start call_one call_two [response_two; response_one]) = Some s
       /\ ended First s (reply response_one)
       /\ ended Second s (reply response_two).
Proof.
  assert (Hids : id_of call_one <> id_of call_two) by discriminate.
  split; [now repeat split|].
  eexists. split; [reflexivity|].
  destruct (two_calls_own_response_or_held call_one call_two
              response_one response_two Hids eq_refl eq_refl
              [response_two; response_one]
              [ReaderPuts; ReaderPuts; Gets First; Gets First; PutsBack First;
               Gets Second]
              _ (or_intror eq_refl) eq_refl) as (_ & _ & Hquiet).
  destruct (Hquiet eq_refl) as [_ Hend].
  destruct Hend as [Hboth | (Hheld & _)].
  - intros m Hm. destruct m as [|[]|[]|[]]; try discriminate; reflexivity.
  - exact Hboth.
  - discriminate Hheld.
Defined.

(** C2: a call does not always get its response.  When the responses
    arrive in the reverse order and the first call sets the second's
    response aside before the second call takes the first's, each call
    holds the other's response and neither ends before a time-out. *)
Lemma calls_hold_each_others_response :
  ~ each_call_gets_its_response call_one call_two response_one response_two.
Proof.
  intros Hclaim.
  destruct (Hclaim [response_two; response_one] crossed
              {| to_arrive := []; queue := [];
                 first_call := call_one; first := Waiting [response_two];
                 second_call := call_two; second := Waiting [response_one] |})
    as [Hended _].
  - now right.
  - reflexivity.
  - reflexivity.
  - intros m Hm. destruct m as [|[]|[]|[]]; try discriminate; reflexivity.
  - discriminate Hended.
Qed.

(** After that, the first call times out while its response sits with the
    second call. *)
Example crossed_then_expired :
  option_map (fun s => (first s, second s, queue s))
    (run (crossed ++ [Expires First; PutsBack First; Gets Second; PutsBack Second])
       (start call_one call_two [response_two; response_one]))
  = Some (Leaving [] (Raise (NoResponse "tools/call" 1 30000)),
          Leaving [] (Ok (JStr "tools")),
          [response_one]).
Proof. reflexivity. Qed.

End McpClient.

(** ** Facts about the Python values *)

Module PyFacts.

Import Py.

Open Scope string_scope.

Lemma prefix_app (needle post : string) : String.prefix needle (needle ++ post) = true.
Proof.
  induction needle as [|ch rest IH]; cbn [String.prefix String.append].
  - now destruct post.
  - destruct (ascii_dec ch ch) as [_|Hne]; [exact IH | now destruct Hne].
Qed.

Lemma prefix_split (needle hay : string) :
  String.prefix needle hay = true -> exists post, hay = needle ++ post.
Proof.
  revert hay. induction needle as [|ch rest IH]; intros hay Hpre.
  - now exists hay.
  - destruct hay as [|ch' hay']; cbn [String.prefix] in Hpre; [discriminate|].
    destruct (ascii_dec ch ch') as [<-|]; [|discriminate].
    destruct (IH hay' Hpre) as (post & ->). now exists post.
Qed.

(** [needle in hay] holds exactly when [hay] is [needle] between two strs. *)
Lemma contains_split (hay needle : string) :
  contains hay needle = true <-> exists pre post, hay = pre ++ needle ++ post.
Proof.
  split.
  - induction hay as [|ch rest IH]; cbn [contains]; intros Hin;
      apply orb_true_iff in Hin as [Hpre|Hin]; try discriminate.
    + destruct (prefix_split _ _ Hpre) as (post & ->). now exists "", post.
    + destruct (prefix_split _ _ Hpre) as (post & ->). now exists "", post.
    + destruct (IH Hin) as (pre & post & ->). now exists (String ch pre), post.
  - intros (pre & post & ->). induction pre as [|ch pre IH].
    + cbn [String.append]. destruct (needle ++ post) eqn:E; cbn [contains];
        rewrite <- E, prefix_app; reflexivity.
    + cbn [String.append contains]. rewrite IH. apply orb_true_r.
Qed.

Lemma append_assoc (a b c : string) : (a ++ b) ++ c = a ++ b ++ c.
Proof. induction a as [|ch a IH]; cbn [String.append]; [reflexivity | now rewrite IH]. Qed.

Lemma contains_itself (s : string) : contains s s = true.
Proof.
  apply contains_split. exists "", "". cbn [String.append].
  induction s as [|ch s IH]; cbn [String.append]; [reflexivity | now rewrite <- IH].
Qed.

Lemma contains_prefix (s post : string) : contains (s ++ post) s = true.
Proof. apply contains_split. now exists "", post. Qed.

(** [a in b] and [b in c] give [a in c]. *)
Lemma contains_trans (a b c : string) :
  contains c b = true -> contains b a = true -> contains c a = true.
Proof.
  intros Hcb Hba.
  apply contains_split in Hcb as (pre & post & ->).
  apply contains_split in Hba as (pre' & post' & ->).
  apply contains_split. exists (pre ++ pre'), (post' ++ post).
  now rewrite !append_assoc.
Qed.

(** What a str contains, a longer str around it contains. *)
Lemma contains_around (pre s post needle : string) :
  contains s needle = true -> contains (pre ++ s ++ post) needle = true.
Proof.
  intros Hin. apply contains_trans with (b := s); [|exact Hin].
  apply contains_split. now exists pre, post.
Qed.

Lemma lower_ascii_twice (ch : ascii) : lower_ascii (lower_ascii ch) = lower_ascii ch.
Proof. destruct ch as [[] [] [] [] [] [] [] []]; reflexivity. Qed.

Lemma lower_twice (s : string) : lower (lower s) = lower s.
Proof.
  induction s as [|ch s IH]; cbn [lower]; [reflexivity|].
  now rewrite lower_ascii_twice, IH.
Qed.

End PyFacts.

(** ** The rest of the protocol client

    [_mcp_env], [connect], [list_tools], [call_tool] and [get_client] of
    [ios-bot/mcp_client.py], on top of [_call], and what a call does to the
    client besides returning: the correlation ids, the requests written and
    the messages left on the queue. *)

Module Client.

Import Py McpClient.

Open Scope string_scope.
Open Scope list_scope.
Open Scope Z_scope.
Open Scope result_scope.

(** *** [_mcp_env] *)

(** [d[key] = v]: the value of a key already present is replaced where it
    stands, a new key goes to the end. *)
Fixpoint set_item {V : Type} (d : pydict V) (key : string) (v : V) : pydict V :=
  match d with
  | [] => [(key, v)]
  | (k, x) :: rest =>
      if String.eqb k key then (k, v) :: rest else (k, x) :: set_item rest key v
  end.

Section Environment.

(** The module constants [IDB_CLIENT_BIN_DIR] and [IDB_COMPANION_PATH],
    computed from the home directory when the module is loaded, and
    [Path(IDB_COMPANION_PATH).parent] as a str. *)
Variables IDB_CLIENT_BIN_DIR IDB_COMPANION_PATH companion_dir : string.

Definition extra : string := (IDB_CLIENT_BIN_DIR ++ ":" ++ companion_dir)%string.

(** [environ] is [os.environ.copy()]. *)
Definition _mcp_env (environ : pydict string) : pydict string :=
  let env := environ in
  let existing_path := get_default env "PATH" "" in
  let env :=
    if negb (contains existing_path extra)
    then set_item env "PATH" (extra ++ ":" ++ existing_path)%string
    else env in
  set_item env "IDB_COMPANION_PATH" IDB_COMPANION_PATH.

End Environment.

(** *** What a call leaves behind *)

(** The requests written to the server's stdin so far. *)
Definition sent (c : MCPClient) : list json :=
  match _proc c with
  | Some p => stdin p
  | None => []
  end.

(** The messages that are on the queue or still to be put on it, in the
    order in which a single reader of the queue would get them. *)
Definition all_messages (c : MCPClient) : list json :=
  _response_queue c ++ map snd (arrivals c).

(** *** [list_tools] and [call_tool] *)

(** What the two methods raise: what [_call] raises, or the exception of a
    builtin applied to the result. *)
Inductive tool_error : Type :=
| CallError (e : call_error)
| BuiltinError (e : Py.error).

Definition of_builtin {A : Type} (r : result Py.error A) : result tool_error A :=
  match r with
  | Ok a => Ok a
  | Raise e => Raise (BuiltinError e)
  end.

(** The receiver of [.get]: only a dict has the method. *)
Definition dict_of (v : json) : result Py.error (pydict json) :=
  match v with
  | JObj d => Ok d
  | _ => Raise AttributeError
  end.

Definition fifteen_seconds : Z := 15000.

(** [result.get("tools", [])] *)
Definition list_tools (c : MCPClient)
  : option (result tool_error json * MCPClient) :=
  match _call "tools/list" (JObj []) fifteen_seconds c with
  | Some (Ok res, c') =>
      Some (of_builtin (d <- dict_of res ;; Ok (get_default d "tools" (JArr []))),
            c')
  | Some (Raise e, c') => Some (Raise (CallError e), c')
  | None => None
  end.

(** [for item in content]: the items of a list, the characters of a str,
    the keys of a dict; nothing else can be iterated. *)
Definition iterate (v : json) : result Py.error (list json) :=
  match v with
  | JArr items => Ok items
  | JStr s => Ok (map (fun ch => JStr (String ch "")) (list_ascii_of_string s))
  | JObj d => Ok (map (fun kv => JStr (fst kv)) d)
  | JNull | JBool _ | JInt _ | JFloat _ => Raise TypeError
  end.

(** [len(v)] *)
Definition len (v : json) : result Py.error Z :=
  match v with
  | JStr s => Ok (Z.of_nat (String.length s))
  | JArr items => Ok (Z.of_nat (List.length items))
  | JObj d => Ok (Z.of_nat (List.length d))
  | JNull | JBool _ | JInt _ | JFloat _ => Raise TypeError
  end.

Definition newline : string := String (ascii_of_nat 10) "".

Section Content.

Context `{py : Xcuitest.Builtins}.

(** The summary of an image item:
    [f"[image: {item.get('mimeType','?')} {len(item.get('data',''))} bytes base64]"] *)
Definition image_summary (d : pydict json) : result Py.error string :=
  let mime := Xcuitest.py_str (get_default d "mimeType" (JStr "?")) in
  n <- len (get_default d "data" (JStr "")) ;;
  Ok ("[image: " ++ mime ++ " " ++ str_of_Z n ++ " bytes base64]")%string.

(** One turn of [for item in content]. *)
Definition add_part (item : json) (parts : list json) : result Py.error (list json) :=
  d <- dict_of item ;;
  if eq_str (get d "type") "text" then
    match lookup d "text" with
    | Some text => Ok (parts ++ [text])
    | None => Raise KeyError
    end
  else if eq_str (get d "type") "image" then
    summary <- image_summary d ;;
    Ok (parts ++ [JStr summary])
  else Ok parts.

Fixpoint add_parts (content : list json) (parts : list json)
  : result Py.error (list json) :=
  match content with
  | [] => Ok parts
  | item :: rest => parts' <- add_part item parts ;; add_parts rest parts'
  end.

(** [sep.join(parts)]: every part must be a str. *)
Fixpoint strs (parts : list json) : result Py.error (list string) :=
  match parts with
  | [] => Ok []
  | JStr s :: rest => more <- strs rest ;; Ok (s :: more)
  | _ :: _ => Raise TypeError
  end.

Definition join (sep : string) (parts : list json) : result Py.error string :=
  texts <- strs parts ;; Ok (String.concat sep texts).

(** The statements of [call_tool] after [_call] has returned [res], the
    [result] of the source. *)
Definition text_of (res : json) : result Py.error string :=
  d <- dict_of res ;;
  content <- iterate (get_default d "content" (JArr [])) ;;
  parts <- add_parts content [] ;;
  join newline parts.

Definition call_tool (name : string) (args : json) (timeout : Z) (c : MCPClient)
  : option (result tool_error string * MCPClient) :=
  match _call "tools/call" (JObj [("name", JStr name); ("arguments", args)])
          timeout c with
  | Some (Ok res, c') => Some (of_builtin (text_of res), c')
  | Some (Raise e, c') => Some (Raise (CallError e), c')
  | None => None
  end.

(** What an item of a well-formed content list contributes: a text item
    its text, an image item its summary, an item of another type nothing. *)
Inductive shows : json -> list string -> Prop :=
| ShowsText (d : pydict json) (text : string) :
    eq_str (get d "type") "text" = true ->
    lookup d "text" = Some (JStr text) ->
    shows (JObj d) [text]
| ShowsImage (d : pydict json) (summary : string) :
    eq_str (get d "type") "image" = true ->
    image_summary d = Ok summary ->
    shows (JObj d) [summary]
| ShowsNothing (d : pydict json) :
    eq_str (get d "type") "text" = false ->
    eq_str (get d "type") "image" = false ->
    shows (JObj d) [].

End Content.

(** *** [connect] and [get_client] *)

(** [MCPClient()] at time [t]: no process, an empty queue, first id 1. *)
Definition MCPClient_init (t : Z) : MCPClient :=
  {| _proc := None; _response_queue := []; _next_id := 1; now := t; arrivals := [] |}.

(** What [subprocess.Popen] gives [connect]: the new process and, with the
    times of their arrival, the lines of JSON it will write. *)
Record spawned : Type := {
  process : Popen;
  output : list (Z * json)
}.

Inductive connect_error : Type :=
| SpawnError (e : Xcuitest.exn)
| InitializeError (e : call_error).

Definition initialize_params : json :=
  JObj [ ("protocolVersion", JStr "2024-11-05");
         ("capabilities", JObj []);
         ("clientInfo", JObj [("name", JStr "ios-bot"); ("version", JStr "1.0")]) ].

(** [connect]: the reader thread is started on the output of the new process,
    then the session is initialized with a call of 15 seconds. *)
Definition connect (spawn : result Xcuitest.exn spawned) (c : MCPClient)
  : option (result connect_error json * MCPClient) :=
  match spawn with
  | Raise e => Some (Raise (SpawnError e), c)
  | Ok s =>
      let c := {| _proc := Some (process s);
                  _response_queue := _response_queue c;
                  _next_id := _next_id c;
                  now := now c;
                  arrivals := output s |} in
      match _call "initialize" initialize_params fifteen_seconds c with
      | Some (Ok res, c') => Some (Ok res, c')
      | Some (Raise e, c') => Some (Raise (InitializeError e), c')
      | None => None
      end
  end.

(** [get_client()]: the module variable [_client] holds the one client.  It
    is assigned before [connect] is called, so it stays set when [connect]
    raises. *)
Definition get_client (spawn : result Xcuitest.exn spawned) (t : Z)
    (_client : option MCPClient)
  : option (result connect_error MCPClient * option MCPClient) :=
  match _client with
  | None =>
      match connect spawn (MCPClient_init t) with
      | Some (Ok _, c) => Some (Ok c, Some c)
      | Some (Raise e, c) => Some (Raise e, Some c)
      | None => None
      end
  | Some c => Some (Ok c, Some c)
  end.

(** [client = get_client()] followed by a call of a method of the client.
    The client is one object: what the method does to it is seen by the
    next [get_client()]. *)
Inductive use_error : Type :=
| ConnectError (e : connect_error)
| ToolError (e : tool_error).

Definition on_client {A : Type} (spawn : result Xcuitest.exn spawned) (t : Z)
    (method : MCPClient -> option (result tool_error A * MCPClient))
    (_client : option MCPClient)
  : option (result use_error A * option MCPClient) :=
  match get_client spawn t _client with
  | Some (Ok c, _) =>
      match method c with
      | Some (Ok a, c') => Some (Ok a, Some c')
      | Some (Raise e, c') => Some (Raise (ToolError e), Some c')
      | None => None
      end
  | Some (Raise e, g) => Some (Raise (ConnectError e), g)
  | None => None
  end.

(** *** The reader, line by line *)

Section Lines.

Variable strip : string -> string.
Variable json_loads : string -> result loads_error json.

(** What a line adds to the queue: the value it decodes to, if any. *)
Definition decoded (line : string) : list json :=
  if String.eqb (strip line) "" then []
  else match json_loads (strip line) with
       | Ok msg => [msg]
       | Raise _ => []
       end.

(** The reader thread survives the line: [json.loads] returns or raises
    [JSONDecodeError]. *)
Definition survivable (line : string) : Prop :=
  strip line = "" \/ json_loads (strip line) <> Raise OtherLoadsError.

End Lines.

(** *** A client and a content list *)

Definition text_item (text : string) : json :=
  JObj [("type", JStr "text"); ("text", JStr text)].

Definition image_item : json :=
  JObj [("type", JStr "image"); ("mimeType", JStr "image/png"); ("data", JStr "iVBORw0KGgo=")].

Definition resource_item : json :=
  JObj [("type", JStr "resource")].

Definition tapped_response : json :=
  JObj [ ("jsonrpc", JStr "2.0"); ("id", JInt 7);
         ("result",
           JObj [("content", JArr [text_item "Tapped"; resource_item; text_item "ok"])]) ].

Definition busy_client : MCPClient :=
  {| _proc := Some {| poll := None; stdin := [] |};
     _response_queue := [reply_to 9 "late"; tapped_response; reply_to 8 "later"];
     _next_id := 7;
     now := 0;
     arrivals := [(500, reply_to 10 "last")] |}.

(** The queue as [get] finds it: with what the reader has put by now. *)
Definition queue_now (c : MCPClient) : list json :=
  _response_queue c ++ arrived (now c) (arrivals c).

(** The one client exists and its server does not run. *)
Definition stuck (_client : option MCPClient) : Prop :=
  exists c, _client = Some c /\ running c = false.

(** *** [disconnect] *)

Definition with_proc (p : Popen) (c : MCPClient) : MCPClient :=
  {| _proc := Some p;
     _response_queue := _response_queue c;
     _next_id := _next_id c;
     now := now c;
     arrivals := arrivals c |}.

(** [disconnect]: when the server runs, its stdin is closed (what that
    raises is passed over), it is terminated and waited for.  [wait] is what
    [self._proc.wait(timeout=5)] does then: it returns the exit code, which
    [poll()] gives from then on, or raises [TimeoutExpired]. *)
Definition disconnect (wait : result Xcuitest.exn Z) (c : MCPClient)
  : result Xcuitest.exn unit * MCPClient :=
  match _proc c with
  | Some p =>
      match poll p with
      | None =>
          match wait with
          | Ok code => (Ok tt, with_proc {| poll := Some code; stdin := stdin p |} c)
          | Raise e => (Raise e, c)
          end
      | Some _ => (Ok tt, c)
      end
  | None => (Ok tt, c)
  end.

(** How a call can end, and what it then leaves of the messages [before]
    it, the ones it had set aside included: all of them when it times out,
    all but its response when it ends with it, and no telling when it meets
    a message that is not an object. *)
Inductive leaves (method : string) (req_id timeout : Z) (before : list json)
  : result call_error json -> list json -> Prop :=
| LeavesAll (after : list json) :
    Permutation after before ->
    leaves method req_id timeout before
      (Raise (NoResponse method req_id timeout)) after
| LeavesOthers (response : json) (after : list json) :
    bears req_id response = true ->
    Permutation (response :: after) before ->
    leaves method req_id timeout before (reply response) after
| LeavesSome (v : json) (after : list json) :
    is_object v = false ->
    leaves method req_id timeout before (Raise (NoGetAttribute v)) after.

(** *** Facts about [_mcp_env] *)

Lemma lookup_set_item_same {V : Type} (d : pydict V) (key : string) (v : V) :
  lookup (set_item d key v) key = Some v.
Proof.
  induction d as [|[k x] rest IH]; cbn [set_item lookup].
  - now rewrite String.eqb_refl.
  - destruct (String.eqb k key) eqn:Hk; cbn [lookup]; rewrite Hk; [reflexivity | exact IH].
Qed.

Lemma lookup_set_item_other {V : Type} (d : pydict V) (key other : string) (v : V) :
  other <> key -> lookup (set_item d key v) other = lookup d other.
Proof.
  intros Hne. induction d as [|[k x] rest IH]; cbn [set_item lookup].
  - destruct (String.eqb key other) eqn:Hk; [|reflexivity].
    apply String.eqb_eq in Hk. now destruct Hne.
  - destruct (String.eqb k key) eqn:Hk; cbn [lookup].
    + apply String.eqb_eq in Hk. subst k.
      destruct (String.eqb key other) eqn:Hko; [|reflexivity].
      apply String.eqb_eq in Hko. now destruct Hne.
    + destruct (String.eqb k other); [reflexivity | exact IH].
Qed.

Lemma set_item_twice {V : Type} (d : pydict V) (key : string) (v : V) :
  set_item (set_item d key v) key v = set_item d key v.
Proof.
  induction d as [|[k x] rest IH]; cbn [set_item].
  - now rewrite String.eqb_refl.
  - destruct (String.eqb k key) eqn:Hk; cbn [set_item]; rewrite Hk;
      [reflexivity | now rewrite IH].
Qed.

Section EnvironmentFacts.

Variables IDB_CLIENT_BIN_DIR IDB_COMPANION_PATH companion_dir : string.


Lemma _mcp_env_PATH (environ : pydict string) :
  contains (get_default (_mcp_env IDB_CLIENT_BIN_DIR IDB_COMPANION_PATH companion_dir environ) "PATH" "") (extra IDB_CLIENT_BIN_DIR companion_dir) = true.
Proof.
  unfold _mcp_env.
  set (existing_path := get_default environ "PATH" "").
  destruct (contains existing_path (extra IDB_CLIENT_BIN_DIR companion_dir)) eqn:Hin; cbn [negb];
    unfold get_default; rewrite lookup_set_item_other by discriminate.
  - exact Hin.
  - rewrite lookup_set_item_same. apply PyFacts.contains_prefix.
Qed.

(** X1: the PATH of the server's environment holds the text made of the two
    idb directories joined by a colon: it is the caller's PATH as it is when
    that holds this text already, anywhere in it, and otherwise this text, a
    colon and the caller's PATH.  IDB_COMPANION_PATH is the companion's
    path, and every other variable is as in the caller's environment. *)
Theorem _mcp_env_adds_idb (environ : pydict string) :
  get_default (_mcp_env IDB_CLIENT_BIN_DIR IDB_COMPANION_PATH companion_dir environ)
    "PATH" ""
  = (if contains (get_default environ "PATH" "") (extra IDB_CLIENT_BIN_DIR companion_dir)
     then get_default environ "PATH" ""
     else extra IDB_CLIENT_BIN_DIR companion_dir ++ ":" ++ get_default environ "PATH" "")%string
  /\ contains
       (get_default (_mcp_env IDB_CLIENT_BIN_DIR IDB_COMPANION_PATH companion_dir environ)
          "PATH" "")
       (extra IDB_CLIENT_BIN_DIR companion_dir) = true
  /\ lookup (_mcp_env IDB_CLIENT_BIN_DIR IDB_COMPANION_PATH companion_dir environ)
       "IDB_COMPANION_PATH" = Some IDB_COMPANION_PATH
  /\ (forall variable,
        variable <> "PATH" -> variable <> "IDB_COMPANION_PATH" ->
        lookup (_mcp_env IDB_CLIENT_BIN_DIR IDB_COMPANION_PATH companion_dir environ)
          variable
        = lookup environ variable).
Proof.
  split; [|split; [apply _mcp_env_PATH|split]].
  - unfold _mcp_env.
    set (existing_path := get_default environ "PATH" "").
    destruct (contains existing_path (extra IDB_CLIENT_BIN_DIR companion_dir));
      cbn [negb]; unfold get_default; rewrite lookup_set_item_other by discriminate.
    + reflexivity.
    + now rewrite lookup_set_item_same.
  - unfold _mcp_env. apply lookup_set_item_same.
  - intros variable Hpath Hidb. unfold _mcp_env.
    rewrite lookup_set_item_other by exact Hidb.
    destruct (negb _); [|reflexivity].
    now rewrite lookup_set_item_other by exact Hpath.
Qed.

(** X2: building the environment from an environment it has built changes
    nothing: the idb directories are put on the PATH once. *)
Theorem _mcp_env_idempotent (environ : pydict string) :
  _mcp_env IDB_CLIENT_BIN_DIR IDB_COMPANION_PATH companion_dir
    (_mcp_env IDB_CLIENT_BIN_DIR IDB_COMPANION_PATH companion_dir environ)
  = _mcp_env IDB_CLIENT_BIN_DIR IDB_COMPANION_PATH companion_dir environ.
Proof.
  pose proof (_mcp_env_PATH environ) as Hpath.
  unfold _mcp_env at 1. rewrite Hpath. cbn [negb].
  unfold _mcp_env. apply set_item_twice.
Qed.

End EnvironmentFacts.

(** A PATH that holds the text across two of its entries is left as it is,
    though neither idb directory is an entry of it. *)
Example _mcp_env_keeps_path_holding_the_text :
  lookup (_mcp_env "/opt/h/bin" "/h/idb/idb_companion" "/h/idb"
            [("HOME", "/h"); ("PATH", "/opt/h/bin:/h/idb-old:/usr/bin")]) "PATH"
  = Some "/opt/h/bin:/h/idb-old:/usr/bin"
  /\ lookup (_mcp_env "/opt/h/bin" "/h/idb/idb_companion" "/h/idb"
               [("HOME", "/h"); ("PATH", "/usr/bin")]) "PATH"
     = Some "/opt/h/bin:/h/idb:/usr/bin".
Proof. split; reflexivity. Qed.

(** *** Facts about what a call leaves behind *)

Lemma put_all_queue (pending : list json) (c : MCPClient) :
  _response_queue (put_all pending c) = _response_queue c ++ pending
  /\ arrivals (put_all pending c) = arrivals c
  /\ _next_id (put_all pending c) = _next_id c
  /\ _proc (put_all pending c) = _proc c
  /\ now (put_all pending c) = now c.
Proof.
  unfold put_all. revert c.
  induction pending as [|m rest IH]; intros c; cbn [fold_left].
  - now rewrite app_nil_r.
  - destruct (IH (put m c)) as (-> & -> & -> & -> & ->).
    cbn [put with_queue _response_queue arrivals _next_id _proc now].
    now rewrite <- app_assoc.
Qed.

Lemma queue_get_keeps (timeout : Z) (c c' : MCPClient) (got : option json) :
  queue_get timeout c = (got, c') ->
  _next_id c' = _next_id c /\ _proc c' = _proc c.
Proof.
  unfold queue_get. cbn [at_time _response_queue arrivals now].
  destruct (_response_queue c ++ arrived (now c) (arrivals c)) as [|msg rest].
  - destruct (not_arrived (now c) (arrivals c)) as [|[t m] later].
    + now intros [= <- <-].
    + destruct (t <? now c + timeout); now intros [= <- <-].
  - now intros [= <- <-].
Qed.

Lemma wait_loop_keeps (method : string) (req_id timeout deadline : Z) (fuel : nat) :
  forall pending c outcome c',
    wait_loop fuel method req_id timeout deadline pending c = Some (outcome, c') ->
    _next_id c' = _next_id c /\ _proc c' = _proc c.
Proof.
  induction fuel as [|fuel IH]; intros pending c outcome c'; cbn [wait_loop];
    destruct (now c <? deadline).
  - discriminate.
  - intros [= _ <-]. now destruct (put_all_queue pending c) as (_ & _ & -> & -> & _).
  - destruct (queue_get (Z.min (deadline - now c) one_second) c) as [[msg|] c1] eqn:Hget;
      destruct (queue_get_keeps _ _ _ _ Hget) as [<- <-].
    + destruct (handle req_id pending msg) as [back out|pending'|e].
      * intros [= _ <-].
        now destruct (put_all_queue back c1) as (_ & _ & -> & -> & _).
      * apply IH.
      * now intros [= _ <-].
    + apply IH.
  - intros [= _ <-]. now destruct (put_all_queue pending c) as (_ & _ & -> & -> & _).
Qed.

Lemma arrived_not_arrived (t : Z) (l : list (Z * json)) :
  map snd l = arrived t l ++ map snd (not_arrived t l).
Proof.
  induction l as [|[u m] rest IH]; cbn [arrived not_arrived map snd]; [reflexivity|].
  destruct (u <=? t); cbn [map snd app]; [now rewrite IH | reflexivity].
Qed.

Lemma all_messages_at_time (t : Z) (c : MCPClient) :
  all_messages (at_time t c) = all_messages c.
Proof.
  unfold all_messages. cbn [at_time _response_queue arrivals].
  now rewrite <- app_assoc, <- arrived_not_arrived.
Qed.

(** [get] takes the first of the messages, or none of them. *)
Lemma queue_get_first (timeout : Z) (c c' : MCPClient) (got : option json) :
  queue_get timeout c = (got, c') ->
  all_messages c = match got with
                   | Some msg => msg :: all_messages c'
                   | None => all_messages c'
                   end.
Proof.
  unfold queue_get.
  rewrite <- (all_messages_at_time (now c) c).
  cbv zeta. set (c0 := at_time (now c) c). clearbody c0.
  destruct (_response_queue c0) as [|msg rest] eqn:Hqueue.
  - destruct (arrivals c0) as [|[t m] later] eqn:Hlater.
    + intros [= <- <-]. now rewrite all_messages_at_time.
    + destruct (t <? now c0 + timeout).
      * intros [= <- <-].
        rewrite <- (all_messages_at_time t c0). unfold all_messages.
        cbn [with_queue at_time _response_queue arrivals].
        rewrite Hqueue, Hlater. cbn [arrived app]. rewrite Z.leb_refl. reflexivity.
      * intros [= <- <-]. now rewrite all_messages_at_time.
  - intros [= <- <-]. unfold all_messages.
    cbn [with_queue _response_queue arrivals]. now rewrite Hqueue.
Qed.

Lemma all_messages_put_all (pending : list json) (c : MCPClient) :
  Permutation (all_messages (put_all pending c)) (pending ++ all_messages c).
Proof.
  unfold all_messages.
  destruct (put_all_queue pending c) as (-> & -> & _).
  rewrite <- app_assoc. rewrite app_assoc. rewrite app_assoc.
  apply Permutation_app_tail. apply Permutation_app_comm.
Qed.

Lemma handle_finished (req_id : Z) (pending back : list json) (msg : json)
    (outcome : result call_error json) :
  handle req_id pending msg = Finished back outcome ->
  back = pending /\ bears req_id msg = true /\ outcome = reply msg.
Proof.
  unfold handle, bears, reply. destruct msg as [| | | | | |d]; try discriminate.
  destruct (eq_int (get d "id") req_id); [|discriminate].
  now intros [= <- <-].
Qed.

Lemma handle_waiting (req_id : Z) (pending pending' : list json) (msg : json) :
  handle req_id pending msg = StillWaiting pending' -> pending' = pending ++ [msg].
Proof.
  unfold handle. destruct msg as [| | | | | |d]; try discriminate.
  destruct (eq_int (get d "id") req_id); [discriminate|]. now intros [= <-].
Qed.

Lemma handle_crashed (req_id : Z) (pending : list json) (msg : json) (e : call_error) :
  handle req_id pending msg = Crashed e ->
  is_object msg = false /\ e = NoGetAttribute msg.
Proof.
  unfold handle. destruct msg as [| | | | | |d]; try (now intros [= <-]).
  destruct (eq_int (get d "id") req_id); discriminate.
Qed.

Lemma wait_loop_leaves (method : string) (req_id timeout deadline : Z) (fuel : nat) :
  forall pending c outcome c',
    wait_loop fuel method req_id timeout deadline pending c = Some (outcome, c') ->
    leaves method req_id timeout (pending ++ all_messages c) outcome (all_messages c').
Proof.
  induction fuel as [|fuel IH]; intros pending c outcome c'; cbn [wait_loop];
    destruct (now c <? deadline).
  - discriminate.
  - intros [= <- <-]. apply LeavesAll, all_messages_put_all.
  - destruct (queue_get (Z.min (deadline - now c) one_second) c) as [[msg|] c1] eqn:Hget;
      rewrite (queue_get_first _ _ _ _ Hget).
    + destruct (handle req_id pending msg) as [back out|pending'|e] eqn:Hmsg.
      * destruct (handle_finished _ _ _ _ _ Hmsg) as (-> & Hid & ->).
        intros [= <- <-]. apply LeavesOthers; [exact Hid|].
        rewrite (all_messages_put_all pending c1). apply Permutation_middle.
      * rewrite (handle_waiting _ _ _ _ Hmsg). intros Hrun.
        apply IH in Hrun. now rewrite <- app_assoc in Hrun.
      * destruct (handle_crashed _ _ _ _ Hmsg) as (Hv & ->).
        intros [= <- <-]. now apply LeavesSome.
    + apply IH.
  - intros [= <- <-]. apply LeavesAll, all_messages_put_all.
Qed.

(** The loop that follows [_send] in a call on a running server. *)
Lemma _call_loop (method : string) (params : json) (timeout : Z) (c : MCPClient) :
  running c = true ->
  exists c1,
    _call method params timeout c
    = wait_loop (turns timeout c1) method (_next_id c) timeout (now c + timeout) [] c1
    /\ _next_id c1 = _next_id c + 1
    /\ running c1 = true
    /\ sent c1 = sent c ++ [request (_next_id c) method params]
    /\ _response_queue c1 = _response_queue c
    /\ arrivals c1 = arrivals c
    /\ now c1 = now c.
Proof.
  unfold running, _call, _send, sent. cbn [with_next_id _proc].
  destruct (_proc c) as [p|]; [|discriminate].
  destruct (poll p); [discriminate|]. intros _.
  eexists. split; [reflexivity|]. now cbn.
Qed.

Lemma running_proc (c c' : MCPClient) :
  _proc c' = _proc c -> running c' = running c /\ sent c' = sent c.
Proof. unfold running, sent. now intros ->. Qed.

(** X3: every call uses up one correlation id, whether it returns or
    raises, and writes one request, bearing that id, when the server runs
    and none when it does not; so no two calls of a client share an id. *)
Theorem _call_uses_one_id (method : string) (params : json) (timeout : Z)
    (c : MCPClient) :
  exists outcome c',
    _call method params timeout c = Some (outcome, c')
    /\ _next_id c' = _next_id c + 1
    /\ running c' = running c
    /\ sent c' = sent c ++ (if running c
                            then [request (_next_id c) method params]
                            else []).
Proof.
  destruct (running c) eqn:Hrun.
  - destruct (_call_running method params timeout c Hrun) as (c' & Hcall).
    eexists. exists c'. split; [exact Hcall|].
    destruct (_call_loop method params timeout c Hrun)
      as (c1 & Hloop & Hid & Hrun1 & Hsent & _).
    rewrite Hloop in Hcall.
    destruct (wait_loop_keeps _ _ _ _ _ _ _ _ _ Hcall) as [Hid' Hproc].
    destruct (running_proc _ _ Hproc) as [-> ->].
    rewrite Hid', Hid, Hrun1, Hsent. now repeat split.
  - rewrite (_call_not_running method params timeout c Hrun).
    do 2 eexists. split; [reflexivity|].
    unfold running, sent in *. cbn [with_next_id _next_id _proc].
    rewrite Hrun, app_nil_r. now repeat split.
Qed.

(** X4: a call takes nothing off the queue but the response bearing its id.
    When it times out, the messages queued or still to arrive are those
    there were before it; when it ends with its response, they are those
    there were less that response; in both cases possibly in another order.
    Only a call that meets a message that is not an object may lose the
    messages it had set aside. *)
Theorem _call_takes_only_its_response (method : string) (params : json)
    (timeout : Z) (c : MCPClient) :
  exists outcome c',
    _call method params timeout c = Some (outcome, c')
    /\ (if running c
        then leaves method (_next_id c) timeout (all_messages c) outcome
               (all_messages c')
        else outcome = Raise ServerNotRunning /\ all_messages c' = all_messages c).
Proof.
  destruct (running c) eqn:Hrun.
  - destruct (_call_running method params timeout c Hrun) as (c' & Hcall).
    eexists. exists c'. split; [exact Hcall|].
    destruct (_call_loop method params timeout c Hrun)
      as (c1 & Hloop & _ & _ & _ & Hqueue & Harr & _).
    rewrite Hloop in Hcall. apply wait_loop_leaves in Hcall.
    cbn [app] in Hcall. unfold all_messages at 1 in Hcall.
    rewrite Hqueue, Harr in Hcall. exact Hcall.
  - rewrite (_call_not_running method params timeout c Hrun).
    do 2 eexists. split; [reflexivity|]. now split.
Qed.

Lemma arrived_twice (t : Z) (l : list (Z * json)) : arrived t (not_arrived t l) = [].
Proof.
  induction l as [|[u m] rest IH]; cbn [not_arrived arrived]; [reflexivity|].
  destruct (u <=? t) eqn:Hu; [exact IH|]. cbn [arrived]. now rewrite Hu.
Qed.

Lemma bears_reply (req_id : Z) (pending : list json) (msg : json) :
  bears req_id msg = true -> handle req_id pending msg = Finished pending (reply msg).
Proof.
  unfold bears, handle, reply. destruct msg as [| | | | | |d]; try discriminate.
  now intros ->.
Qed.

Lemma other_waits (req_id : Z) (pending : list json) (msg : json) :
  for_other_call req_id msg = true ->
  handle req_id pending msg = StillWaiting (pending ++ [msg]).
Proof.
  unfold for_other_call, bears, handle, is_object.
  destruct msg as [| | | | | |d]; try discriminate.
  cbn [andb]. intros Hid. apply negb_true_iff in Hid. now rewrite Hid.
Qed.

Lemma wait_loop_finds (method : string) (req_id timeout deadline : Z)
    (response : json) (rest : list json) :
  bears req_id response = true ->
  forall before pending c fuel,
    now c < deadline ->
    queue_now c = before ++ response :: rest ->
    Forall (fun m => for_other_call req_id m = true) before ->
    (List.length before < fuel)%nat ->
    exists c',
      wait_loop fuel method req_id timeout deadline pending c
      = Some (reply response, c')
      /\ _response_queue c' = rest ++ pending ++ before.
Proof.
  intros Hid. induction before as [|m before IH];
    intros pending c fuel Hnow Hqueue Hothers Hfuel;
    (destruct fuel as [|fuel]; [cbn [List.length] in Hfuel; lia|]);
    cbn [wait_loop]; apply Z.ltb_lt in Hnow as Hnowb; rewrite Hnowb;
    unfold queue_get; cbv zeta;
    cbn [at_time _response_queue arrivals now];
    unfold queue_now in Hqueue; rewrite Hqueue; cbn [app].
  - rewrite (bears_reply _ pending _ Hid). eexists. split; [reflexivity|].
    destruct (put_all_queue pending
                (with_queue rest (at_time (now c) c))) as (-> & _).
    cbn [with_queue _response_queue]. now rewrite app_nil_r.
  - inversion Hothers as [|? ? Hm Hbefore]; subst.
    rewrite (other_waits _ pending _ Hm).
    destruct (IH (pending ++ [m])
                (with_queue (before ++ response :: rest) (at_time (now c) c)) fuel)
      as (c' & -> & Hleft).
    + exact Hnow.
    + unfold queue_now. cbn [with_queue at_time _response_queue arrivals now].
      now rewrite arrived_twice, app_nil_r.
    + exact Hbefore.
    + cbn [List.length] in Hfuel. lia.
    + exists c'. split; [reflexivity|]. rewrite Hleft.
      now rewrite <- !app_assoc.
Qed.

(** X5: the messages a call finds ahead of its response go back to the end
    of the queue, behind the messages that were behind the response: when
    the queue holds [before], then the response, then [after], the call
    returns with the queue holding [after], what the reader had put by
    then, and [before]. *)
Theorem _call_puts_earlier_messages_last (method : string) (params : json)
    (timeout : Z) (c : MCPClient) (before after : list json) (response : json) :
  running c = true ->
  0 < timeout ->
  _response_queue c = before ++ response :: after ->
  Forall (fun m => for_other_call (_next_id c) m = true) before ->
  bears (_next_id c) response = true ->
  exists c',
    _call method params timeout c = Some (reply response, c')
    /\ _response_queue c' = after ++ arrived (now c) (arrivals c) ++ before.
Proof.
  intros Hrun Htimeout Hqueue Hothers Hid.
  destruct (_call_loop method params timeout c Hrun)
    as (c1 & -> & _ & _ & _ & Hqueue1 & Harr1 & Hnow1).
  destruct (wait_loop_finds method (_next_id c) timeout (now c + timeout)
              response (after ++ arrived (now c) (arrivals c)) Hid
              before [] c1 (turns timeout c1))
    as (c' & -> & Hleft).
  - lia.
  - unfold queue_now. rewrite Hqueue1, Harr1, Hnow1, Hqueue.
    now rewrite <- app_assoc.
  - exact Hothers.
  - unfold turns. rewrite Hqueue1, Hqueue, length_app. cbn [List.length]. lia.
  - exists c'. split; [reflexivity|]. rewrite Hleft. now rewrite <- app_assoc.
Qed.

Lemma _call_puts_earlier_messages_last_witness :
  (running busy_client = true
   /\ 0 < 30000
   /\ Forall (fun m => for_other_call 7 m = true) [reply_to 9 "late"])
  /\ exists c',
       _call "tools/call" (JObj []) 30000 busy_client
       = Some (reply tapped_response, c')
       /\ _response_queue c' = [reply_to 8 "later"; reply_to 9 "late"].
Proof.
  split.
  - split; [reflexivity|]. split; [reflexivity|]. now repeat constructor.
  - apply (_call_puts_earlier_messages_last "tools/call" (JObj []) 30000
             busy_client [reply_to 9 "late"] [reply_to 8 "later"] tapped_response).
    + reflexivity.
    + reflexivity.
    + reflexivity.
    + now repeat constructor.
    + reflexivity.
Defined.

Lemma wait_loop_no_time (method : string) (req_id timeout deadline : Z)
    (fuel : nat) (pending : list json) (c : MCPClient) :
  deadline <= now c ->
  wait_loop fuel method req_id timeout deadline pending c
  = Some (Raise (NoResponse method req_id timeout), put_all pending c).
Proof.
  intros Hlate. apply Z.ltb_ge in Hlate.
  destruct fuel; cbn [wait_loop]; now rewrite Hlate.
Qed.

(** X6: a call given no time does not look at the queue.  With a timeout of
    zero or less the request is written and the call raises the time-out at
    once, even when the response bearing its id is on the queue already; the
    queue is left as it was. *)
Theorem _call_without_time (method : string) (params : json) (timeout : Z)
    (c : MCPClient) :
  running c = true ->
  timeout <= 0 ->
  exists c',
    _call method params timeout c
    = Some (Raise (NoResponse method (_next_id c) timeout), c')
    /\ _response_queue c' = _response_queue c
    /\ arrivals c' = arrivals c
    /\ sent c' = sent c ++ [request (_next_id c) method params].
Proof.
  intros Hrun Htimeout.
  destruct (_call_loop method params timeout c Hrun)
    as (c1 & -> & _ & _ & Hsent & Hqueue & Harr & Hnow).
  rewrite wait_loop_no_time by lia.
  eexists. split; [reflexivity|]. cbn [put_all fold_left].
  now rewrite Hqueue, Harr, Hsent.
Qed.

Lemma _call_without_time_witness :
  find (bears 7) (_response_queue busy_client) = Some tapped_response
  /\ exists c',
       _call "tools/call" (JObj []) 0 busy_client
       = Some (Raise (NoResponse "tools/call" 7 0), c')
       /\ _response_queue c' = _response_queue busy_client
       /\ arrivals c' = arrivals busy_client
       /\ sent c' = sent busy_client ++ [request 7 "tools/call" (JObj [])].
Proof.
  split; [reflexivity|].
  apply (_call_without_time "tools/call" (JObj []) 0 busy_client); [reflexivity | lia].
Defined.

(** *** Facts about the reader *)

Section LinesFacts.

Variable strip : string -> string.
Variable json_loads : string -> result loads_error json.

Lemma read_line_decoded (line : string) (queue : list json) :
  survivable strip json_loads line ->
  read_line strip json_loads line queue
  = Ok (queue ++ decoded strip json_loads line).
Proof.
  unfold survivable, read_line, decoded. intros [Hblank|Hloads].
  - rewrite Hblank. cbn. now rewrite app_nil_r.
  - destruct (String.eqb (strip line) ""); [now rewrite app_nil_r|].
    destruct (json_loads (strip line)) as [msg|[]]; try reflexivity.
    + now rewrite app_nil_r.
    + now destruct Hloads.
Qed.

(** X7: the reader puts on the queue the values of the lines that decode,
    in the order of the lines and behind what the queue holds, and nothing
    for the other lines, as long as [json.loads] raises nothing but
    [JSONDecodeError]. *)
Theorem reader_queues_in_order (stdout : list string) (queue : list json) :
  Forall (survivable strip json_loads) stdout ->
  _read_loop strip json_loads stdout queue
  = Ok (queue ++ flat_map (decoded strip json_loads) stdout).
Proof.
  intros Hlines. revert queue.
  induction Hlines as [|line rest Hline _ IH]; intros queue;
    cbn [_read_loop flat_map].
  - now rewrite app_nil_r.
  - rewrite (read_line_decoded line queue Hline). rewrite IH.
    now rewrite <- app_assoc.
Qed.

End LinesFacts.

Lemma reader_queues_in_order_witness :
  Forall (survivable toy_strip toy_loads) ["5"; "server closed"; ""; "{}"]
  /\ _read_loop toy_strip toy_loads ["5"; "server closed"; ""; "{}"] [JNull]
     = Ok ([JNull] ++ flat_map (decoded toy_strip toy_loads)
                        ["5"; "server closed"; ""; "{}"]).
Proof.
  assert (Hlines : Forall (survivable toy_strip toy_loads)
                     ["5"; "server closed"; ""; "{}"]).
  { repeat (apply Forall_cons;
              [unfold survivable; cbn; first [now left | right; discriminate]|]).
    apply Forall_nil. }
  split; [exact Hlines|].
  exact (reader_queues_in_order toy_strip toy_loads
           ["5"; "server closed"; ""; "{}"] [JNull] Hlines).
Defined.

(** *** Facts about [call_tool] and [get_client] *)

Section ContentFacts.

Context `{py : Xcuitest.Builtins}.

Lemma eq_str_image_not_text (v : json) :
  eq_str v "image" = true -> eq_str v "text" = false.
Proof.
  destruct v as [| | | |s| |]; cbn [eq_str]; try discriminate.
  intros Himage. apply String.eqb_eq in Himage. now subst s.
Qed.

Lemma add_part_shows (item : json) (shown : list string) (parts : list json) :
  shows item shown -> add_part item parts = Ok (parts ++ map JStr shown).
Proof.
  intros [d text Htext Hkey | d summary Himage Hsummary | d Htext Himage];
    unfold add_part; cbn [dict_of bind].
  - now rewrite Htext, Hkey.
  - now rewrite (eq_str_image_not_text _ Himage), Himage, Hsummary.
  - rewrite Htext, Himage. cbn [map]. now rewrite app_nil_r.
Qed.

Lemma add_parts_shows (content : list json) (shown : list (list string)) :
  Forall2 shows content shown ->
  forall parts, add_parts content parts = Ok (parts ++ map JStr (List.concat shown)).
Proof.
  induction 1 as [|item these content shown Hitem _ IH]; intros parts;
    cbn [add_parts List.concat map].
  - now rewrite app_nil_r.
  - rewrite (add_part_shows item these parts Hitem). cbn [bind].
    rewrite IH, map_app. now rewrite <- app_assoc.
Qed.

Lemma strs_of_strs (texts : list string) : strs (map JStr texts) = Ok texts.
Proof.
  induction texts as [|s rest IH]; cbn [map strs]; [reflexivity|].
  now rewrite IH.
Qed.

(** X8: [call_tool] returns what the response bearing its id shows, joined by
    newlines: the text of each text item and the summary of each image item,
    in the order of the content list, and nothing for an item of another
    type.  A response without a result or without content gives the empty
    str. *)
Theorem call_tool_joins_content (name : string) (args : json) (timeout : Z)
    (c : MCPClient) (d answer : pydict json) (content : list json)
    (shown : list (list string)) :
  let inbox := visible (now c + timeout) c in
  running c = true ->
  Forall (fun m => is_object m = true) inbox ->
  find (bears (_next_id c)) inbox = Some (JObj d) ->
  lookup d "error" = None ->
  get_default d "result" (JObj []) = JObj answer ->
  get_default answer "content" (JArr []) = JArr content ->
  Forall2 shows content shown ->
  exists c',
    call_tool name args timeout c
    = Some (Ok (String.concat newline (List.concat shown)), c').
Proof.
  intros inbox Hrun Hobjects Hfound Hno_error Hresult Hcontent Hshown.
  destruct (_call_running "tools/call"
              (JObj [("name", JStr name); ("arguments", args)]) timeout c Hrun)
    as (c' & Hcall).
  exists c'. unfold call_tool. rewrite Hcall.
  rewrite settle_first_decisive.
  fold inbox. rewrite (find_decisive_objects _ _ Hobjects), Hfound.
  cbn [reply]. rewrite Hno_error, Hresult.
  unfold text_of. cbn [dict_of bind]. rewrite Hcontent. cbn [iterate bind].
  rewrite (add_parts_shows content shown Hshown []). cbn [app bind].
  unfold join. now rewrite strs_of_strs.
Qed.

(** X9: a server that could not be started is never started again.  When
    [Popen] raises in the first [get_client()], the client stays in the
    module variable without a process; from then on [get_client()] returns
    it as it is, and every [call_tool] through it raises "MCP server is not
    running", even when the server could be started by then. *)
Theorem failed_start_is_not_retried (e : Xcuitest.exn) (t : Z) :
  (exists g,
     get_client (Raise e) t None = Some (Raise (SpawnError e), g) /\ stuck g)
  /\ (forall g spawn t' name args timeout,
        stuck g ->
        exists g',
          on_client spawn t' (call_tool name args timeout) g
          = Some (Raise (ToolError (CallError ServerNotRunning)), g')
          /\ stuck g').
Proof.
  split.
  - eexists. split; [reflexivity|]. now eexists.
  - intros g spawn t' name args timeout (c & -> & Hdown).
    unfold on_client, get_client, call_tool.
    rewrite (_call_not_running _ _ _ c Hdown).
    eexists. split; [reflexivity|].
    eexists. split; [reflexivity|].
    unfold running in *. exact Hdown.
Qed.

End ContentFacts.

Lemma call_tool_joins_content_witness :
  (running busy_client = true
   /\ Forall (fun m => is_object m = true) (visible (0 + 30000) busy_client)
   /\ Forall2 (shows (py := Xcuitest.no_builtins))
        [text_item "Tapped"; resource_item; text_item "ok"]
        [["Tapped"]; []; ["ok"]])
  /\ exists c',
       call_tool (py := Xcuitest.no_builtins) "ui_tap" (JObj []) 30000 busy_client
       = Some (Ok (String.concat newline ["Tapped"; "ok"]), c').
Proof.
  assert (Hshown : Forall2 (shows (py := Xcuitest.no_builtins))
                     [text_item "Tapped"; resource_item; text_item "ok"]
                     [["Tapped"]; []; ["ok"]]).
  { constructor; [now apply ShowsText|].
    constructor; [now apply ShowsNothing|].
    constructor; [now apply ShowsText | constructor]. }
  split.
  - split; [reflexivity|]. split; [now repeat constructor | exact Hshown].
  - refine (call_tool_joins_content (py := Xcuitest.no_builtins)
              "ui_tap" (JObj []) 30000 busy_client _ _ _ _
              eq_refl _ eq_refl eq_refl eq_refl eq_refl Hshown).
    now repeat constructor.
Defined.

Lemma connect_sends_initialize (s : spawned) (t : Z) :
  poll (process s) = None ->
  exists outcome c,
    connect (Ok s) (MCPClient_init t) = Some (outcome, c)
    /\ sent c = stdin (process s) ++ [request 1 "initialize" initialize_params]
    /\ _next_id c = 2
    /\ running c = true.
Proof.
  intros Hpoll. unfold connect.
  set (c0 := {| _proc := Some (process s);
                _response_queue := _response_queue (MCPClient_init t);
                _next_id := _next_id (MCPClient_init t);
                now := now (MCPClient_init t);
                arrivals := output s |}).
  assert (Hrun : running c0 = true) by (unfold running; cbn; now rewrite Hpoll).
  destruct (_call_running "initialize" initialize_params fifteen_seconds c0 Hrun)
    as (c' & Hcall).
  destruct (_call_loop "initialize" initialize_params fifteen_seconds c0 Hrun)
    as (c1 & Hloop & Hid & Hrun1 & Hsent & _).
  rewrite Hcall in Hloop. symmetry in Hloop.
  destruct (wait_loop_keeps _ _ _ _ _ _ _ _ _ Hloop) as [Hid' Hproc].
  destruct (running_proc _ _ Hproc) as [Hrun' Hsent'].
  rewrite Hcall.
  destruct (verdict _ _ _ _) as [res|e]; do 2 eexists;
    (split; [reflexivity|]);
    rewrite Hsent', Hsent, Hid', Hid, Hrun', Hrun1; now repeat split.
Qed.

(** X10: the first request a client writes is the initialize request, with the
    correlation id 1, so that the calls made through [get_client()] bear
    the ids from 2 on.  This holds whether the server answers it or not: the
    client is kept in the module variable either way. *)
Theorem get_client_initializes_first (s : spawned) (t : Z) :
  poll (process s) = None ->
  exists outcome c,
    get_client (Ok s) t None = Some (outcome, Some c)
    /\ sent c = stdin (process s) ++ [request 1 "initialize" initialize_params]
    /\ _next_id c = 2
    /\ running c = true.
Proof.
  intros Hpoll. unfold get_client.
  destruct (connect_sends_initialize s t Hpoll) as (outcome & c & -> & Hfacts).
  destruct outcome as [res|e]; do 2 eexists; (split; [reflexivity | exact Hfacts]).
Qed.

Lemma get_client_initializes_first_witness :
  exists outcome c,
    get_client (Ok {| process := {| poll := None; stdin := [] |};
                      output := [(40, reply_to 1 "ready")] |}) 0 None
    = Some (outcome, Some c)
    /\ sent c = [] ++ [request 1 "initialize" initialize_params]
    /\ _next_id c = 2
    /\ running c = true.
Proof.
  apply (get_client_initializes_first
           {| process := {| poll := None; stdin := [] |};
              output := [(40, reply_to 1 "ready")] |} 0).
  reflexivity.
Defined.

(** X11: a [disconnect] that returns leaves a client whose server does not
    run, so that further calls through it raise; a second [disconnect] does
    nothing, whatever waiting for the process would do. *)
Theorem disconnect_stops_the_server (wait : result Xcuitest.exn Z) (c c' : MCPClient) :
  disconnect wait c = (Ok tt, c') ->
  stuck (Some c')
  /\ sent c' = sent c
  /\ forall wait', disconnect wait' c' = (Ok tt, c').
Proof.
  unfold disconnect, stuck, running, sent.
  destruct (_proc c) as [p|] eqn:Hproc.
  - destruct (poll p) as [code|] eqn:Hpoll.
    + intros [= <-]. rewrite Hproc, Hpoll. split.
      * exists c. split; [reflexivity|]. now rewrite Hproc, Hpoll.
      * split; [reflexivity|]. intros wait'. reflexivity.
    + destruct wait as [code|e]; [|discriminate].
      intros [= <-]. cbn. split; [now eexists|]. now split.
  - intros [= <-]. rewrite Hproc. split.
    + exists c. split; [reflexivity|]. now rewrite Hproc.
    + now split.
Qed.

Lemma disconnect_stops_the_server_witness :
  exists c',
    disconnect (Ok 0) busy_client = (Ok tt, c')
    /\ stuck (Some c')
    /\ sent c' = sent busy_client
    /\ forall wait', disconnect wait' c' = (Ok tt, c').
Proof.
  eexists. split; [reflexivity|].
  apply (disconnect_stops_the_server (Ok 0) busy_client). reflexivity.
Defined.

End Client.

(** ** The interaction primitives

    The rest of [ios-bot/xcuitest.py]: [_is_idb_error], [describe_screen],
    [find_element] with its call of [describe_screen], [tap_xy],
    [tap_element], [swipe], [type_text], [wait], [capture_step_screenshot]
    and [navigate_to], and further facts about the element model, the scan
    and the script engine. *)

Module Screen.

Import Py Xcuitest.

Open Scope list_scope.
Open Scope string_scope.
Open Scope result_scope.

(** *** [_is_idb_error] *)

Definition idb_error_markers : list string :=
  ["spawn idb ENOENT"; "idb ENOENT"; "FileNotFoundError"; "idb_companion"].

Definition _is_idb_error (text : string) : bool :=
  existsb (fun m => contains text m) idb_error_markers && contains text "Error".

Definition IDB_MISSING_MSG : string :=
  "idb_companion not found — UI interaction requires idb_companion at ~/Library/idb-companion/."
  ++ Client.newline
  ++ "Download from: https://github.com/facebook/idb/releases/latest (idb-companion.universal.tar.gz)"
  ++ Client.newline
  ++ "Extract to ~/Library/idb-companion/ and run: pip3 install fb-idb".

(** *** Arithmetic on decoded values *)

(** The operand of [+] and [-] as a number: an int (a bool counts as one)
    or a float. *)
Inductive number : Type :=
| Int (n : Z)
| Float (f : spec_float).

Definition number_of (v : json) : option number :=
  match v with
  | JInt n => Some (Int n)
  | JBool b => Some (Int (if b then 1 else 0))
  | JFloat f => Some (Float f)
  | JNull | JStr _ | JArr _ | JObj _ => None
  end.

(** [a op b] on two numbers: on the ints when both are ints, and otherwise on
    the floats, an int being converted first. *)
Definition arith (on_int : Z -> Z -> Z) (on_float : spec_float -> spec_float -> spec_float)
    (a b : number) : result Py.error json :=
  match a, b with
  | Int m, Int n => Ok (JInt (on_int m n))
  | Int m, Float g => f <- float_of_int m ;; Ok (JFloat (on_float f g))
  | Float f, Int n => g <- float_of_int n ;; Ok (JFloat (on_float f g))
  | Float f, Float g => Ok (JFloat (on_float f g))
  end.

(** [a - b] *)
Definition py_sub (a b : json) : result Py.error json :=
  match number_of a, number_of b with
  | Some m, Some n => arith Z.sub (SFsub 53 1024) m n
  | _, _ => Raise TypeError
  end.

(** [a + b]: two strs and two lists are concatenated. *)
Definition py_add (a b : json) : result Py.error json :=
  match a, b with
  | JStr s, JStr t => Ok (JStr (s ++ t))
  | JArr l, JArr l' => Ok (JArr (l ++ l')%list)
  | _, _ =>
      match number_of a, number_of b with
      | Some m, Some n => arith Z.add (SFadd 53 1024) m n
      | _, _ => Raise TypeError
      end
  end.

(** *** Computations on the simulator *)

(** What a function of this part raises: the exception of a builtin, by
    class; an exception with its class and message; or what [json.loads]
    raises besides [JSONDecodeError]. *)
Inductive failure : Type :=
| Builtin (e : Py.error)
| Raised (e : exn)
| Loads (e : McpClient.loads_error).

Definition effect (World A : Type) : Type := World -> result failure A * World.

Definition unit_ {World A : Type} (a : A) : effect World A := fun w => (Ok a, w).

Definition fail {World A : Type} (e : failure) : effect World A :=
  fun w => (Raise e, w).

Definition then_ {World A B : Type} (m : effect World A) (k : A -> effect World B)
  : effect World B :=
  fun w =>
    match m w with
    | (Ok a, w') => k a w'
    | (Raise e, w') => (Raise e, w')
    end.

Notation "x <<- m ;; k" := (then_ m (fun x => k))
  (at level 61, m at next level, right associativity).

(** A builtin that returns or raises. *)
Definition builtin {World A : Type} (r : result Py.error A) : effect World A :=
  match r with
  | Ok a => unit_ a
  | Raise e => fail (Builtin e)
  end.

(** A computation of the script engine's kind. *)
Definition lifted {World A : Type} (m : action_on World A) : effect World A :=
  fun w =>
    match m w with
    | (Ok a, w') => (Ok a, w')
    | (Raise e, w') => (Raise (Raised e), w')
    end.

(** What the primitives call outside this file, and the builtins they use.
    - [get_client()] and [client.call_tool(name, args, timeout)] of
      mcp_client.py, the timeout in milliseconds;
    - [get_booted()] and [screenshot(udid, output_path)] of simulator.py;
    - [time.sleep(seconds)], [Path(output_dir).mkdir(parents=True,
      exist_ok=True)], [int(time.time() * 1000)];
    - [json.loads], [repr] and [str(Path(output_dir) / name)]. *)
Class Device (World : Type) : Type := {
  device_builtins :: Builtins;
  py_repr : json -> string;
  json_loads : string -> result McpClient.loads_error json;
  path_join : string -> string -> string;
  get_client : effect World unit;
  call_tool : string -> pydict json -> Z -> effect World string;
  get_booted : effect World (option SimulatorDevice);
  simctl_screenshot : string -> string -> effect World string;
  sleep : json -> effect World unit;
  mkdir : string -> effect World unit;
  timestamp : effect World Z
}.

(** [re.sub(r"[^a-zA-Z0-9_-]", "_", step_name)]: every character that is
    not an ASCII letter, a digit, [_] or [-] becomes [_].  A str is taken
    as the sequence of its one-byte characters. *)
Definition is_safe (ch : ascii) : bool :=
  let n := nat_of_ascii ch in
  (((97 <=? n) && (n <=? 122)) || ((65 <=? n) && (n <=? 90))
   || ((48 <=? n) && (n <=? 57)) || (n =? 95) || (n =? 45))%nat.

Fixpoint safe_name (step_name : string) : string :=
  match step_name with
  | EmptyString => EmptyString
  | String ch rest => String (if is_safe ch then ch else "_"%char) (safe_name rest)
  end.

(** A str of letters, digits, [_] and [-]. *)
Fixpoint all_safe (s : string) : bool :=
  match s with
  | EmptyString => true
  | String ch rest => is_safe ch && all_safe rest
  end.

(** [re.sub] on a value that may not be a str. *)
Definition re_sub_unsafe (step_name : json) : result Py.error string :=
  match step_name with
  | JStr s => Ok (safe_name s)
  | _ => Raise TypeError
  end.

(** An element whose frame holds x, y, width and height. *)
Definition framed (el : UIElement) : Prop :=
  exists x y width height,
    frame el = [("x", x); ("y", y); ("width", width); ("height", height)].

Definition IdbMissing : failure :=
  Raised {| class_name := "RuntimeError"; message := IDB_MISSING_MSG |}.

Definition ElementNotFound (desc : string) : failure :=
  Raised {| class_name := "ValueError";
            message := "Element not found: " ++ desc |}.

Section Primitives.

Context {World : Type} `{dev : Device World}.

(** [if udid: args["udid"] = udid] *)
Definition with_udid (udid : option string) (args : pydict json) : pydict json :=
  match given udid with
  | Some u => (args ++ [("udid", JStr u)])%list
  | None => args
  end.

Definition describe_screen (udid : option string) : effect World (list UIElement) :=
  _ <<- get_client ;;
  let args := with_udid udid [] in
  raw <<- call_tool "ui_describe_all" args 20000%Z ;;
  if _is_idb_error raw then unit_ []
  else
    match json_loads raw with
    | Ok data => builtin (parse data)
    | Raise McpClient.JSONDecodeError => unit_ []
    | Raise e => fail (Loads e)
    end.

(** [find_element(label, identifier, element_type, udid, fuzzy)]: the scan
    of the screen just described. *)
Definition find_element (label identifier element_type udid : option string)
    (fuzzy : bool) : effect World (option UIElement) :=
  elements <<- describe_screen udid ;;
  builtin (Xcuitest.find_element elements label identifier element_type fuzzy).

Definition tap_xy (x y : json) (udid : option string) (duration : json)
  : effect World unit :=
  _ <<- get_client ;;
  let args := with_udid udid
                [("x", x); ("y", y); ("duration", JStr (py_str duration))] in
  result <<- call_tool "ui_tap" args 10000%Z ;;
  if _is_idb_error result then fail IdbMissing else unit_ tt.

(** [label or identifier or "(unknown)"] *)
Definition description (label identifier : option string) : string :=
  match given label, given identifier with
  | Some l, _ => l
  | None, Some i => i
  | None, None => "(unknown)"
  end.

Definition tap_element (label identifier udid : option string) (fuzzy : bool)
  : effect World UIElement :=
  found <<- find_element label identifier None udid fuzzy ;;
  match found with
  | None => fail (ElementNotFound (py_repr (JStr (description label identifier))))
  | Some el =>
      cx <<- lifted (center_x el) ;;
      cy <<- lifted (center_y el) ;;
      _ <<- tap_xy (JFloat cx) (JFloat cy) udid tenth ;;
      unit_ el
  end.

Definition UnknownDirection (direction : string) : failure :=
  Raised {| class_name := "ValueError";
            message := "Unknown swipe direction: " ++ py_repr (JStr direction)
                       ++ ". Use up/down/left/right." |}.

(** Where a swipe from [(sx, sy)] ends. *)
Definition swipe_end (direction : string) (sx sy distance : json)
  : effect World (json * json) :=
  if String.eqb direction "up" then
    ey <<- builtin (py_sub sy distance) ;; unit_ (sx, ey)
  else if String.eqb direction "down" then
    ey <<- builtin (py_add sy distance) ;; unit_ (sx, ey)
  else if String.eqb direction "left" then
    ex <<- builtin (py_sub sx distance) ;; unit_ (ex, sy)
  else if String.eqb direction "right" then
    ex <<- builtin (py_add sx distance) ;; unit_ (ex, sy)
  else fail (UnknownDirection direction).

Definition swipe (direction distance : json) (udid : option string)
    (duration start_x start_y : json) : effect World unit :=
  let sx := match start_x with JNull => JFloat (binary64_of_Z 195) | v => v end in
  let sy := match start_y with JNull => JFloat (binary64_of_Z 422) | v => v end in
  direction <<- builtin (lower_of direction) ;;
  ends <<- swipe_end direction sx sy distance ;;
  _ <<- get_client ;;
  let args := with_udid udid
                [ ("x_start", sx); ("y_start", sy);
                  ("x_end", fst ends); ("y_end", snd ends);
                  ("duration", JStr (py_str duration)) ] in
  result <<- call_tool "ui_swipe" args 15000%Z ;;
  if _is_idb_error result then fail IdbMissing else unit_ tt.

Definition type_text (text : json) (udid : option string) : effect World unit :=
  _ <<- get_client ;;
  let args := with_udid udid [("text", text)] in
  result <<- call_tool "ui_type" args 15000%Z ;;
  if _is_idb_error result then fail IdbMissing else unit_ tt.

Definition wait (seconds : json) : effect World unit := sleep seconds.

(** [udid or (booted.udid if booted else "booted")] *)
Definition target_of (udid : option string) (booted : option SimulatorDevice) : string :=
  match given udid, booted with
  | Some u, _ => u
  | None, Some device => Xcuitest.udid device
  | None, None => "booted"
  end.

Definition capture_step_screenshot (step_name : json) (output_dir : string)
    (udid : option string) : effect World string :=
  _ <<- mkdir output_dir ;;
  safe <<- builtin (re_sub_unsafe step_name) ;;
  stamp <<- timestamp ;;
  let path := path_join output_dir (safe ++ "_" ++ str_of_Z stamp ++ ".png") in
  booted <<- get_booted ;;
  let target_udid := target_of udid booted in
  _ <<- simctl_screenshot target_udid path ;;
  unit_ path.

End Primitives.

(** *** [navigate_to] *)

(** [0.3] *)
Definition three_tenths : json := JFloat (S754_finite false 5404319552844595 (-54)).

Definition scripts : pydict (list (pydict json)) :=
  [ ("home",
      [ [("action", JStr "tap_label"); ("label", JStr "Cancel"); ("fuzzy", JBool false)];
        [("action", JStr "wait"); ("seconds", three_tenths)];
        [("action", JStr "tap_label"); ("label", JStr "Home"); ("fuzzy", JBool true)];
        [("action", JStr "wait"); ("seconds", half)];
        [("action", JStr "screenshot"); ("name", JStr "home")] ]);
    ("settings",
      [ [("action", JStr "tap_label"); ("label", JStr "Settings"); ("fuzzy", JBool true)];
        [("action", JStr "wait"); ("seconds", half)];
        [("action", JStr "screenshot"); ("name", JStr "settings")] ]);
    ("back",
      [ [("action", JStr "tap_label"); ("label", JStr "Back"); ("fuzzy", JBool true)];
        [("action", JStr "wait"); ("seconds", three_tenths)];
        [("action", JStr "screenshot"); ("name", JStr "back")] ]) ].

Section Navigation.

Context {World : Type} `{env : Callees World}.

Definition UnknownScreen (screen_name : string) : exn :=
  {| class_name := "ValueError";
     message := "Unknown screen: " ++ repr (JStr screen_name) ++ ". "
                ++ "Available: ['home', 'settings', 'back']. "
                ++ "For custom screens, build a steps list and call run_script() directly." |}.

Definition navigate_to (screen_name output_dir : string) (udid : option string)
  : action_on World ScriptResult :=
  match lookup scripts screen_name with
  | None => raise (UnknownScreen screen_name)
  | Some steps =>
      run_script ("navigate_to_" ++ screen_name) steps output_dir udid false
  end.

(** A step that takes a screenshot. *)
Definition is_screenshot (step : pydict json) : bool :=
  eq_str (action_of step) "screenshot".

(** The entry of a step: a screenshot step has left a path in it. *)
Definition records (step : pydict json) (entry : StepResult) : Prop :=
  success entry = true
  /\ (is_screenshot step = true -> exists path, screenshot_path entry = Some path).

(** How the loop ends: with an entry for every step, each a success, or with
    the entries of the steps before the first that failed and its own. *)
Inductive outcome_of (todo : list (pydict json)) : list StepResult -> Prop :=
| AllPassed (entries : list StepResult) :
    Forall2 records todo entries -> outcome_of todo entries
| OneFailed (before : list StepResult) (failed : StepResult) :
    (List.length before < List.length todo)%nat ->
    forallb success before = true ->
    success failed = false ->
    outcome_of todo (before ++ [failed])%list.

End Navigation.

(** *** A simulator that answers *)

(** The world is the list of the calls made so far. *)
Definition recorded {A : Type} (entry : string) (a : A) : effect (list string) A :=
  fun log => (Ok a, (log ++ [entry])%list).

Definition quoted (v : json) : string :=
  match v with
  | JStr s => "'" ++ s ++ "'"
  | _ => "?"
  end.

(** A device whose screen is described by the str [answer]; the str "tree"
    stands for the JSON text of [mixed_tree], "five" for that of a screen
    whose one element is labelled with the number 5, and no other str is
    JSON. *)
Definition numbered_tree : json :=
  JArr [ JObj [ ("label", JInt 5);
                ("frame", JObj [ ("x", num 0); ("y", num 0);
                                 ("width", num 10); ("height", num 10) ]) ];
         JObj [ ("label", JStr "Settings");
                ("frame", JObj [ ("x", num 0); ("y", num 20);
                                 ("width", num 10); ("height", num 10) ]) ] ].

Definition toy_json (text : string) : result McpClient.loads_error json :=
  if String.eqb text "tree" then Ok mixed_tree
  else if String.eqb text "five" then Ok numbered_tree
  else Raise McpClient.JSONDecodeError.

Definition device_showing (answer : string) : Device (list string) :=
  {| device_builtins := no_builtins;
     py_repr := quoted;
     json_loads := toy_json;
     path_join := fun dir file => dir ++ "/" ++ file;
     get_client := unit_ tt;
     call_tool := fun tool _ _ =>
       recorded tool (if String.eqb tool "ui_describe_all" then answer else "Tapped");
     get_booted := recorded "get_booted" (Some booted_device);
     simctl_screenshot := fun target path => recorded ("screenshot " ++ target) path;
     sleep := fun _ => recorded "sleep" tt;
     mkdir := fun _ => recorded "mkdir" tt;
     timestamp := unit_ 1700000000000%Z |}.

(** *** The steps of a script *)

(** The key a step of the given action is read at first with [step[key]]. *)
Definition required_key (act : string) : option string :=
  if String.eqb act "tap_label" then Some "label"
  else if String.eqb act "tap_id" then Some "identifier"
  else if String.eqb act "tap_xy" then Some "x"
  else if String.eqb act "swipe" then Some "direction"
  else if String.eqb act "type" then Some "text"
  else if String.eqb act "assert_text" then Some "text"
  else None.

Definition actions : list string :=
  ["tap_label"; "tap_id"; "tap_xy"; "swipe"; "type"; "wait"; "screenshot";
   "assert_text"].

(** The label of an element as a str. *)
Definition label_text (el : UIElement) : string :=
  match label el with
  | JStr s => s
  | _ => ""
  end.

(** The text is on the screen: the label or the value of an element
    contains it, case apart. *)
Definition on_screen (expected : string) (elements : list UIElement) : bool :=
  existsb (fun el => contains (lower (label_text el)) (lower expected)) elements
  || existsb (fun el => contains (lower (value el)) (lower expected)) elements.

(** A simulator whose screen shows the given elements. *)
Definition showing (elements : list UIElement) : Callees (list string) :=
  {| builtins := no_builtins;
     Xcuitest.get_booted := logged "get_booted" (Some booted_device);
     Xcuitest.tap_element := fun _ _ _ _ log => (Raise element_not_found, (log ++ ["tap_element"])%list);
     Xcuitest.tap_xy := fun _ _ _ => logged "tap_xy" tt;
     Xcuitest.swipe := fun _ _ _ _ _ _ => logged "swipe" tt;
     Xcuitest.type_text := fun _ _ => logged "type_text" tt;
     Xcuitest.wait := fun _ => logged "wait" tt;
     Xcuitest.capture_step_screenshot := fun _ _ _ => logged "screenshot" "shot.png";
     Xcuitest.describe_screen := fun _ => logged "describe_screen" elements;
     repr := quoted;
     format_0f := fun _ => Ok "0";
     format_0f_float := fun _ => "0" |}.

Definition tap_without_label : pydict json :=
  [("action", JStr "tap_label"); ("fuzzy", JBool true)].

Definition step_without_action : pydict json := [("name", JStr "open settings")].

Definition assert_wifi : pydict json :=
  [("action", JStr "assert_text"); ("text", JStr "WI-FI")].

Definition wifi_screen : Callees (list string) := showing [settings_button; wifi_cell].

(** *** Facts about [_is_idb_error] *)

Lemma mentions_error (text : string) :
  contains text "FileNotFoundError" = true -> contains text "Error" = true.
Proof.
  intros Hin. apply PyFacts.contains_trans with (b := "FileNotFoundError");
    [exact Hin | reflexivity].
Qed.

Lemma existsb_contains_around (pre text post : string) (markers : list string) :
  existsb (fun m => contains text m) markers = true ->
  existsb (fun m => contains (pre ++ text ++ post) m) markers = true.
Proof.
  induction markers as [|m rest IH]; cbn [existsb]; [discriminate|].
  intros Hin. apply orb_true_iff in Hin as [Hm|Hrest]; apply orb_true_iff.
  - left. now apply PyFacts.contains_around.
  - right. now apply IH.
Qed.

(** X12: what is an idb error stays one inside a longer text, so that a
    description of the screen that quotes an idb error anywhere is taken for
    one; a text that mentions FileNotFoundError is an idb error whatever
    else it says, the marker holding the word Error itself; and a text
    without the word Error is never one. *)
Theorem _is_idb_error_inside (pre text post : string) :
  (_is_idb_error text = true -> _is_idb_error (pre ++ text ++ post) = true)
  /\ (contains text "FileNotFoundError" = true -> _is_idb_error text = true)
  /\ (contains text "Error" = false -> _is_idb_error text = false).
Proof.
  unfold _is_idb_error. split; [|split].
  - intros Hidb. apply andb_true_iff in Hidb as [Hmarker Herror].
    apply andb_true_iff. split.
    + now apply existsb_contains_around.
    + now apply PyFacts.contains_around.
  - intros Hin. unfold idb_error_markers. cbn [existsb].
    rewrite Hin, (mentions_error text Hin). now rewrite !orb_true_r.
  - intros ->. apply andb_false_r.
Qed.

Lemma _is_idb_error_inside_witness :
  _is_idb_error "Error: spawn idb ENOENT" = true
  /\ _is_idb_error ("[{'label': '" ++ "Error: spawn idb ENOENT" ++ "'}]") = true
  /\ _is_idb_error "FileNotFoundError" = true
  /\ _is_idb_error "idb_companion started" = false.
Proof.
  destruct (_is_idb_error_inside "[{'label': '" "Error: spawn idb ENOENT" "'}]")
    as (Hinside & _ & _).
  destruct (_is_idb_error_inside "" "FileNotFoundError" "") as (_ & Hfile & _).
  destruct (_is_idb_error_inside "" "idb_companion started" "") as (_ & _ & Hnone).
  split; [reflexivity|]. split; [exact (Hinside eq_refl)|].
  split; [exact (Hfile eq_refl) | exact (Hnone eq_refl)].
Defined.

(** *** Facts about [safe_name] *)

(** X13: the file name made of a step name has the length of the step name
    and holds letters, digits, [_] and [-] only, hence no path separator and
    no dot; a step name made of such characters is kept as it is. *)
Theorem safe_name_is_safe (step_name : string) :
  all_safe (safe_name step_name) = true
  /\ String.length (safe_name step_name) = String.length step_name
  /\ contains (safe_name step_name) "/" = false
  /\ contains (safe_name step_name) "." = false
  /\ (all_safe step_name = true -> safe_name step_name = step_name).
Proof.
  induction step_name as [|ch rest (IHsafe & IHlen & IHslash & IHdot & IHsame)];
    cbn [safe_name all_safe String.length contains String.prefix].
  - repeat split; reflexivity.
  - assert (Hch : is_safe (if is_safe ch then ch else "_"%char) = true)
      by (destruct (is_safe ch) eqn:Hsafe; [exact Hsafe | reflexivity]).
    rewrite Hch, IHsafe, IHlen, IHslash, IHdot. repeat split.
    + destruct (ascii_dec "/" (if is_safe ch then ch else "_"%char)) as [Heq|];
        [|reflexivity].
      rewrite <- Heq in Hch. discriminate.
    + destruct (ascii_dec "." (if is_safe ch then ch else "_"%char)) as [Heq|];
        [|reflexivity].
      rewrite <- Heq in Hch. discriminate.
    + intros Hall. apply andb_true_iff in Hall as [-> Hrest].
      now rewrite (IHsame Hrest).
Qed.

(** *** More facts about the element model *)

Section ParseFacts.

Context `{py : Builtins}.

Lemma append_own_shape (d : pydict json) (elements out : list UIElement) :
  append_own d elements = Ok out ->
  if included d
  then exists e f, out = (elements ++ [e])%list /\ frame e = f
                   /\ frame_shape (node_frame d) f
  else out = elements.
Proof.
  unfold append_own, included.
  destruct (truthy (node_frame d)); cbn [andb]; [|now intros [= <-]].
  destruct (truthy (or_else (node_label d) (node_identifier d)));
    [|now intros [= <-]].
  destruct (_normalize_frame (node_frame d)) as [f|e] eqn:Hframe; cbn [bind];
    [|discriminate].
  intros [= <-]. eexists _, f. repeat split. now apply _normalize_frame_shape.
Qed.

Lemma collect_shapes (ds : list (pydict json)) :
  forall elements out,
    collect ds elements = Ok out ->
    Forall (fun d => exists f, frame_shape (node_frame d) f) (filter included ds).
Proof.
  induction ds as [|d rest IH]; intros elements out; cbn [collect filter].
  - constructor.
  - destruct (append_own d elements) as [acc|e] eqn:Hown; cbn [bind]; [|discriminate].
    intros Hrest. apply append_own_shape in Hown.
    destruct (included d).
    + destruct Hown as (e & f & _ & _ & Hshape).
      constructor; [now exists f | now apply (IH acc out)].
    + now apply (IH acc out).
Qed.

(** X14: [parse] returns exactly when every node it keeps has a frame of one
    of the two shapes, with fields [float()] accepts; one frame that is not
    makes it raise, and then no element of the tree is returned. *)
Theorem parse_returns_iff_frames_well_formed (data : json) :
  (exists found, parse data = Ok found) <-> frames_well_formed data.
Proof.
  unfold parse, frames_well_formed. rewrite _parse_elements_collect. split.
  - intros (found & Hfound). exact (collect_shapes _ _ _ Hfound).
  - intros Hwf. destruct (collect_well_formed _ Hwf []) as (found & Hfound & _).
    now exists found.
Qed.

Lemma append_own_extends (d : pydict json) (elements : list UIElement) :
  append_own d elements
  = (own <- append_own d [] ;; Ok (elements ++ own)%list).
Proof.
  unfold append_own.
  destruct (truthy (node_frame d)); cbn [bind]; [|now rewrite app_nil_r].
  destruct (truthy (or_else (node_label d) (node_identifier d))); cbn [bind];
    [|now rewrite app_nil_r].
  now destruct (_normalize_frame (node_frame d)).
Qed.

Lemma collect_extends (ds : list (pydict json)) :
  forall elements,
    collect ds elements = (found <- collect ds [] ;; Ok (elements ++ found)%list).
Proof.
  induction ds as [|d rest IH]; intros elements; cbn [collect bind].
  - now rewrite app_nil_r.
  - rewrite (append_own_extends d elements).
    destruct (append_own d []) as [own|e]; cbn [bind]; [|reflexivity].
    rewrite (IH (elements ++ own)%list), (IH own).
    destruct (collect rest []) as [found|e]; cbn [bind]; [|reflexivity].
    now rewrite app_assoc.
Qed.

(** X15: the list given to [_parse_elements] is only extended, by the elements
    [parse] finds in the tree whatever the list holds; and the elements of a
    list of trees are those of its first trees followed by those of its
    last trees. *)
Theorem _parse_elements_extends (data : json) (elements : list UIElement)
    (first_trees last_trees : list json) :
  _parse_elements data elements
  = (found <- parse data ;; Ok (elements ++ found)%list)
  /\ parse (JArr (first_trees ++ last_trees))
     = (found <- parse (JArr first_trees) ;;
        more <- parse (JArr last_trees) ;;
        Ok (found ++ more)%list).
Proof.
  unfold parse. rewrite !_parse_elements_collect. split.
  - apply collect_extends.
  - cbn [nodes]. rewrite flat_map_app, collect_app.
    destruct (collect (flat_map nodes first_trees) []) as [found|e]; cbn [bind];
      [|reflexivity].
    apply collect_extends.
Qed.

(** A frame with the four keys, in the order [_normalize_frame] gives them. *)
Lemma frame_shape_four (fr : json) (f : pydict spec_float) :
  frame_shape fr f ->
  exists x y width height,
    f = [("x", x); ("y", y); ("width", width); ("height", height)].
Proof. destruct 1; now eexists _, _, _, _. Qed.

Lemma collect_framed (ds : list (pydict json)) :
  forall elements out,
    collect ds elements = Ok out ->
    Forall framed elements -> Forall framed out.
Proof.
  induction ds as [|d rest IH]; intros elements out; cbn [collect].
  - now intros [= <-].
  - destruct (append_own d elements) as [acc|e] eqn:Hown; cbn [bind]; [|discriminate].
    intros Hrest Hall. apply (IH acc out Hrest).
    apply append_own_shape in Hown. destruct (included d).
    + destruct Hown as (e & f & -> & Hframe & Hshape).
      apply Forall_app. split; [exact Hall|]. constructor; [|constructor].
      unfold framed. rewrite Hframe. exact (frame_shape_four _ _ Hshape).
    + now subst acc.
Qed.

Lemma parse_framed (data : json) (found : list UIElement) :
  parse data = Ok found -> Forall framed found.
Proof.
  unfold parse. rewrite _parse_elements_collect. intros Hfound.
  exact (collect_framed _ _ _ Hfound (Forall_nil _)).
Qed.

End ParseFacts.

Lemma framed_center {World : Type} (el : UIElement) (x y width height : spec_float)
    (w : World) :
  frame el = [("x", x); ("y", y); ("width", width); ("height", height)] ->
  center_x el w = (Ok (SFadd 53 1024 x (SFdiv 53 1024 width two_point_zero)), w)
  /\ center_y el w = (Ok (SFadd 53 1024 y (SFdiv 53 1024 height two_point_zero)), w).
Proof.
  intros Hframe. unfold center_x, center_y, center, item, and_then, ret.
  rewrite Hframe. now cbn.
Qed.



(** *** More facts about the scan *)

Lemma label_passes_exact (el : UIElement) (wanted : option string) :
  label_passes el wanted false = Ok (label_matches wanted false el).
Proof.
  unfold label_passes, label_matches. destruct (given wanted) as [w|]; [|reflexivity].
  now destruct (label el).
Qed.

Lemma label_passes_absent (el : UIElement) (fuzzy : bool) :
  label_passes el None fuzzy = Ok true.
Proof. reflexivity. Qed.

(** The scan on a list whose labels and types are strs. *)
Lemma scan_of_strs (elements : list UIElement)
    (label identifier element_type : option string) (fuzzy : bool) :
  forallb str_fields elements = true ->
  Xcuitest.find_element elements label identifier element_type fuzzy
  = Ok (find (satisfies label identifier element_type fuzzy) elements).
Proof.
  induction elements as [|el rest IH]; intros Hstr;
    cbn [Xcuitest.find_element find]; [reflexivity|].
  cbn [forallb] in Hstr. apply andb_true_iff in Hstr as [Hel Hrest].
  apply andb_true_iff in Hel as [Hlabel Htype].
  rewrite (label_passes_matches el label fuzzy Hlabel). cbn [bind].
  rewrite identifier_passes_matches, (type_passes_matches el element_type Htype).
  unfold satisfies.
  destruct (label_matches label fuzzy el); cbn [negb andb]; [|now apply IH].
  destruct (identifier_matches identifier el); cbn [negb andb bind]; [|now apply IH].
  destruct (type_matches element_type el); cbn [negb]; [reflexivity | now apply IH].
Qed.

(** X17: a scan that asks for no element type and compares the label
    exactly, or asks for no label, never raises, whatever the labels and
    types of the elements are: it returns the first element whose label and
    identifier are the strs asked for. *)
Theorem find_element_without_lower (elements : list UIElement)
    (label identifier : option string) (fuzzy : bool) :
  Xcuitest.find_element elements label identifier None false
  = Ok (find (satisfies label identifier None false) elements)
  /\ Xcuitest.find_element elements None identifier None fuzzy
     = Ok (find (satisfies None identifier None fuzzy) elements).
Proof.
  split; induction elements as [|el rest IH];
    cbn [Xcuitest.find_element find]; try reflexivity.
  - rewrite label_passes_exact. cbn [bind]. rewrite identifier_passes_matches.
    unfold satisfies, type_passes, type_matches. cbn [given bind negb].
    rewrite andb_true_r.
    destruct (label_matches label false el); cbn [negb andb]; [|exact IH].
    destruct (identifier_matches identifier el); cbn [negb]; [reflexivity | exact IH].
  - rewrite label_passes_absent. cbn [bind negb]. rewrite identifier_passes_matches.
    unfold satisfies, type_passes, type_matches, label_matches.
    cbn [given bind negb andb]. rewrite andb_true_r.
    destruct (identifier_matches identifier el); cbn [negb]; [reflexivity | exact IH].
Qed.

Lemma exact_label_is_fuzzy (label : option string) (el : UIElement) :
  label_matches label false el = true -> label_matches label true el = true.
Proof.
  unfold label_matches. destruct (given label) as [w|]; [|reflexivity].
  destruct (Xcuitest.label el) as [| | | |have| |]; try discriminate.
  intros Hsame. apply String.eqb_eq in Hsame. subst have.
  apply PyFacts.contains_itself.
Qed.

Lemma find_exact_fuzzy (label identifier element_type : option string)
    (elements : list UIElement) (el : UIElement) :
  find (satisfies label identifier element_type false) elements = Some el ->
  exists el', find (satisfies label identifier element_type true) elements = Some el'.
Proof.
  induction elements as [|e rest IH]; cbn [find]; [discriminate|].
  destruct (satisfies label identifier element_type true e) eqn:Hfuzzy;
    [now exists e|].
  destruct (satisfies label identifier element_type false e) eqn:Hexact;
    [|exact IH].
  unfold satisfies in *.
  apply andb_true_iff in Hexact as [Hexact Htype].
  apply andb_true_iff in Hexact as [Hlabel Hid].
  rewrite (exact_label_is_fuzzy _ _ Hlabel), Hid, Htype in Hfuzzy. discriminate.
Qed.

(** X18: on elements whose labels and types are strs, a fuzzy scan finds an
    element whenever the exact scan with the same criteria finds one. *)
Theorem fuzzy_finds_what_exact_finds (elements : list UIElement)
    (label identifier element_type : option string) (el : UIElement) :
  forallb str_fields elements = true ->
  Xcuitest.find_element elements label identifier element_type false = Ok (Some el) ->
  exists el',
    Xcuitest.find_element elements label identifier element_type true = Ok (Some el').
Proof.
  intros Hstr. rewrite !(scan_of_strs elements _ _ _ _ Hstr).
  intros [= Hfound].
  destruct (find_exact_fuzzy _ _ _ _ _ Hfound) as (el' & ->). now exists el'.
Qed.

Lemma fuzzy_finds_what_exact_finds_witness :
  forallb str_fields [wifi_cell; settings_button] = true
  /\ Xcuitest.find_element [wifi_cell; settings_button] (Some "Settings") None None false
     = Ok (Some settings_button)
  /\ exists el',
       Xcuitest.find_element [wifi_cell; settings_button] (Some "Settings") None None true
       = Ok (Some el').
Proof.
  split; [reflexivity|]. split; [reflexivity|].
  apply (fuzzy_finds_what_exact_finds [wifi_cell; settings_button]
           (Some "Settings") None None settings_button); reflexivity.
Defined.

(** X19: a fuzzy scan by label raises [AttributeError] when it reaches an
    element whose label is not a str before it has found a match: the
    elements after it are not looked at. *)
Theorem fuzzy_scan_raises_on_label_not_str (before after : list UIElement)
    (el : UIElement) (label wanted : string)
    (identifier element_type : option string) :
  given (Some label) = Some wanted ->
  forallb str_fields before = true ->
  find (satisfies (Some label) identifier element_type true) before = None ->
  is_str (Xcuitest.label el) = false ->
  Xcuitest.find_element (before ++ el :: after) (Some label) identifier element_type true
  = Raise AttributeError.
Proof.
  intros Hgiven Hstr Hnone Hlabel.
  induction before as [|e rest IH]; cbn [app Xcuitest.find_element].
  - unfold label_passes. rewrite Hgiven.
    destruct (Xcuitest.label el); try reflexivity. discriminate.
  - cbn [forallb] in Hstr. apply andb_true_iff in Hstr as [He Hrest].
    apply andb_true_iff in He as [Helabel Hetype].
    cbn [find] in Hnone.
    rewrite (label_passes_matches e (Some label) true Helabel). cbn [bind].
    rewrite identifier_passes_matches, (type_passes_matches e element_type Hetype).
    unfold satisfies in Hnone.
    destruct (label_matches (Some label) true e); cbn [negb andb] in *;
      [|now apply IH].
    destruct (identifier_matches identifier e); cbn [negb andb bind] in *;
      [|now apply IH].
    destruct (type_matches element_type e); cbn [negb]; [discriminate | now apply IH].
Qed.

Lemma fuzzy_scan_raises_on_label_not_str_witness :
  exists found,
    parse (py := no_builtins) numbered_tree = Ok found
    /\ Xcuitest.find_element found (Some "Settings") None None true
       = Raise AttributeError.
Proof.
  eexists. split; [reflexivity|].
  apply (fuzzy_scan_raises_on_label_not_str [] _ _ "Settings" "Settings" None None);
    reflexivity.
Defined.

(** *** More facts about the script engine *)

Section NavigationFacts.

Context {World : Type} `{env : Callees World}.

Lemma screenshot_action (step : pydict json) :
  is_screenshot step = true -> action_of step = JStr "screenshot".
Proof.
  unfold is_screenshot. destruct (action_of step) as [| | | |s| |];
    cbn [eq_str]; try discriminate.
  intros Hs. apply String.eqb_eq in Hs. now subst s.
Qed.

Lemma try_body_screenshot (i : nat) (step : pydict json) (output_dir : string)
    (u : option string) (every : bool) (w w' : World) (r : StepResult) :
  is_screenshot step = true ->
  try_body i step output_dir u every w = (Ok r, w') ->
  exists path, screenshot_path r = Some path.
Proof.
  intros Hshot. unfold try_body. rewrite (screenshot_action step Hshot).
  unfold dispatch, and_then. cbn [eq_str String.eqb Ascii.eqb Bool.eqb andb negb].
  destruct (Xcuitest.capture_step_screenshot _ output_dir u w) as [[path|e] w1];
    [|discriminate].
  rewrite andb_false_r. cbn [ret]. intros [= <- _]. now exists path.
Qed.

Lemma run_step_records (i : nat) (step : pydict json) (output_dir : string)
    (u : option string) (every : bool) (w w' : World) (r : StepResult) :
  run_step i step output_dir u every w = (r, w') ->
  success r = true -> records step r.
Proof.
  unfold run_step.
  destruct (try_body i step output_dir u every w) as [[r0|exc] w0] eqn:Hbody.
  - intros [= <- <-] Hok. split; [exact Hok|].
    intros Hshot. exact (try_body_screenshot _ _ _ _ _ _ _ _ Hshot Hbody).
  - destruct (run_step_raised _ _ _ _ _ _ _ _ Hbody) as (_ & Hfailed & _).
    intros Hrun Hok. rewrite Hrun in Hfailed. cbn [fst] in Hfailed. congruence.
Qed.

Lemma run_steps_outcome (todo : list (pydict json)) (output_dir : string)
    (u : option string) (every : bool) :
  forall i done w,
    exists new,
      fst (run_steps i todo output_dir u every done w) = (done ++ new)%list
      /\ outcome_of todo new.
Proof.
  induction todo as [|step rest IH]; intros i done w; cbn [run_steps].
  - exists []. rewrite app_nil_r. split; [reflexivity|]. apply AllPassed. constructor.
  - destruct (run_step i step output_dir u every w) as [r w'] eqn:Hstep.
    destruct (success r) eqn:Hr; cbn [negb].
    + destruct (IH (S i) (done ++ [r])%list w') as (new & Hrun & Hnew).
      exists (r :: new). rewrite Hrun, <- app_assoc. split; [reflexivity|].
      pose proof (run_step_records _ _ _ _ _ _ _ _ Hstep Hr) as Hrecords.
      destruct Hnew as [entries Hall | before failed Hlen Hgood Hfailed].
      * apply AllPassed. now constructor.
      * apply (OneFailed (step :: rest) (r :: before) failed).
        -- cbn [List.length]. lia.
        -- cbn [forallb]. now rewrite Hr.
        -- exact Hfailed.
    + exists [r]. split; [reflexivity|].
      apply (OneFailed (step :: rest) [] r); [cbn [List.length]; lia | reflexivity | exact Hr].
Qed.

Lemma records_passed (todo : list (pydict json)) (entries : list StepResult) :
  Forall2 records todo entries -> forallb success entries = true.
Proof.
  induction 1 as [|step entry todo entries [Hok _] _ IH]; cbn [forallb];
    [reflexivity|]. now rewrite Hok.
Qed.

Lemma outcome_passed (todo : list (pydict json)) (entries : list StepResult) :
  outcome_of todo entries ->
  if forallb success entries
  then Forall2 records todo entries
  else exists before failed,
         entries = (before ++ [failed])%list
         /\ filter (fun s => negb (success s)) entries = [failed]
         /\ forallb success before = true
         /\ (List.length before < List.length todo)%nat.
Proof.
  intros [entries' Hall | before failed Hlen Hgood Hfailed].
  - now rewrite (records_passed _ _ Hall).
  - rewrite forallb_app. cbn [forallb]. rewrite Hfailed, andb_false_r.
    exists before, failed. repeat split; try assumption.
    rewrite filter_app. cbn [filter]. rewrite Hfailed. cbn [negb].
    replace (filter (fun s => negb (success s)) before) with (@nil StepResult);
      [reflexivity|].
    clear Hlen. induction before as [|e rest IH]; [reflexivity|].
    cbn [forallb] in Hgood. apply andb_true_iff in Hgood as [He Hrest].
    cbn [filter]. rewrite He. cbn [negb]. now apply IH.
Qed.

Lemma run_script_steps (name : string) (todo : list (pydict json))
    (output_dir : string) (given_udid : option string) (every : bool) (w : World) :
  match run_script name todo output_dir given_udid every w with
  | (Ok r, _) => script_name r = name /\ outcome_of todo (steps r)
  | (Raise e, w') => Xcuitest.get_booted w = (Raise e, w')
  end.
Proof.
  unfold run_script, and_then.
  destruct (Xcuitest.get_booted w) as [[booted|e] w0]; [|reflexivity].
  destruct (run_steps_outcome todo output_dir (effective given_udid booted) every
              0 [] w0) as (new & Hrun & Hnew).
  destruct (run_steps 0 todo output_dir _ every [] w0) as [done w1].
  cbn [fst app] in Hrun. subst new. now split.
Qed.

(** X20: a script has passed exactly when every step has its entry and every
    entry is a success, the entry of a screenshot step holding the path of
    its screenshot; otherwise the entries are those of the steps that
    succeeded followed by the one that failed, which is the only failed step
    of the result. *)
Theorem run_script_passed_or_one_failed (name : string) (todo : list (pydict json))
    (output_dir : string) (given_udid : option string) (every : bool) (w : World) :
  match run_script name todo output_dir given_udid every w with
  | (Ok r, _) =>
      if passed r
      then Forall2 records todo (steps r)
      else exists before failed,
             steps r = (before ++ [failed])%list
             /\ failed_steps r = [failed]
             /\ forallb success before = true
             /\ (List.length before < List.length todo)%nat
  | (Raise e, w') => Xcuitest.get_booted w = (Raise e, w')
  end.
Proof.
  pose proof (run_script_steps name todo output_dir given_udid every w) as Hrun.
  destruct (run_script name todo output_dir given_udid every w) as [[r|e] w'];
    [|exact Hrun].
  destruct Hrun as [_ Hnew]. exact (outcome_passed _ _ Hnew).
Qed.

Lemma scripts_end_with_screenshot (screen_name : string) (script : list (pydict json)) :
  lookup scripts screen_name = Some script ->
  exists front final, script = (front ++ [final])%list /\ is_screenshot final = true.
Proof.
  unfold scripts. cbn [lookup].
  destruct (String.eqb "home" screen_name).
  { intros [= <-]. now eexists [_; _; _; _], _. }
  destruct (String.eqb "settings" screen_name).
  { intros [= <-]. now eexists [_; _], _. }
  destruct (String.eqb "back" screen_name); [|discriminate].
  intros [= <-]. now eexists [_; _], _.
Qed.

(** X21: [navigate_to] raises [ValueError] for a screen it has no script for,
    before anything is asked of the simulator.  For "home", "settings" and
    "back" it runs the script of the screen, and a result that has passed
    has an entry for every step of that script, the last of which holds the
    path of the screenshot of the screen. *)
Theorem navigate_to_ends_with_screenshot (screen_name output_dir : string)
    (udid : option string) (w : World) :
  match lookup scripts screen_name with
  | None => navigate_to screen_name output_dir udid w
            = (Raise (UnknownScreen screen_name), w)
  | Some script =>
      match navigate_to screen_name output_dir udid w with
      | (Ok r, _) =>
          script_name r = "navigate_to_" ++ screen_name
          /\ (passed r = true ->
              List.length (steps r) = List.length script
              /\ exists entries final path,
                   steps r = (entries ++ [final])%list
                   /\ screenshot_path final = Some path)
      | (Raise e, w') => Xcuitest.get_booted w = (Raise e, w')
      end
  end.
Proof.
  unfold navigate_to.
  destruct (lookup scripts screen_name) as [script|] eqn:Hscript; [|reflexivity].
  pose proof (run_script_steps ("navigate_to_" ++ screen_name) script output_dir
                udid false w) as Hrun.
  destruct (run_script _ script output_dir udid false w) as [[r|e] w'];
    [|exact Hrun].
  destruct Hrun as (Hname & Hnew). split; [exact Hname|].
  intros Hpassed. apply outcome_passed in Hnew. unfold passed in Hpassed.
  rewrite Hpassed in Hnew.
  split; [symmetry; exact (Forall2_length Hnew)|].
  destruct (scripts_end_with_screenshot _ _ Hscript) as (front & final & -> & Hshot).
  apply Forall2_app_inv_l in Hnew as (entries & lasts & _ & Hlast & ->).
  inversion Hlast as [|? entry ? ? [_ Hpath] Hnil]; subst.
  inversion Hnil; subst.
  destruct (Hpath Hshot) as (path & Hfile). now exists entries, entry, path.
Qed.

End NavigationFacts.

(** *** Facts about the steps of a script *)

Section StepFacts.

Context {World : Type} `{env : Callees World}.

Lemma dispatch_without_key (act key : string) (step_label : json)
    (step : pydict json) (output_dir : string) (u : option string)
    (r : StepResult) (w : World) :
  required_key act = Some key ->
  lookup step key = None ->
  dispatch (JStr act) step_label step output_dir u r w = (Raise (KeyError_of key), w).
Proof.
  unfold required_key. intros Hkey Hnone.
  repeat match type of Hkey with
         | (if String.eqb act ?known then _ else _) = _ =>
             destruct (String.eqb_spec act known) as [->|_]
         end;
    try discriminate;
    injection Hkey as <-;
    unfold dispatch, and_then, item;
    cbn [eq_str String.eqb Ascii.eqb Bool.eqb];
    now rewrite Hnone.
Qed.

(** X22: a step that lacks the key its action reads fails with the
    [KeyError] of that key before anything is asked of the simulator: its
    entry is the one the except clause makes of that error, with the quoted
    key as its error message. *)
Theorem step_without_its_key_fails (i : nat) (step : pydict json)
    (output_dir : string) (u : option string) (every : bool) (w : World)
    (act key : string) :
  action_of step = JStr act ->
  required_key act = Some key ->
  lookup step key = None ->
  run_step i step output_dir u every w
  = on_failure (KeyError_of key) i step output_dir u w
  /\ success (fst (run_step i step output_dir u every w)) = false
  /\ error (fst (run_step i step output_dir u every w)) = Some ("'" ++ key ++ "'").
Proof.
  intros Hact Hkey Hnone.
  assert (Hbody : try_body i step output_dir u every w = (Raise (KeyError_of key), w)).
  { unfold try_body, and_then. rewrite Hact.
    now rewrite (dispatch_without_key act key _ step output_dir u _ w Hkey Hnone). }
  destruct (run_step_raised _ _ _ _ _ _ _ _ Hbody) as (-> & Hfailed & Herror).
  now repeat split.
Qed.

Lemma dispatch_unknown (act step_label : json) (step : pydict json)
    (output_dir : string) (u : option string) (r : StepResult) (w : World) :
  existsb (eq_str act) actions = false ->
  dispatch act step_label step output_dir u r w
  = (Raise {| class_name := "ValueError";
              message := "Unknown action: " ++ repr act |}, w).
Proof.
  unfold actions. cbn [existsb]. intros Hnone.
  repeat (apply orb_false_iff in Hnone as [? Hnone]).
  unfold dispatch.
  repeat match goal with
         | H : eq_str act _ = false |- _ => rewrite H; clear H
         end.
  reflexivity.
Qed.

(** X23: a step whose action is none of the eight the engine knows, a step
    without an action among them, fails with [ValueError] "Unknown action"
    before anything is asked of the simulator. *)
Theorem step_of_unknown_action_fails (i : nat) (step : pydict json)
    (output_dir : string) (u : option string) (every : bool) (w : World) :
  existsb (eq_str (action_of step)) actions = false ->
  let exc := {| class_name := "ValueError";
                message := "Unknown action: " ++ repr (action_of step) |} in
  run_step i step output_dir u every w = on_failure exc i step output_dir u w
  /\ success (fst (run_step i step output_dir u every w)) = false
  /\ error (fst (run_step i step output_dir u every w))
     = Some ("Unknown action: " ++ repr (action_of step)).
Proof.
  intros Hnone exc.
  assert (Hbody : try_body i step output_dir u every w = (Raise exc, w)).
  { unfold try_body, and_then.
    now rewrite (dispatch_unknown _ _ step output_dir u _ w Hnone). }
  destruct (run_step_raised _ _ _ _ _ _ _ _ Hbody) as (-> & Hfailed & Herror).
  now repeat split.
Qed.

Lemma for_each_labels (elements : list UIElement) (w : World) :
  forallb (fun el => is_str (label el)) elements = true ->
  for_each (fun el => lowered (label el)) elements w
  = (Ok (map (fun el => lower (label_text el)) elements), w).
Proof.
  induction elements as [|el rest IH]; cbn [forallb for_each map]; [reflexivity|].
  intros Hall. apply andb_true_iff in Hall as [Hel Hrest].
  unfold and_then, label_text. destruct (label el); try discriminate.
  cbn [lowered ret]. now rewrite (IH Hrest).
Qed.

Lemma any_contains_existsb (expected : string) (texts : list string) (w : World) :
  any_contains (JStr expected) texts w
  = (Ok (existsb (fun t => contains t (lower expected)) texts), w).
Proof.
  induction texts as [|t rest IH]; cbn [any_contains existsb]; [reflexivity|].
  unfold and_then. cbn [lowered ret].
  destruct (contains t (lower expected)); [reflexivity | exact IH].
Qed.

Lemma existsb_of_map {A B : Type} (f : B -> bool) (g : A -> B) (l : list A) :
  existsb f (map g l) = existsb (fun x => f (g x)) l.
Proof. induction l as [|x l IH]; cbn [map existsb]; [reflexivity | now rewrite IH]. Qed.

(** X24: an assert_text step passes exactly when the label or the value of
    some element of the screen contains the text, case apart; on a screen
    without elements it fails, for the empty text too.  This is for
    elements whose labels are strs and a text that is a str. *)
Theorem assert_text_looks_at_labels_and_values (step_label : json)
    (step : pydict json) (output_dir : string) (u : option string)
    (r : StepResult) (w w1 : World) (expected : string)
    (elements : list UIElement) :
  lookup step "text" = Some (JStr expected) ->
  Xcuitest.describe_screen u w = (Ok elements, w1) ->
  forallb (fun el => is_str (label el)) elements = true ->
  dispatch (JStr "assert_text") step_label step output_dir u r w
  = (if on_screen expected elements
     then Ok (set_detail ("Found text: " ++ repr (JStr expected)) r)
     else Raise {| class_name := "AssertionError";
                   message := "Text not found on screen: " ++ repr (JStr expected) |},
     w1)
  /\ on_screen expected [] = false.
Proof.
  intros Htext Hscreen Hlabels. split; [|reflexivity].
  unfold dispatch. cbn [eq_str String.eqb Ascii.eqb Bool.eqb].
  unfold and_then at 1. unfold item. rewrite Htext. cbn [ret].
  unfold and_then at 1. rewrite Hscreen.
  unfold and_then at 1. rewrite (for_each_labels elements w1 Hlabels).
  unfold and_then. rewrite any_contains_existsb.
  unfold on_screen. rewrite existsb_app, !existsb_of_map.
  now destruct (_ || _).
Qed.

End StepFacts.

Lemma step_without_its_key_fails_witness :
  run_step (env := screen_with_camera) 0 tap_without_label "/tmp/ios_bot_steps"
    None false []
  = on_failure (env := screen_with_camera) (KeyError_of "label") 0 tap_without_label
      "/tmp/ios_bot_steps" None []
  /\ success (fst (run_step (env := screen_with_camera) 0 tap_without_label
                     "/tmp/ios_bot_steps" None false [])) = false
  /\ error (fst (run_step (env := screen_with_camera) 0 tap_without_label
                   "/tmp/ios_bot_steps" None false [])) = Some "'label'".
Proof.
  apply (step_without_its_key_fails (env := screen_with_camera) 0
           tap_without_label "/tmp/ios_bot_steps" None false [] "tap_label" "label");
    reflexivity.
Defined.

Lemma step_of_unknown_action_fails_witness :
  action_of step_without_action = JStr "unknown"
  /\ success (fst (run_step (env := screen_with_camera) 0 step_without_action
                     "/tmp/ios_bot_steps" None false [])) = false
  /\ error (fst (run_step (env := screen_with_camera) 0 step_without_action
                   "/tmp/ios_bot_steps" None false []))
     = Some ("Unknown action: " ++ repr (Callees := screen_with_camera) (JStr "unknown")).
Proof.
  split; [reflexivity|].
  destruct (step_of_unknown_action_fails (env := screen_with_camera) 0
              step_without_action "/tmp/ios_bot_steps" None false []
              eq_refl) as (_ & Hfailed & Herror).
  now split.
Defined.

Lemma assert_text_looks_at_labels_and_values_witness :
  on_screen "WI-FI" [settings_button; wifi_cell] = true
  /\ dispatch (env := wifi_screen) (JStr "assert_text")
       (JStr "step_1_assert_text") assert_wifi "/tmp/ios_bot_steps" None
       (fresh (env := wifi_screen) 0 assert_wifi) []
     = (Ok (set_detail "Found text: 'WI-FI'" (fresh (env := wifi_screen) 0 assert_wifi)),
        ["describe_screen"]).
Proof.
  split; [reflexivity|].
  apply (assert_text_looks_at_labels_and_values (env := wifi_screen)
           (JStr "step_1_assert_text") assert_wifi "/tmp/ios_bot_steps" None
           (fresh (env := wifi_screen) 0 assert_wifi) [] ["describe_screen"] "WI-FI"
           [settings_button; wifi_cell]);
    reflexivity.
Defined.

(** *** Facts about the primitives *)

Lemma contains_slash_cons (ch : ascii) (rest : string) :
  contains (String ch rest) "/"
  = (if ascii_dec "/" ch then true else false) || contains rest "/".
Proof.
  cbn [contains String.prefix].
  destruct (ascii_dec "/" ch); [now destruct rest | reflexivity].
Qed.

Lemma contains_slash_app (a b : string) :
  contains (a ++ b) "/" = contains a "/" || contains b "/".
Proof.
  induction a as [|ch a IH]; cbn [String.append].
  - now destruct b.
  - rewrite !contains_slash_cons, IH. now rewrite orb_assoc.
Qed.

Lemma all_safe_no_slash (s : string) : all_safe s = true -> contains s "/" = false.
Proof.
  induction s as [|ch s IH]; cbn [all_safe]; [reflexivity|].
  intros Hall. apply andb_true_iff in Hall as [Hch Hrest].
  rewrite contains_slash_cons, (IH Hrest).
  destruct (ascii_dec "/" ch) as [<-|]; [discriminate | reflexivity].
Qed.

Lemma safe_name_all_safe (s : string) : all_safe (safe_name s) = true.
Proof.
  induction s as [|ch s IH]; cbn [safe_name all_safe]; [reflexivity|].
  rewrite IH, andb_true_r. destruct (is_safe ch) eqn:Hch; [exact Hch | reflexivity].
Qed.

Lemma digits_all_safe (d : Decimal.uint) :
  all_safe (NilEmpty.string_of_uint d) = true.
Proof.
  induction d; cbn [NilEmpty.string_of_uint all_safe]; try reflexivity; exact IHd.
Qed.

Lemma str_of_Z_all_safe (n : Z) : all_safe (str_of_Z n) = true.
Proof.
  unfold str_of_Z, NilZero.string_of_int, NilZero.string_of_uint.
  destruct (Z.to_int n) as [d|d]; destruct d; cbn [all_safe];
    try reflexivity;
    match goal with
    | |- all_safe (NilEmpty.string_of_uint ?d) = true => apply (digits_all_safe d)
    | |- _ && all_safe (NilEmpty.string_of_uint ?d) = true =>
        rewrite (digits_all_safe d); reflexivity
    end.
Qed.

Section PrimitivesFacts.

Context {World : Type} `{dev : Device World}.

(** X25: a screenshot a step asks for is written in the output directory
    itself: the file name made of the step name and the time has no path
    separator in it, whatever the step name is. *)
Theorem capture_step_screenshot_stays_in_output_dir (step_name : json)
    (output_dir : string) (udid : option string) (w w' : World) (path : string) :
  capture_step_screenshot step_name output_dir udid w = (Ok path, w') ->
  exists name stamp,
    step_name = JStr name
    /\ path = path_join output_dir
                (safe_name name ++ "_" ++ str_of_Z stamp ++ ".png")
    /\ contains (safe_name name ++ "_" ++ str_of_Z stamp ++ ".png") "/" = false.
Proof.
  unfold capture_step_screenshot, then_.
  destruct (mkdir output_dir w) as [[[]|e] w1]; [|discriminate].
  destruct step_name as [| | | |name| |]; cbn [re_sub_unsafe builtin fail unit_];
    try discriminate.
  destruct (timestamp w1) as [[stamp|e] w2]; [|discriminate].
  destruct (get_booted w2) as [[booted|e] w3]; [|discriminate].
  destruct (simctl_screenshot _ _ w3) as [[out|e] w4]; [|discriminate].
  intros [= <- _]. exists name, stamp. repeat split.
  rewrite !contains_slash_app.
  rewrite (all_safe_no_slash _ (safe_name_all_safe name)).
  now rewrite (all_safe_no_slash _ (str_of_Z_all_safe stamp)).
Qed.

(** X26: the direction of a swipe is read without regard to case. *)
Theorem swipe_ignores_case (direction : string) (distance : json)
    (udid : option string) (duration start_x start_y : json) (w : World) :
  swipe (JStr direction) distance udid duration start_x start_y w
  = swipe (JStr (lower direction)) distance udid duration start_x start_y w.
Proof.
  unfold swipe. cbn [lower_of]. now rewrite PyFacts.lower_twice.
Qed.

(** X27: a swipe in a direction that is none of up, down, left and right
    raises [ValueError] before the client is asked for anything: the world
    is left as it was. *)
Theorem swipe_unknown_direction (direction : string) (distance : json)
    (udid : option string) (duration start_x start_y : json) (w : World) :
  existsb (String.eqb (lower direction)) ["up"; "down"; "left"; "right"] = false ->
  swipe (JStr direction) distance udid duration start_x start_y w
  = (Raise (UnknownDirection (lower direction)), w).
Proof.
  cbn [existsb]. intros Hnone.
  apply orb_false_iff in Hnone as [Hup Hnone].
  apply orb_false_iff in Hnone as [Hdown Hnone].
  apply orb_false_iff in Hnone as [Hleft Hnone].
  apply orb_false_iff in Hnone as [Hright _].
  unfold swipe, then_. cbn [lower_of builtin unit_].
  unfold swipe_end. now rewrite Hup, Hdown, Hleft, Hright.
Qed.

(** X28: without idb, tapping an element fails as if the element were not on
    the screen.  When the description of the screen is an idb error,
    [tap_element] raises [ValueError] "Element not found", not the
    [RuntimeError] that tells idb is missing, and sends no tap. *)
Theorem tap_element_without_idb (label identifier udid : option string)
    (fuzzy : bool) (w w1 w2 : World) (raw : string) :
  get_client w = (Ok tt, w1) ->
  call_tool "ui_describe_all" (with_udid udid []) 20000%Z w1 = (Ok raw, w2) ->
  _is_idb_error raw = true ->
  tap_element label identifier udid fuzzy w
  = (Raise (ElementNotFound (py_repr (JStr (description label identifier)))), w2).
Proof.
  intros Hclient Hdescribe Hidb.
  unfold tap_element, find_element, describe_screen, then_.
  rewrite Hclient, Hdescribe, Hidb. reflexivity.
Qed.

(** X29: [tap_element] taps the centre of the first element of the screen that
    matches and returns that element.  When the description of the screen
    decodes to a tree whose elements have str labels and types, and [el] is
    the first that satisfies the label and the identifier asked for, the one
    tap sent is at x + width / 2 and y + height / 2 of the frame of [el]. *)
Theorem tap_element_taps_center_of_first_match (label identifier udid : option string)
    (fuzzy : bool) (w w1 w2 : World) (raw : string) (data : json)
    (elements : list UIElement) (el : UIElement) :
  get_client w = (Ok tt, w1) ->
  call_tool "ui_describe_all" (with_udid udid []) 20000%Z w1 = (Ok raw, w2) ->
  _is_idb_error raw = false ->
  json_loads raw = Ok data ->
  parse data = Ok elements ->
  forallb str_fields elements = true ->
  find (satisfies label identifier None fuzzy) elements = Some el ->
  exists x y width height,
    frame el = [("x", x); ("y", y); ("width", width); ("height", height)]
    /\ forall w3 w4 answer,
         get_client w2 = (Ok tt, w3) ->
         call_tool "ui_tap"
           (with_udid udid
              [ ("x", JFloat (SFadd 53 1024 x (SFdiv 53 1024 width two_point_zero)));
                ("y", JFloat (SFadd 53 1024 y (SFdiv 53 1024 height two_point_zero)));
                ("duration", JStr (py_str tenth)) ])
           10000%Z w3 = (Ok answer, w4) ->
         _is_idb_error answer = false ->
         tap_element label identifier udid fuzzy w = (Ok el, w4).
Proof.
  intros Hclient Hdescribe Hidb Hloads Hparse Hstr Hfound.
  pose proof (parse_framed data elements Hparse) as Hframed.
  rewrite Forall_forall in Hframed.
  destruct (Hframed el (proj1 (find_some _ _ Hfound)))
    as (x & y & width & height & Hframe).
  exists x, y, width, height. split; [exact Hframe|].
  intros w3 w4 answer Hclient' Htap Hidb'.
  unfold tap_element, find_element, describe_screen, then_.
  rewrite Hclient, Hdescribe, Hidb, Hloads, Hparse. cbn [builtin unit_].
  rewrite (scan_of_strs elements _ _ _ _ Hstr), Hfound. cbn [builtin unit_].
  unfold lifted.
  destruct (framed_center el x y width height w2 Hframe) as [-> ->].
  unfold tap_xy, then_. now rewrite Hclient', Htap, Hidb'.
Qed.

End PrimitivesFacts.

Lemma capture_step_screenshot_stays_in_output_dir_witness :
  capture_step_screenshot (dev := device_showing "tree")
    (JStr "FAIL_../step 1") "/tmp/ios_bot_steps" None []
  = (Ok "/tmp/ios_bot_steps/FAIL____step_1_1700000000000.png",
     ["mkdir"; "get_booted"; "screenshot B00TED"])
  /\ exists name stamp,
       JStr "FAIL_../step 1" = JStr name
       /\ "/tmp/ios_bot_steps/FAIL____step_1_1700000000000.png"
          = path_join (Device := device_showing "tree") "/tmp/ios_bot_steps"
              (safe_name name ++ "_" ++ str_of_Z stamp ++ ".png")
       /\ contains (safe_name name ++ "_" ++ str_of_Z stamp ++ ".png") "/" = false.
Proof.
  split; [reflexivity|].
  apply (capture_step_screenshot_stays_in_output_dir (dev := device_showing "tree")
           (JStr "FAIL_../step 1") "/tmp/ios_bot_steps" None []
           ["mkdir"; "get_booted"; "screenshot B00TED"]).
  reflexivity.
Defined.

Lemma swipe_unknown_direction_witness :
  existsb (String.eqb (lower "Diagonal")) ["up"; "down"; "left"; "right"] = false
  /\ swipe (dev := device_showing "tree") (JStr "Diagonal") three_hundred_point_zero
       None half JNull JNull ["ui_tap"]
     = (Raise (UnknownDirection (dev := device_showing "tree") "diagonal"), ["ui_tap"]).
Proof.
  split; [reflexivity|].
  apply (swipe_unknown_direction (dev := device_showing "tree") "Diagonal").
  reflexivity.
Defined.

Lemma tap_element_without_idb_witness :
  _is_idb_error "Error: spawn idb ENOENT" = true
  /\ tap_element (dev := device_showing "Error: spawn idb ENOENT")
       (Some "Settings") None None true []
     = (Raise (ElementNotFound "'Settings'"), ["ui_describe_all"]).
Proof.
  split; [reflexivity|].
  apply (tap_element_without_idb (dev := device_showing "Error: spawn idb ENOENT")
           (Some "Settings") None None true [] [] ["ui_describe_all"]
           "Error: spawn idb ENOENT"); reflexivity.
Defined.

Lemma tap_element_taps_center_of_first_match_witness :
  exists elements el,
    parse (py := no_builtins) mixed_tree = Ok elements
    /\ forallb str_fields elements = true
    /\ find (satisfies (Some "set") None None true) elements = Some el
    /\ label el = JStr "Settings"
    /\ tap_element (dev := device_showing "tree") (Some "set") None None true []
       = (Ok el, ["ui_describe_all"; "ui_tap"]).
Proof.
  do 2 eexists. split; [reflexivity|]. split; [reflexivity|].
  split; [reflexivity|]. split; [reflexivity|].
  destruct (tap_element_taps_center_of_first_match (dev := device_showing "tree")
              (Some "set") None None true [] [] ["ui_describe_all"] "tree"
              mixed_tree _ _ eq_refl eq_refl eq_refl eq_refl eq_refl eq_refl eq_refl)
    as (x & y & width & height & _ & Htap).
  exact (Htap ["ui_describe_all"] ["ui_describe_all"; "ui_tap"] "Tapped"
           eq_refl eq_refl eq_refl).
Defined.

End Screen.
